(** * Shipment tracking portal: access control and status derivation

    A shallow embedding of the source files of the portal

    - [src/app/shipments/page.tsx], the list page ([ShipmentsPage]),
    - [src/app/shipments/[shipment_id]/page.tsx], the detail page
      ([DetailPage]),
    - [src/app/api/shipments/route.ts], the list endpoint ([ListRoute]),
    - the detail endpoint, the [GET] handler taking a [shipment_id] parameter
      that the source tree carries after the list page ([DetailRoute]),

    followed by the properties of the specification, each proved or refuted
    on the embedding.

    Text is modelled by [string] (a sequence of 8-bit characters); the case
    mappings and [trim] are those of JavaScript restricted to ASCII: they
    agree with JavaScript on every text of ASCII characters ([Text.is_ascii]),
    and leave alone the other letters and spaces JavaScript would map or
    trim. *)

From Stdlib Require Import ZArith Lia Bool Ascii String List DecimalString
  Sorting.Sorted Sorting.Permutation.
From stdpp Require Import base decidable option list gmap strings.

Local Open Scope string_scope.

(** ** JavaScript string primitives *)

Module Js.

Definition is_upper (c : ascii) : bool :=
  let n := nat_of_ascii c in (65 <=? n)%nat && (n <=? 90)%nat.

Definition is_lower (c : ascii) : bool :=
  let n := nat_of_ascii c in (97 <=? n)%nat && (n <=? 122)%nat.

Definition lower_char (c : ascii) : ascii :=
  if is_upper c then ascii_of_nat (nat_of_ascii c + 32) else c.

Definition upper_char (c : ascii) : ascii :=
  if is_lower c then ascii_of_nat (nat_of_ascii c - 32) else c.

Fixpoint map_chars (f : ascii -> ascii) (s : string) : string :=
  match s with
  | EmptyString => EmptyString
  | String c s' => String (f c) (map_chars f s')
  end.

(** [s.toLowerCase()] and [s.toUpperCase()]. *)
Definition toLowerCase : string -> string := map_chars lower_char.
Definition toUpperCase : string -> string := map_chars upper_char.

(** White space removed by [trim]: TAB, LF, VT, FF, CR and SPACE. *)
Definition is_space (c : ascii) : bool :=
  let n := nat_of_ascii c in ((9 <=? n)%nat && (n <=? 13)%nat) || (n =? 32)%nat.

Fixpoint trimStart (s : string) : string :=
  match s with
  | EmptyString => EmptyString
  | String c s' => if is_space c then trimStart s' else s
  end.

(** [trimEnd] drops a character when it is a space and everything after it
    has already been dropped. *)
Fixpoint trimEnd (s : string) : string :=
  match s with
  | EmptyString => EmptyString
  | String c s' =>
      match trimEnd s' with
      | EmptyString => if is_space c then EmptyString else String c EmptyString
      | t => String c t
      end
  end.

Definition trim (s : string) : string := trimEnd (trimStart s).

(** [s.startsWith(p)]. *)
Fixpoint startsWith (s p : string) : bool :=
  match p, s with
  | EmptyString, _ => true
  | String _ _, EmptyString => false
  | String a p', String b s' => Ascii.eqb a b && startsWith s' p'
  end.

(** [s.includes(sub)]. *)
Fixpoint includes (s sub : string) : bool :=
  startsWith s sub ||
  match s with
  | EmptyString => false
  | String _ s' => includes s' sub
  end.

(** [s.slice(n)] for [n >= 0]. *)
Fixpoint slice (n : nat) (s : string) : string :=
  match n, s with
  | O, _ => s
  | S _, EmptyString => EmptyString
  | S n', String _ s' => slice n' s'
  end.

(** Truthiness of a nullable string: [null] and [""] are falsy. *)
Definition truthy (v : option string) : bool :=
  match v with
  | Some s => negb (String.eqb s "")
  | None => false
  end.

(** [v ?? d]. *)
Definition nullish (v : option string) (d : string) : string :=
  match v with Some s => s | None => d end.

(** [a || b] on nullable strings. *)
Definition or_else (a b : option string) : option string :=
  if truthy a then a else b.

(** [a === b] where either side may be [undefined]. *)
Definition strict_eq (a b : option string) : bool :=
  match a, b with
  | Some x, Some y => String.eqb x y
  | None, None => true
  | _, _ => false
  end.

(** [l.join(sep)]. *)
Fixpoint join (sep : string) (l : list string) : string :=
  match l with
  | [] => ""
  | [x] => x
  | x :: l' => x ++ sep ++ join sep l'
  end.

End Js.

(** ** The list page: [src/app/shipments/page.tsx] *)

Module ShipmentsPage.

Record Shipment := {
  shipment_id : string;
  hawb : option string;
  mawb : option string;
  po_number : option string;
  customer_reference : option string;
  origin : option string;
  destination : option string;
  current_status : option string;
  eta_updated : option string;
  last_event_time : option string;
  latest_event_code : option string;
}.

(** The keys ["eta_updated"] and ["last_event_time"] carry a prefix here,
    their names being those of the fields they sort by. *)
Inductive SortKey := reference | route | status | key_eta_updated | key_last_event_time.

Inductive SortDir := asc | desc.

Inductive DerivedStatus :=
| Delivered
| CustomsReleased
| Discharged
| InTransit
| PreDeparture.

(** The string each member of the union type stands for. *)
Definition label (d : DerivedStatus) : string :=
  match d with
  | Delivered => "Delivered"
  | CustomsReleased => "Customs Released"
  | Discharged => "Discharged"
  | InTransit => "In Transit"
  | PreDeparture => "Pre-Departure"
  end.

Definition deriveStatus (s : Shipment) : DerivedStatus :=
  let eventCode := Js.trim (Js.toUpperCase (Js.nullish (latest_event_code s) "")) in
  if Js.includes eventCode "DELIVERED" || String.eqb eventCode "DEL" then Delivered
  else if Js.includes eventCode "CUSTOMS_RELEASED" || String.eqb eventCode "CUS"
          || Js.includes eventCode "CLEARED" then CustomsReleased
  else if Js.includes eventCode "DISCHARGED" || String.eqb eventCode "DIS" then Discharged
  else if Js.includes eventCode "ATD" || Js.includes eventCode "DEPARTED" then InTransit
  else if Js.includes eventCode "BOOKED" || Js.includes eventCode "READY"
          || Js.includes eventCode "DOCS_RECEIVED" || Js.includes eventCode "CARGO_RECEIVED"
  then PreDeparture
  else
    let raw := Js.toLowerCase (Js.trim (Js.nullish (current_status s) "")) in
    if Js.includes raw "deliver" then Delivered
    else if Js.includes raw "custom" && (Js.includes raw "release" || Js.includes raw "cleared")
    then CustomsReleased
    else if Js.includes raw "discharg" then Discharged
    else if Js.includes raw "transit" then InTransit
    else if Js.includes raw "pre" || Js.includes raw "booked" || Js.includes raw "ready"
    then PreDeparture
    else InTransit.

Definition asLower (v : option string) : string :=
  Js.toLowerCase (Js.nullish v "").

Definition getReference (s : Shipment) : string :=
  Js.nullish
    (Js.or_else (Js.or_else (Js.or_else (hawb s) (mawb s)) (po_number s)) (Some (shipment_id s)))
    "".

Definition getRoute (s : Shipment) : string :=
  Js.nullish (origin s) "" ++ "→" ++ Js.nullish (destination s) "".

(** A value held by [av] and [bv] in the comparator: a string, or a number
    where [Num None] is NaN. Time values are integers, on which the
    arithmetic of the comparator is exact. *)
Inductive SortVal :=
| Str (s : string)
| Num (n : option Z).

(** [Number.isNaN(v)]: false on every string. *)
Definition isNaN (v : SortVal) : bool :=
  match v with
  | Num None => true
  | _ => false
  end.

(** [String(v)]. *)
Definition toString (v : SortVal) : string :=
  match v with
  | Str s => s
  | Num (Some z) => NilZero.string_of_int (Z.to_int z)
  | Num None => "NaN"
  end.

Definition dirMul (sortDir : SortDir) : Z :=
  match sortDir with asc => 1 | desc => -1 end.

Section Host.

(** [new Date(v).getTime()], with [None] for the NaN of an invalid date,
    and [String.prototype.localeCompare]; both belong to the host. *)
Variable dateTime : string -> option Z.
Variable localeCompare : string -> string -> Z.

Definition parseDateMs (v : option string) : option Z :=
  if negb (Js.truthy v) then None
  else match v with
       | Some s => dateTime s
       | None => None
       end.

(** The [switch (sortKey)] of the comparator. *)
Definition sortValue (sortKey : SortKey) (s : Shipment) : SortVal :=
  match sortKey with
  | reference => Str (asLower (Some (getReference s)))
  | route => Str (asLower (Some (getRoute s)))
  | status => Str (asLower (Some (label (deriveStatus s))))
  | key_eta_updated => Num (parseDateMs (eta_updated s))
  | key_last_event_time => Num (parseDateMs (last_event_time s))
  end.

(** The function passed to [sort]. *)
Definition comparator (sortKey : SortKey) (sortDir : SortDir) (a b : Shipment) : Z :=
  let av := sortValue sortKey a in
  let bv := sortValue sortKey b in
  if isNaN av then 1
  else if isNaN bv then -1
  else match av, bv with
       | Num (Some x), Num (Some y) => (x - y) * dirMul sortDir
       | _, _ => localeCompare (toString av) (toString bv) * dirMul sortDir
       end.

(** [Array.prototype.sort] as a stable insertion sort: each element is
    placed before the first one the comparator puts it in front of. *)
Fixpoint insert_by (cmp : Shipment -> Shipment -> Z) (x : Shipment) (l : list Shipment)
  : list Shipment :=
  match l with
  | [] => [x]
  | y :: l' => if (cmp x y <? 0)%Z then x :: y :: l' else y :: insert_by cmp x l'
  end.

Definition sort_by (cmp : Shipment -> Shipment -> Z) (l : list Shipment) : list Shipment :=
  fold_left (fun acc x => insert_by cmp x acc) l [].

Definition matchesQuery (q : string) (s : Shipment) : bool :=
  existsb (fun v => Js.includes (Js.toLowerCase (Js.nullish v "")) q)
    (List.filter Js.truthy
       [hawb s; mawb s; po_number s; customer_reference s; Some (shipment_id s)]).

Definition filteredAndSorted (rows : list Shipment) (query : string)
    (sortKey : SortKey) (sortDir : SortDir) : list Shipment :=
  let q := Js.toLowerCase (Js.trim query) in
  let list := if Js.truthy (Some q) then List.filter (matchesQuery q) rows else rows in
  sort_by (comparator sortKey sortDir) list.

End Host.

End ShipmentsPage.

(** ** The detail page: [src/app/shipments/[shipment_id]/page.tsx] *)

Module DetailPage.

Record EventRow := {
  event_time : option string;
  event_code : option string;
  notes : option string;
  location : option string;
  source_column : option string;
}.

Record Milestone := {
  key : string;
  label : string;
  codes : list string;
}.

Definition MILESTONES : list Milestone := [
  {| key := "booked"; label := "Booked"; codes := ["BOOKED"] |};
  {| key := "ready"; label := "Ready"; codes := ["READY"] |};
  {| key := "docs"; label := "Docs Received"; codes := ["DOCS_RECEIVED"] |};
  {| key := "cargo"; label := "Cargo Received"; codes := ["CARGO_RECEIVED"] |};
  {| key := "departed"; label := "Departed"; codes := ["ATD"] |};
  {| key := "discharged"; label := "Discharged"; codes := ["DISCHARGED"] |};
  {| key := "customs"; label := "Customs Released"; codes := ["CUSTOMS_RELEASED"] |};
  {| key := "delivered"; label := "Delivered"; codes := ["DELIVERED"] |}
].

(** [(e.event_code ?? "").toUpperCase().trim()]. *)
Definition normalized (e : EventRow) : string :=
  Js.trim (Js.toUpperCase (Js.nullish (event_code e) "")).

(** The [Set] of the non-empty normalized codes. *)
Definition codeSet (events : list EventRow) : gset string :=
  list_to_set (List.filter (fun c => Js.truthy (Some c)) (List.map normalized events)).

(** [MILESTONES[i].codes.some((c) => codes.has(c))]. *)
Definition reached (codes : gset string) (m : Milestone) : bool :=
  existsb (fun c => bool_decide (c ∈ codes)) (DetailPage.codes m).

(** The loop [for (let i = n - 1; i >= 0; i--)], entered with [n] indices
    still to visit, and the [return 0] after it. *)
Fixpoint scan (codes : gset string) (n : nat) : nat :=
  match n with
  | O => 0
  | S i =>
      match MILESTONES !! i with
      | Some m => if reached codes m then i else scan codes i
      | None => scan codes i
      end
  end.

Definition inferMilestoneIndex (events : list EventRow) : nat :=
  match events with
  | [] => 0
  | _ => scan (codeSet events) (length MILESTONES)
  end.

End DetailPage.

(** ** The Supabase client: tables, reads and the identity provider *)

Module AllowedUsers.
Record row := { email : string; customer_id : option string }.
End AllowedUsers.

Module Shipments.
Record row := {
  shipment_id : string;
  hawb : option string;
  mawb : option string;
  po_number : option string;
  customer_reference : option string;
  origin : option string;
  destination : option string;
  current_status : option string;
  eta_updated : option string;
  last_event_time : option string;
  customer_id : option string;
}.
End Shipments.

Module Events.
Record row := {
  shipment_id : string;
  event_time : option string;
  event_code : option string;
  notes : option string;
  location : option string;
  source_column : option string;
}.
End Events.

Module Supabase.

(** The [{ data, error }] pair every call resolves to. *)
Inductive Result (A : Type) :=
| Ok (data : A)
| Err (message : string).
Arguments Ok {A} data.
Arguments Err {A} message.

(** What the datastore decides on behalf of the handlers: whether a row
    whose [customer_id] is the given value satisfies an [or=(...)] filter
    string, and how it orders the values of a timestamp column (ascending,
    [None] being SQL NULL). *)
Class Engine := {
  or_filter : string -> option string -> bool;
  ts_leb : option string -> option string -> bool;
}.

(** The reads the two handlers issue. *)
Inductive Query :=
| SelectMemberships (email : string)
| SelectShipments (orConditions : string)
| SelectLatestEvent (shipment_id : string)
| SelectShipment (shipment_id : string)
| SelectEvents (shipment_id : string).

Record User := { email : option string }.

(** A Supabase project: the identity provider, the three tables, and the
    reads that currently fail, with their error message. *)
Record Project := {
  getUser : string -> Result User;
  allowed_users : list AllowedUsers.row;
  shipments : list Shipments.row;
  events : list Events.row;
  outage : Query -> option string;
}.

Record Env := {
  NEXT_PUBLIC_SUPABASE_URL : option string;
  NEXT_PUBLIC_SUPABASE_ANON_KEY : option string;
  SUPABASE_SERVICE_ROLE_KEY : option string;
}.

(** The only part of the request the handlers look at, besides the path
    parameter, is its [authorization] header. *)
Record Request := { authorization : option string }.

Inductive Body (A : Type) :=
| Json (payload : A)
| Error (error : string).
Arguments Json {A} payload.
Arguments Error {A} error.

Record Response (A : Type) := { status : nat; body : Body A }.
Arguments status {A} _.
Arguments body {A} _.

(** [NextResponse.json(body)] and [NextResponse.json({ error }, { status })]. *)
Definition json {A} (payload : A) : Response A :=
  {| status := 200; body := Json payload |}.
Definition fail {A} (message : string) (code : nat) : Response A :=
  {| status := code; body := Error message |}.

(** A handler reads the project and leaves a log of the reads it issued. *)
Definition Srv (A : Type) : Type := Project -> list Query -> A * list Query.

Definition ret {A} (a : A) : Srv A := fun _ log => (a, log).

Definition bind {A B} (m : Srv A) (k : A -> Srv B) : Srv B :=
  fun db log => let (a, log') := m db log in k a db log'.

Definition ask : Srv Project := fun db log => (db, log).

(** One awaited read: logged, then failed by an outage or evaluated. *)
Definition read {A} (q : Query) (rows : Project -> Result A) : Srv (Result A) :=
  fun db log =>
    (match outage db q with
     | Some message => Err message
     | None => rows db
     end, (log ++ [q])%list).

(** [await Promise.all(l.map(f))]: the reads start in list order. *)
Fixpoint all {A B} (f : A -> Srv B) (l : list A) : Srv (list B) :=
  match l with
  | [] => ret []
  | x :: l' => bind (f x) (fun y => bind (all f l') (fun ys => ret (y :: ys)))
  end.

Definition run {A} (m : Srv A) (db : Project) : A * list Query := m db [].

(** [.maybeSingle()]: no row is [null], several rows are an error. *)
Definition maybeSingle {A} (rows : list A) : Result (option A) :=
  match rows with
  | [] => Ok None
  | [r] => Ok (Some r)
  | _ => Err "JSON object requested, multiple (or no) rows returned"
  end.

Section Order.
Context `{Engine} {A : Type} (column : A -> option string).

(** [.order(column, { ascending: false })]: latest first, rows that tie
    in table order. *)
Fixpoint insert_desc (x : A) (l : list A) : list A :=
  match l with
  | [] => [x]
  | y :: l' => if ts_leb (column y) (column x) then x :: y :: l' else y :: insert_desc x l'
  end.

Fixpoint order_desc (l : list A) : list A :=
  match l with
  | [] => []
  | x :: l' => insert_desc x (order_desc l')
  end.
End Order.

(** [.limit(n)]. *)
Definition limit {A} (n : nat) (l : list A) : list A := firstn n l.

Definition env_missing (env : Env) : bool :=
  negb (Js.truthy (NEXT_PUBLIC_SUPABASE_URL env))
  || negb (Js.truthy (NEXT_PUBLIC_SUPABASE_ANON_KEY env))
  || negb (Js.truthy (SUPABASE_SERVICE_ROLE_KEY env)).

(** Step 1 of both handlers: the bearer token, [""] when there is none. *)
Definition bearerToken (req : Request) : string :=
  let authHeader := Js.nullish (Js.or_else (authorization req) (Some "")) "" in
  if Js.startsWith (Js.toLowerCase authHeader) "bearer "
  then Js.trim (Js.slice 7 authHeader)
  else "".

(** [memberships.map((m) => m.customer_id).filter(Boolean)]. *)
Definition customerIds (memberships : list AllowedUsers.row) : list string :=
  omap (fun m => if Js.truthy (AllowedUsers.customer_id m)
                 then AllowedUsers.customer_id m else None) memberships.

(** [from("allowed_users").select("customer_id").eq("email", email)]. *)
Definition selectMemberships (email : string) : Srv (Result (list AllowedUsers.row)) :=
  read (SelectMemberships email)
    (fun db => Ok (List.filter (fun m => String.eqb (AllowedUsers.email m) email)
                     (allowed_users db))).

End Supabase.

Notation "'await' x := m 'in' k" := (Supabase.bind m (fun x => k))
  (at level 10, x name, m at level 100, k at level 200).

(** ** The list endpoint: [src/app/api/shipments/route.ts] *)

Module ListRoute.
Import Supabase.

Record Payload := { data : list ShipmentsPage.Shipment; email : string }.

(** [customerIds.map((id) => `customer_id.ilike.${id}`).join(",")]. *)
Definition orConditions (customerIds : list string) : string :=
  Js.join "," (List.map (fun id => "customer_id.ilike." ++ id) customerIds).

(** [{ ...shipment, latest_event_code }] over the ten selected columns
    (the select list leaves [customer_id] out). *)
Definition withStatus (shipment : Shipments.row) (latest_event_code : option string)
  : ShipmentsPage.Shipment :=
  {| ShipmentsPage.shipment_id := Shipments.shipment_id shipment;
     ShipmentsPage.hawb := Shipments.hawb shipment;
     ShipmentsPage.mawb := Shipments.mawb shipment;
     ShipmentsPage.po_number := Shipments.po_number shipment;
     ShipmentsPage.customer_reference := Shipments.customer_reference shipment;
     ShipmentsPage.origin := Shipments.origin shipment;
     ShipmentsPage.destination := Shipments.destination shipment;
     ShipmentsPage.current_status := Shipments.current_status shipment;
     ShipmentsPage.eta_updated := Shipments.eta_updated shipment;
     ShipmentsPage.last_event_time := Shipments.last_event_time shipment;
     ShipmentsPage.latest_event_code := latest_event_code |}.

(** [const { data: latestEvent } = await ...]: the error is not bound, and
    [data] is [null] when there is one. *)
Definition data_only {A} (r : Result (option A)) : option A :=
  match r with
  | Ok d => d
  | Err _ => None
  end.

(** [latestEvent?.event_code || null]. *)
Definition latestEventCode (latestEvent : option Events.row) : option string :=
  Js.or_else (latestEvent ≫= Events.event_code) None.

Section Handler.
Context `{Engine}.

(** [from("shipments").select(...).or(orConditions)
      .order("last_event_time", { ascending: false }).limit(300)]. *)
Definition matching (orConditions : string) (db : Project) : list Shipments.row :=
  List.filter (fun r => or_filter orConditions (Shipments.customer_id r)) (shipments db).

Definition selectShipments (orConditions : string) : Srv (Result (list Shipments.row)) :=
  read (SelectShipments orConditions)
    (fun db => Ok (limit 300 (order_desc Shipments.last_event_time (matching orConditions db)))).

(** [from("events").select("event_code").eq("shipment_id", id)
      .order("event_time", { ascending: false }).limit(1).maybeSingle()]. *)
Definition eventsOf (shipment_id : string) (db : Project) : list Events.row :=
  List.filter (fun e => String.eqb (Events.shipment_id e) shipment_id) (events db).

Definition selectLatestEvent (shipment_id : string) : Srv (Result (option Events.row)) :=
  read (SelectLatestEvent shipment_id)
    (fun db => maybeSingle (limit 1 (order_desc Events.event_time (eventsOf shipment_id db)))).

Definition annotate (shipment : Shipments.row) : Srv ShipmentsPage.Shipment :=
  await latestEvent := selectLatestEvent (Shipments.shipment_id shipment) in
  ret (withStatus shipment (latestEventCode (data_only latestEvent))).

(** Step 3 of the handler, for the verified [user.email]: the allow-list
    and the shipments. *)
Definition listFor (user_email : string) : Srv (Response Payload) :=
  await memberships := selectMemberships user_email in
  match memberships with
  | Err message => ret (fail message 500)
  | Ok memberships =>
      if (length memberships =? 0)%nat
      then ret (json {| data := []; email := user_email |})
      else
        let customerIds := customerIds memberships in
        if (length customerIds =? 0)%nat
        then ret (json {| data := []; email := user_email |})
        else
          await shipments := selectShipments (orConditions customerIds) in
          match shipments with
          | Err message => ret (fail message 500)
          | Ok shipments =>
              await shipmentsWithStatus := all annotate shipments in
              ret (json {| data := shipmentsWithStatus; email := user_email |})
          end
  end.

(** The handler: the environment, then steps 1 (bearer token) and 2
    (the token verified into a user), then step 3. *)
Definition GET (env : Env) (req : Request) : Srv (Response Payload) :=
  if env_missing env then ret (fail "Server env missing" 500)
  else
    let token := bearerToken req in
    if negb (Js.truthy (Some token)) then ret (fail "Unauthorized" 401)
    else
      await db := ask in
      match getUser db token with
      | Err _ => ret (fail "Unauthorized" 401)
      | Ok user =>
          if negb (Js.truthy (Supabase.email user)) then ret (fail "Unauthorized" 401)
          else listFor (Js.nullish (Supabase.email user) "")
      end.
End Handler.

End ListRoute.

(** ** The detail endpoint: the [GET] handler with a [shipment_id] parameter *)

Module DetailRoute.
Import Supabase.

Record Payload := { shipment : Shipments.row; events : list DetailPage.EventRow }.

(** [select("event_time, event_code, notes, location, source_column")]. *)
Definition selected (e : Events.row) : DetailPage.EventRow :=
  {| DetailPage.event_time := Events.event_time e;
     DetailPage.event_code := Events.event_code e;
     DetailPage.notes := Events.notes e;
     DetailPage.location := Events.location e;
     DetailPage.source_column := Events.source_column e |}.

(** [customerIds.some((id) => id.toLowerCase() === shipment.customer_id?.toLowerCase())]. *)
Definition hasAccess (customerIds : list string) (shipment : Shipments.row) : bool :=
  existsb (fun id => Js.strict_eq (Some (Js.toLowerCase id))
                       (Js.toLowerCase <$> Shipments.customer_id shipment))
    customerIds.

(** [from("shipments").select(...).eq("shipment_id", shipmentId).maybeSingle()]. *)
Definition selectShipment (shipmentId : string) : Srv (Result (option Shipments.row)) :=
  read (SelectShipment shipmentId)
    (fun db => maybeSingle
                 (List.filter (fun r => String.eqb (Shipments.shipment_id r) shipmentId)
                    (shipments db))).

Section Handler.
Context `{Engine}.

(** [from("events").select(...).eq("shipment_id", shipmentId)
      .order("event_time", { ascending: false })]. *)
Definition selectEvents (shipmentId : string) : Srv (Result (list DetailPage.EventRow)) :=
  read (SelectEvents shipmentId)
    (fun db => Ok (List.map selected
                     (order_desc Events.event_time
                        (List.filter (fun e => String.eqb (Events.shipment_id e) shipmentId)
                           (Supabase.events db))))).

(** Step 3 of the handler, for the verified [user.email]: the allow-list,
    the shipment, the ownership check and the events. *)
Definition detailFor (user_email shipmentId : string) : Srv (Response Payload) :=
  await memberships := selectMemberships user_email in
  match memberships with
  | Err message => ret (fail message 500)
  | Ok memberships =>
      if (length memberships =? 0)%nat
      then ret (fail "No customer access" 403)
      else
        let customerIds := customerIds memberships in
        await shipment := selectShipment shipmentId in
        match shipment with
        | Err message => ret (fail message 500)
        | Ok None => ret (fail "Shipment not found" 404)
        | Ok (Some shipment) =>
            if negb (hasAccess customerIds shipment)
            then ret (fail "You don't have access to this shipment" 403)
            else
              await events := selectEvents shipmentId in
              match events with
              | Err message => ret (fail message 500)
              | Ok events => ret (json {| shipment := shipment; events := events |})
              end
        end
  end.

Definition GET (env : Env) (req : Request) (shipmentId : string) : Srv (Response Payload) :=
  if env_missing env then ret (fail "Server env missing" 500)
  else
    let token := bearerToken req in
    if negb (Js.truthy (Some token)) then ret (fail "Unauthorized" 401)
    else
      await db := ask in
      match getUser db token with
      | Err _ => ret (fail "Unauthorized" 401)
      | Ok user =>
          if negb (Js.truthy (Supabase.email user)) then ret (fail "Unauthorized" 401)
          else detailFor (Js.nullish (Supabase.email user) "") shipmentId
      end.
End Handler.

End DetailRoute.

(** ** What the handlers rely on from the datastore *)

Module Contract.
Import Supabase.

(** Characters with a meaning of their own in a LIKE pattern ([%], [_],
    the escape [\], and the [*] PostgREST rewrites to [%]) or in the
    grammar of a PostgREST filter ([,], [.], [:], the parentheses and the
    double quote). A scope is plain when it has none of them. *)
Definition reserved (c : ascii) : bool :=
  existsb (Ascii.eqb c) ["%"; "_"; "\"; "*"; ","; "."; ":"; "("; ")"; "034"]%char.

Fixpoint plain (s : string) : bool :=
  match s with
  | EmptyString => true
  | String c s' => negb (reserved c) && plain s'
  end.

(** Equality up to letter case. *)
Definition same_scope (s t : string) : bool :=
  String.eqb (Js.toLowerCase s) (Js.toLowerCase t).

(** The filter the list endpoint builds from plain scopes selects the rows
    whose [customer_id] is one of them up to letter case; NULL matches
    nothing. *)
Definition ilike_plain `{Engine} : Prop :=
  ∀ (ids : list string) (customer_id : option string),
    ids ≠ [] →
    forallb plain ids = true →
    or_filter (ListRoute.orConditions ids) customer_id
    = match customer_id with
      | Some t => existsb (fun id => same_scope id t) ids
      | None => false
      end.

(** The order of a timestamp column is a total preorder. *)
Definition ts_total `{Engine} : Prop :=
  ∀ a b, ts_leb a b = true ∨ ts_leb b a = true.

Definition ts_trans `{Engine} : Prop :=
  ∀ a b c, ts_leb a b = true → ts_leb b c = true → ts_leb a c = true.

End Contract.

(** ** A reference datastore: PostgreSQL behind PostgREST *)

Module Postgres.
Import Supabase.

(** [text LIKE pattern]: [%] (written [*] in a PostgREST filter) stands
    for any run of characters, [_] for any one character, and [\] makes the
    next character literal. A pattern that ends in the escape character,
    which PostgreSQL rejects, matches nothing here. *)
Fixpoint like (pattern text : string) : bool :=
  match pattern with
  | EmptyString => String.eqb text ""
  | String c p' =>
      if Ascii.eqb c "%" || Ascii.eqb c "*" then
        (fix any (t : string) : bool :=
           like p' t || match t with
                        | EmptyString => false
                        | String _ t' => any t'
                        end) text
      else if Ascii.eqb c "_" then
        match text with
        | EmptyString => false
        | String _ t' => like p' t'
        end
      else if Ascii.eqb c "\" then
        match p', text with
        | String d p'', String e t' => Ascii.eqb d e && like p'' t'
        | _, _ => false
        end
      else
        match text with
        | EmptyString => false
        | String e t' => Ascii.eqb c e && like p' t'
        end
  end.

Definition ilike (pattern text : string) : bool :=
  like (Js.toLowerCase pattern) (Js.toLowerCase text).

(** The conditions of an [or=(...)] filter, separated by commas. *)
Fixpoint split_commas (s : string) : list string :=
  match s with
  | EmptyString => [""]
  | String c s' =>
      if Ascii.eqb c "," then "" :: split_commas s'
      else match split_commas s' with
           | [] => [String c ""]
           | x :: l => String c x :: l
           end
  end.

(** No comma, so no separator of conditions, occurs in the text. *)
Fixpoint comma_free (s : string) : bool :=
  match s with
  | EmptyString => true
  | String c s' => negb (Ascii.eqb c ",") && comma_free s'
  end.

Fixpoint strip_prefix (p s : string) : option string :=
  match p, s with
  | EmptyString, _ => Some s
  | String _ _, EmptyString => None
  | String a p', String b s' => if Ascii.eqb a b then strip_prefix p' s' else None
  end.

(** One condition [customer_id.ilike.<pattern>] on a [customer_id]. *)
Definition condition (customer_id : option string) (cond : string) : bool :=
  match strip_prefix "customer_id.ilike." cond, customer_id with
  | Some pattern, Some t => ilike pattern t
  | _, _ => false
  end.

(** Ascending order of a timestamp column: ISO-8601 text in one zone
    compares as text does, and NULL sorts as larger than every value. *)
Definition leb (a b : option string) : bool :=
  match a, b with
  | _, None => true
  | None, Some _ => false
  | Some x, Some y => String.leb x y
  end.

#[global] Instance engine : Engine := {|
  or_filter filter customer_id := existsb (condition customer_id) (split_commas filter);
  ts_leb := leb;
|}.

End Postgres.

(** ** The status rules as the specification words them *)

Module StatusSpec.
Import ShipmentsPage.

(** Step 1: the event code, uppercased and trimmed. *)
Definition eventCode (latest_event_code : option string) : string :=
  Js.trim (Js.toUpperCase (Js.nullish latest_event_code "")).

(** Step 2: the ordered event-code rules, first match wins. *)
Definition eventRule (code : string) : option DerivedStatus :=
  if Js.includes code "DELIVERED" || String.eqb code "DEL" then Some Delivered
  else if Js.includes code "CUSTOMS_RELEASED" || String.eqb code "CUS"
          || Js.includes code "CLEARED" then Some CustomsReleased
  else if Js.includes code "DISCHARGED" || String.eqb code "DIS" then Some Discharged
  else if Js.includes code "ATD" || Js.includes code "DEPARTED" then Some InTransit
  else if Js.includes code "BOOKED" || Js.includes code "READY"
          || Js.includes code "DOCS_RECEIVED" || Js.includes code "CARGO_RECEIVED"
  then Some PreDeparture
  else None.

(** Step 3: the raw status text, lowercased and trimmed, and its substring
    rules in the same relative order. *)
Definition rawText (current_status : option string) : string :=
  Js.trim (Js.toLowerCase (Js.nullish current_status "")).

Definition rawRule (raw : string) : option DerivedStatus :=
  if Js.includes raw "deliver" then Some Delivered
  else if Js.includes raw "custom" && (Js.includes raw "release" || Js.includes raw "cleared")
  then Some CustomsReleased
  else if Js.includes raw "discharg" then Some Discharged
  else if Js.includes raw "transit" then Some InTransit
  else if Js.includes raw "pre" || Js.includes raw "booked" || Js.includes raw "ready"
  then Some PreDeparture
  else None.

(** Steps 2 to 4: the event code decides when a rule matches it, the raw
    status is consulted otherwise, and In Transit is the default. *)
Definition canonical (latest_event_code current_status : option string) : DerivedStatus :=
  match eventRule (eventCode latest_event_code) with
  | Some d => d
  | None =>
      match rawRule (rawText current_status) with
      | Some d => d
      | None => InTransit
      end
  end.

Definition labels : list string :=
  ["Delivered"; "Customs Released"; "Discharged"; "In Transit"; "Pre-Departure"].

(** A shipment that has only the two fields the derivation reads. *)
Definition shipmentWith (latest_event_code current_status : option string) : Shipment :=
  {| shipment_id := "S"; hawb := None; mawb := None; po_number := None;
     customer_reference := None; origin := None; destination := None;
     current_status := current_status; eta_updated := None; last_event_time := None;
     latest_event_code := latest_event_code |}.

(** The same shipment with another raw status text. *)
Definition withCurrentStatus (s : Shipment) (v : option string) : Shipment :=
  {| shipment_id := shipment_id s; hawb := hawb s; mawb := mawb s;
     po_number := po_number s; customer_reference := customer_reference s;
     origin := origin s; destination := destination s;
     current_status := v; eta_updated := eta_updated s;
     last_event_time := last_event_time s;
     latest_event_code := latest_event_code s |}.

End StatusSpec.

(** ** Furthest progress as the specification words it *)

Module MilestoneSpec.
Import DetailPage.

(** Some code of milestone [i] is in the set of codes present. *)
Definition reachedAt (codes : gset string) (i : nat) : bool :=
  match MILESTONES !! i with
  | Some m => reached codes m
  | None => false
  end.

(** Milestone [i] is keyed by the normalized code of the event [e]. *)
Definition ordinalOf (e : EventRow) (i : nat) : bool :=
  match MILESTONES !! i with
  | Some m => Js.truthy (Some (normalized e)) && existsb (String.eqb (normalized e)) (codes m)
  | None => false
  end.

Definition event (code : option string) : EventRow :=
  {| event_time := None; event_code := code; notes := None; location := None;
     source_column := None |}.

(** The eight milestones in order, each with the event code that keys it. *)
Definition stages : list (string * string) :=
  [("Booked", "BOOKED"); ("Ready", "READY"); ("Docs Received", "DOCS_RECEIVED");
   ("Cargo Received", "CARGO_RECEIVED"); ("Departed", "ATD"); ("Discharged", "DISCHARGED");
   ("Customs Released", "CUSTOMS_RELEASED"); ("Delivered", "DELIVERED")].

(** An event code as it is compared: an absent one is empty, and the text
    is uppercased, then trimmed. *)
Definition uppercasedTrimmed (code : option string) : string :=
  Js.trim (Js.toUpperCase (Js.nullish code "")).

(** Some event of the list carries the code, once uppercased and trimmed. *)
Definition present (events : list EventRow) (c : string) : bool :=
  existsb (fun e => String.eqb (uppercasedTrimmed (event_code e)) c) events.

(** The code of stage [i] is present among the events. *)
Definition stageReached (events : list EventRow) (i : nat) : bool :=
  match stages !! i with
  | Some (_, c) => present events c
  | None => false
  end.

(** Stage [i] is the milestone ordinal of an event code. *)
Definition stageOf (code : option string) (i : nat) : bool :=
  match stages !! i with
  | Some (_, c) => String.eqb (uppercasedTrimmed code) c
  | None => false
  end.

End MilestoneSpec.

(** ** The sort keys as the specification words them *)

Module SortSpec.
Import ShipmentsPage.

(** A sort key is a date key, read from a nullable timestamp text, or a
    text key. *)
Inductive Column :=
| DateColumn (value : Shipment → option string)
| TextColumn (value : Shipment → string).

Definition columnOf (sortKey : SortKey) : Column :=
  match sortKey with
  | reference => TextColumn getReference
  | route => TextColumn getRoute
  | status => TextColumn (fun s => label (deriveStatus s))
  | key_eta_updated => DateColumn eta_updated
  | key_last_event_time => DateColumn last_event_time
  end.

(** The row has no usable value under the key: its date is absent or does
    not parse. *)
Definition undated (dateTime : string → option Z) (sortKey : SortKey) (s : Shipment) : bool :=
  isNaN (sortValue dateTime sortKey s).

(** No undated row stands before a dated one. *)
Definition undated_last (dateTime : string → option Z) (sortKey : SortKey)
    (l : list Shipment) : Prop :=
  StronglySorted
    (fun a b => undated dateTime sortKey a = true → undated dateTime sortKey b = true) l.

(** A collation that agrees with the lexicographic order of the characters. *)
Definition lexicographic (collate : string → string → Z) : Prop :=
  ∀ x y, match String.compare x y with
         | Lt => (collate x y < 0)%Z
         | Eq => collate x y = 0%Z
         | Gt => (0 < collate x y)%Z
         end.

(** A host for examples: a date is a decimal count of milliseconds, and
    strings collate lexicographically. *)
Definition decimalTime (v : string) : option Z :=
  Z.of_uint <$> NilZero.uint_of_string v.

Definition lexCompare (x y : string) : Z :=
  match String.compare x y with
  | Lt => -1
  | Eq => 0
  | Gt => 1
  end.

Definition row (id : string) (eta : option string) : Shipment :=
  {| shipment_id := id; hawb := None; mawb := None; po_number := None;
     customer_reference := None; origin := None; destination := None;
     current_status := None; eta_updated := eta; last_event_time := None;
     latest_event_code := None |}.

End SortSpec.

(** ** Callers, memberships and sample data *)

Module Access.
Import Supabase.

(** The request passes steps 1 and 2 of a handler: the environment is
    complete, the header carries a bearer token, and the identity provider
    resolves the token to a user with this non-empty email. *)
Definition authenticated (env : Env) (db : Project) (req : Request) (user_email : string)
  : Prop :=
  env_missing env = false
  ∧ Js.truthy (Some (bearerToken req)) = true
  ∧ getUser db (bearerToken req) = Ok {| email := Some user_email |}
  ∧ Js.truthy (Some user_email) = true.

(** The membership rows of a user, and the shipments with an identifier. *)
Definition membershipsOf (db : Project) (user_email : string) : list AllowedUsers.row :=
  List.filter (fun m => String.eqb (AllowedUsers.email m) user_email) (allowed_users db).

Definition shipmentsWithId (db : Project) (shipmentId : string) : list Shipments.row :=
  List.filter (fun r => String.eqb (Shipments.shipment_id r) shipmentId) (shipments db).

(** A membership row grants a shipment row: its scope is not empty and
    equals the owning scope of the shipment up to letter case. *)
Definition grants (m : AllowedUsers.row) (r : Shipments.row) : Prop :=
  ∃ s t, AllowedUsers.customer_id m = Some s ∧ s ≠ ""
         ∧ Shipments.customer_id r = Some t ∧ Contract.same_scope s t = true.

(** What the latest-event read of the list endpoint resolves to for a
    shipment identifier, and the [latest_event_code] the handler derives. *)
Definition latestEventOf `{Engine} (db : Project) (shipment_id : string)
  : Result (option Events.row) :=
  match outage db (SelectLatestEvent shipment_id) with
  | Some message => Err message
  | None => maybeSingle (limit 1 (order_desc Events.event_time
                                    (ListRoute.eventsOf shipment_id db)))
  end.

Definition annotated `{Engine} (db : Project) (r : Shipments.row) : ShipmentsPage.Shipment :=
  ListRoute.withStatus r
    (ListRoute.latestEventCode
       (ListRoute.data_only (latestEventOf db (Shipments.shipment_id r)))).

(** The scopes of a user and the shipments the filter built from them
    selects. *)
Definition scopesOf (db : Project) (user_email : string) : list string :=
  customerIds (membershipsOf db user_email).

Definition matchedFor `{Engine} (db : Project) (user_email : string) : list Shipments.row :=
  ListRoute.matching (ListRoute.orConditions (scopesOf db user_email)) db.

(** Latest first, in the order of the datastore. *)
Definition descending `{Engine} {A} (column : A → option string) (l : list A) : Prop :=
  StronglySorted (fun a b => ts_leb (column b) (column a) = true) l.

End Access.

Module Sample.
Import Supabase.

Definition env : Env :=
  {| NEXT_PUBLIC_SUPABASE_URL := Some "https://portal.supabase.co";
     NEXT_PUBLIC_SUPABASE_ANON_KEY := Some "anon-key";
     SUPABASE_SERVICE_ROLE_KEY := Some "service-key" |}.

Definition request : Request := {| authorization := Some "Bearer token-ann" |}.

Definition idp (token : string) : Result User :=
  if String.eqb token "token-ann" then Ok {| email := Some "ann@example.com" |}
  else Err "invalid JWT".

Definition member (customer_id : option string) : AllowedUsers.row :=
  {| AllowedUsers.email := "ann@example.com"; AllowedUsers.customer_id := customer_id |}.

Definition shipment (id : string) (customer_id last_event_time : option string)
  : Shipments.row :=
  {| Shipments.shipment_id := id; Shipments.hawb := None; Shipments.mawb := None;
     Shipments.po_number := None; Shipments.customer_reference := None;
     Shipments.origin := Some "HKG"; Shipments.destination := Some "LAX";
     Shipments.current_status := Some "In Transit"; Shipments.eta_updated := None;
     Shipments.last_event_time := last_event_time;
     Shipments.customer_id := customer_id |}.

Definition event (shipment_id : string) (event_time event_code : option string) : Events.row :=
  {| Events.shipment_id := shipment_id; Events.event_time := event_time;
     Events.event_code := event_code; Events.notes := None; Events.location := None;
     Events.source_column := None |}.

Definition no_outage (q : Query) : option string := None.

(** One shipment of customer "acme" with two events. *)
Definition acme_shipments : list Shipments.row :=
  [shipment "S1" (Some "acme") (Some "2024-05-02T10:00:00Z")].

Definition acme_events : list Events.row :=
  [event "S1" (Some "2024-05-01T08:00:00Z") (Some "BOOKED");
   event "S1" (Some "2024-05-02T10:00:00Z") (Some "ATD")].

(** Ann is authenticated and has no membership row. *)
Definition stranger : Project :=
  {| getUser := idp; allowed_users := []; shipments := acme_shipments;
     events := acme_events; outage := no_outage |}.

(** Ann is a member of "ACME". *)
Definition member_of_acme : Project :=
  {| getUser := idp; allowed_users := [member (Some "ACME")]; shipments := acme_shipments;
     events := acme_events; outage := no_outage |}.

(** The same, while the latest-event read of shipment S1 fails. *)
Definition events_down : Project :=
  {| getUser := idp; allowed_users := [member (Some "ACME")]; shipments := acme_shipments;
     events := acme_events;
     outage q := match q with
                 | SelectLatestEvent _ => Some "connection reset"
                 | _ => None
                 end |}.

(** Ann is a member of "ACME", and the only shipment has no owner. *)
Definition unowned : Project :=
  {| getUser := idp; allowed_users := [member (Some "ACME")];
     shipments := [shipment "S9" None None]; events := []; outage := no_outage |}.

Definition numbered (prefix : string) (n : nat) : string :=
  (prefix ++ NilZero.string_of_uint (Nat.to_uint n))%string.

(** Ann is a member of "ACME", which owns 301 shipments, one event each. *)
Definition busy : Project :=
  {| getUser := idp; allowed_users := [member (Some "ACME")];
     shipments := List.map (fun n => shipment (numbered "S" n) (Some "acme")
                                       (Some (numbered "2024-05-02T10:00:00." n)))
                    (seq 0 301);
     events := List.map (fun n => event (numbered "S" n)
                                    (Some (numbered "2024-05-02T10:00:00." n)) (Some "ATD"))
                 (seq 0 301);
     outage := no_outage |}.

End Sample.

(** ** The list page component: sort control and loading *)

Module ShipmentsView.
Import ShipmentsPage.

#[global] Instance SortKey_eq_dec : EqDecision SortKey.
Proof. solve_decision. Defined.

(** The two pieces of state [sortKey] and [sortDir], initially
    ["last_event_time"] and ["desc"]. *)
Record SortState := { sortKey : SortKey; sortDir : SortDir }.

Definition initialSort : SortState :=
  {| sortKey := key_last_event_time; sortDir := desc |}.

Definition toggleSort (nextKey : SortKey) (st : SortState) : SortState :=
  if bool_decide (nextKey = sortKey st)
  then {| sortKey := sortKey st;
          sortDir := match sortDir st with asc => desc | desc => asc end |}
  else {| sortKey := nextKey;
          sortDir := match nextKey with
                     | reference | route | status => asc
                     | _ => desc
                     end |}.

(** [data.session] of [supabase.auth.getSession()]. *)
Record Session := { access_token : string }.

(** What the effect of the page leaves: a redirection, or the rows and the
    email put in the state. *)
Inductive View :=
| Redirected (href : string)
| Shown (rows : list Shipment) (email : string).

(** The effect that loads the list: [fetch("/api/shipments")] is the
    function [api] from the request to the response. An error body has no
    [data] and no [email]. A [fetch] that throws, which the effect catches
    and logs, is left out: [api] always answers. *)
Definition load (session : option Session)
    (api : Supabase.Request → Supabase.Response ListRoute.Payload) : View :=
  match session with
  | None => Redirected "/login"
  | Some session =>
      let res := api {| Supabase.authorization := Some ("Bearer " ++ access_token session) |} in
      if (Supabase.status res =? 401)%nat then Redirected "/login"
      else match Supabase.body res with
           | Supabase.Json json => Shown (ListRoute.data json) (ListRoute.email json)
           | Supabase.Error _ => Shown [] ""
           end
  end.

End ShipmentsView.

(** ** The detail page component: progress bar, heading and loading *)

Module DetailView.
Import DetailPage.

(** A milestone dot of [ProgressBar]: [done], [current], or neither. *)
Inductive Dot := Done | Current | Pending.

Definition dot (idx currentIndex : nat) : Dot :=
  if (idx <? currentIndex)%nat then Done
  else if (idx =? currentIndex)%nat then Current
  else Pending.

(** The bar after a dot: none after the last dot, filled below the
    current index. *)
Definition connector (idx currentIndex : nat) : option bool :=
  if negb (idx =? length MILESTONES - 1)%nat then Some (idx <? currentIndex)%nat else None.

(** The label under a dot is emphasised at the current index. *)
Definition emphasised (idx currentIndex : nat) : bool := (idx =? currentIndex)%nat.

(** [MILESTONES.map((m, idx) => ...)], twice: the dots with their
    connectors, then the labels. *)
Definition ProgressBar (currentIndex : nat) : list (Dot * option bool) * list (string * bool) :=
  (imap (fun idx _ => (dot idx currentIndex, connector idx currentIndex)) MILESTONES,
   imap (fun idx m => (label m, emphasised idx currentIndex)) MILESTONES).

(** The heading of the page: the identifier of the URL until the shipment
    is loaded. *)
Definition reference (shipment : option Shipments.row) (shipmentId : string) : string :=
  match shipment with
  | None => shipmentId
  | Some shipment =>
      Js.nullish
        (Js.or_else
           (Js.or_else (Js.or_else (Shipments.hawb shipment) (Shipments.mawb shipment))
              (Shipments.po_number shipment))
           (Some (Shipments.shipment_id shipment)))
        ""
  end.

(** What the effect of the page leaves: a redirection, an error message,
    or the shipment (absent when the body has none) and its events. *)
Inductive View :=
| Redirected (href : string)
| Failed (error : string)
| Shown (shipment : option Shipments.row) (events : list EventRow).

(** [res.ok]: a status from 200 to 299. *)
Definition ok {A} (res : Supabase.Response A) : bool :=
  ((200 <=? Supabase.status res) && (Supabase.status res <=? 299))%nat.

(** [json.error], [json.shipment] and [json.events] of a body. *)
Definition error_of (body : Supabase.Body DetailRoute.Payload) : option string :=
  match body with
  | Supabase.Error error => Some error
  | Supabase.Json _ => None
  end.

Definition shipment_of (body : Supabase.Body DetailRoute.Payload) : option Shipments.row :=
  match body with
  | Supabase.Json json => Some (DetailRoute.shipment json)
  | Supabase.Error _ => None
  end.

Definition events_of (body : Supabase.Body DetailRoute.Payload) : option (list EventRow) :=
  match body with
  | Supabase.Json json => Some (DetailRoute.events json)
  | Supabase.Error _ => None
  end.

(** The effect that loads the shipment through
    [fetch(`/api/shipments/${shipmentId}`)], the function [api], which
    always answers as for the list page. *)
Definition load (session : option ShipmentsView.Session)
    (api : Supabase.Request → Supabase.Response DetailRoute.Payload) : View :=
  match session with
  | None => Redirected "/login"
  | Some session =>
      let res := api {| Supabase.authorization :=
                          Some ("Bearer " ++ ShipmentsView.access_token session) |} in
      if (Supabase.status res =? 401)%nat then Redirected "/login"
      else if negb (ok res)
      then Failed (Js.nullish
                     (Js.or_else (error_of (Supabase.body res)) (Some "Unable to load shipment"))
                     "")
      else Shown (shipment_of (Supabase.body res))
             (default [] (events_of (Supabase.body res)))
  end.

End DetailView.

(** ** The sign-in callback page, carried after the detail page in the
    source tree *)

Module AuthCallback.

(** The text [parseHashParams] hands to [URLSearchParams]:
    [window.location.hash] without its leading [#]. *)
Definition hashText (hash : string) : string :=
  if Js.startsWith hash "#" then Js.slice 1 hash
  else Js.nullish (Js.or_else (Some hash) (Some "")) "".

(** An awaited call returns or throws. *)
Inductive Called (A : Type) :=
| Returned (a : A)
| Thrown.
Arguments Returned {A} a.
Arguments Thrown {A}.

(** The calls made on [supabase.auth]. *)
Inductive Call :=
| ExchangeCodeForSession (code : string)
| SetSession (access_token refresh_token : string)
| GetSession.

(** Where the handler sends the browser, whether it rewrote the URL with
    [history.replaceState], the calls it made and the state of the auth client
    it leaves. *)
Record Outcome (Store : Type) := {
  href : string;
  cleaned : bool;
  calls : list Call;
  store : Store;
}.
Arguments href {Store} _.
Arguments cleaned {Store} _.
Arguments calls {Store} _.
Arguments store {Store} _.

(** [supabase.auth] over a state of its own: the [error] of the two calls
    that set a session, and the [data.session] of [getSession]. *)
Record Auth (Store : Type) := {
  exchangeCodeForSession : string → Store → Called (option string) * Store;
  setSession : string → string → Store → Called (option string) * Store;
  getSession : Store → Called (option ShipmentsView.Session) * Store;
}.
Arguments exchangeCodeForSession {Store} _.
Arguments setSession {Store} _.
Arguments getSession {Store} _.

Section Handler.
Context {Store : Type} (auth : Auth Store).

(** [new URLSearchParams(text).get(key)], of the browser. *)
Variable searchParams : string → string → option string.

Definition replace (target : string) (cleaned : bool) (calls : list Call) (st : Store)
  : Outcome Store :=
  {| href := target; cleaned := cleaned; calls := calls; store := st |}.

(** The final session check. *)
Definition finalCheck (cleaned : bool) (calls : list Call) (st : Store) : Outcome Store :=
  match getSession auth st with
  | (Returned (Some _), st') => replace "/shipments" cleaned (calls ++ [GetSession]) st'
  | (Returned None, st') => replace "/login" cleaned (calls ++ [GetSession]) st'
  | (Thrown, st') => replace "/login" cleaned (calls ++ [GetSession]) st'
  end.

(** The implicit flow, from the parameters of the hash on. *)
Definition hashFlow (hash : string) (calls : list Call) (st : Store) : Outcome Store :=
  let hp := searchParams (hashText hash) in
  if Js.truthy (hp "error") then
    match getSession auth st with
    | (Returned (Some _), st') => replace "/shipments" false (calls ++ [GetSession]) st'
    | (Returned None, st') => replace "/login" false (calls ++ [GetSession]) st'
    | (Thrown, st') => replace "/login" false (calls ++ [GetSession]) st'
    end
  else
    let access_token := hp "access_token" in
    let refresh_token := hp "refresh_token" in
    if Js.truthy access_token && Js.truthy refresh_token then
      let a := Js.nullish access_token "" in
      let r := Js.nullish refresh_token "" in
      match setSession auth a r st with
      | (Returned (Some _), st') => replace "/login" false (calls ++ [SetSession a r]) st'
      | (Returned None, st') => finalCheck true (calls ++ [SetSession a r]) st'
      | (Thrown, st') => replace "/login" false (calls ++ [SetSession a r]) st'
      end
    else finalCheck false calls st.

(** The effect of [CallbackHandler]; [code] is [sp.get("code")]. A call
    that throws is caught and sends to the login page. *)
Definition CallbackHandler (code : option string) (hash : string) (st : Store)
  : Outcome Store :=
  if Js.truthy code then
    let c := Js.nullish code "" in
    match exchangeCodeForSession auth c st with
    | (Returned (Some _), st') => replace "/login" false [ExchangeCodeForSession c] st'
    | (Returned None, st') => hashFlow hash [ExchangeCodeForSession c] st'
    | (Thrown, st') => replace "/login" false [ExchangeCodeForSession c] st'
    end
  else hashFlow hash [] st.

End Handler.

End AuthCallback.

(** ** The two pages side by side *)

Module CrossPage.

(** The status the list page shows for the code of each milestone of the
    detail page. *)
Definition statusOfMilestone (i : nat) : ShipmentsPage.DerivedStatus :=
  match i with
  | 0 | 1 | 2 | 3 => ShipmentsPage.PreDeparture
  | 4 => ShipmentsPage.InTransit
  | 5 => ShipmentsPage.Discharged
  | 6 => ShipmentsPage.CustomsReleased
  | _ => ShipmentsPage.Delivered
  end.

(** The order a sort direction asks of two timestamps, and of two texts. *)
Definition inOrder (sortDir : ShipmentsPage.SortDir) (x y : Z) : Prop :=
  match sortDir with
  | ShipmentsPage.asc => (x ≤ y)%Z
  | ShipmentsPage.desc => (y ≤ x)%Z
  end.

Definition inTextOrder (sortDir : ShipmentsPage.SortDir) (x y : string) : Prop :=
  match sortDir with
  | ShipmentsPage.asc => String.leb x y = true
  | ShipmentsPage.desc => String.leb y x = true
  end.

(** Two dated rows in the order of the direction, an undated row never
    before a dated one. *)
Definition dateOrdered (dateTime : string → option Z) (sortDir : ShipmentsPage.SortDir)
    (value : ShipmentsPage.Shipment → option string) (a b : ShipmentsPage.Shipment) : Prop :=
  match ShipmentsPage.parseDateMs dateTime (value a),
        ShipmentsPage.parseDateMs dateTime (value b) with
  | Some x, Some y => inOrder sortDir x y
  | None, Some _ => False
  | _, None => True
  end.

(** Two rows in the order of the direction, by their lowercased texts. *)
Definition textOrdered (sortDir : ShipmentsPage.SortDir)
    (value : ShipmentsPage.Shipment → string) (a b : ShipmentsPage.Shipment) : Prop :=
  inTextOrder sortDir (Js.toLowerCase (value a)) (Js.toLowerCase (value b)).

(** The request a page sends for a session, and the two endpoints as the
    [fetch] of the pages sees them. *)
Definition requestOf (session : ShipmentsView.Session) : Supabase.Request :=
  {| Supabase.authorization := Some ("Bearer " ++ ShipmentsView.access_token session) |}.

Definition listApi `{Supabase.Engine} (env : Supabase.Env) (db : Supabase.Project)
  : Supabase.Request → Supabase.Response ListRoute.Payload :=
  fun req => fst (Supabase.run (ListRoute.GET env req) db).

Definition detailApi `{Supabase.Engine} (env : Supabase.Env) (db : Supabase.Project)
    (shipmentId : string) : Supabase.Request → Supabase.Response DetailRoute.Payload :=
  fun req => fst (Supabase.run (DetailRoute.GET env req shipmentId) db).

End CrossPage.

(** ** More sample data *)

Module Sample2.
Import Supabase.

(** A request without authorization header. *)
Definition anonymous : Request := {| authorization := None |}.

(** Ann's only membership row has a null scope. *)
Definition scopeless : Project :=
  {| getUser := Sample.idp; allowed_users := [Sample.member None];
     shipments := Sample.acme_shipments; events := Sample.acme_events;
     outage := Sample.no_outage |}.

(** Ann is a member of "ACME"; shipment S7 belongs to "globex". *)
Definition globex_shipment : Shipments.row :=
  Sample.shipment "S7" (Some "globex") (Some "2024-05-03T09:00:00Z").

Definition two_customers : Project :=
  {| getUser := Sample.idp; allowed_users := [Sample.member (Some "ACME")];
     shipments := Sample.acme_shipments ++ [globex_shipment];
     events := Sample.acme_events; outage := Sample.no_outage |}.

Definition acme_shipment : Shipments.row :=
  Sample.shipment "S1" (Some "acme") (Some "2024-05-02T10:00:00Z").

Definition ann : ShipmentsView.Session := {| ShipmentsView.access_token := "token-ann" |}.

(** An auth client whose state is the session it holds: the code "good"
    and every pair of tokens open a session. *)
Definition auth : AuthCallback.Auth (option ShipmentsView.Session) :=
  {| AuthCallback.exchangeCodeForSession code st :=
       if String.eqb code "good"
       then (AuthCallback.Returned None, Some {| ShipmentsView.access_token := code |})
       else (AuthCallback.Returned (Some "invalid grant"), st);
     AuthCallback.setSession access_token refresh_token st :=
       (AuthCallback.Returned None, Some {| ShipmentsView.access_token := access_token |});
     AuthCallback.getSession st := (AuthCallback.Returned st, st) |}.

(** No parameter in any hash. *)
Definition no_params (text key : string) : option string := None.

End Sample2.

(** ** Texts of ASCII characters *)

Module Text.

(** Every character of the text is an ASCII one. On such texts the case
    mappings and [trim] of [Js] are those of JavaScript; on other texts
    JavaScript also maps letters and trims spaces that [Js] leaves alone. *)
Fixpoint is_ascii (s : string) : bool :=
  match s with
  | EmptyString => true
  | String c s' => (nat_of_ascii c <? 128)%nat && is_ascii s'
  end.

End Text.

(** ** Points in time: the order of a timestamp column *)

Module Chronology.
Import Supabase.

(** Ascending order of a [timestamptz] column as PostgreSQL has it: by the
    instant the text denotes, NULL as larger than every value. An
    [order(column, { ascending: false })] without [nullsFirst] therefore
    puts the rows with a NULL first. *)
Definition leb (instant : string → Z) (a b : option string) : bool :=
  match a, b with
  | _, None => true
  | None, Some _ => false
  | Some x, Some y => (instant x <=? instant y)%Z
  end.

(** The datastore orders its timestamp columns so, [instant] being its
    reading of a timestamp. *)
Definition chronological `{Engine} (instant : string → Z) : Prop :=
  ∀ a b, ts_leb a b = leb instant a b.

(** [a] may stand before [b] in the descending order: a NULL before
    everything, a later instant before an earlier one. *)
Definition before (instant : string → Z) (a b : option string) : Prop :=
  match a, b with
  | None, _ => True
  | Some _, None => False
  | Some x, Some y => (instant y ≤ instant x)%Z
  end.

Definition nullsFirstLatest (instant : string → Z) {A} (column : A → option string)
    (l : list A) : Prop :=
  StronglySorted (fun a b => before instant (column a) (column b)) l.

(** The reference datastore with a reading of its timestamps. *)
Definition engine (instant : string → Z) : Engine :=
  {| or_filter := @or_filter Postgres.engine; ts_leb := leb instant |}.

(** A reading for examples: the decimal count of milliseconds. *)
Definition decimal (t : string) : Z := default 0%Z (SortSpec.decimalTime t).

End Chronology.

(** ** Collations of the host *)

Module Collation.
Import ShipmentsPage.

(** What every [localeCompare] provides: the signs of a total preorder. *)
Definition consistent (collate : string → string → Z) : Prop :=
  (∀ x y, (collate x y < 0)%Z ↔ (0 < collate y x)%Z)
  ∧ (∀ x y z, (collate x y ≤ 0)%Z → (collate y z ≤ 0)%Z → (collate x z ≤ 0)%Z).

(** Two rows in the order of the direction, by the collation of their
    lowercased texts. *)
Definition collated (collate : string → string → Z) (sortDir : SortDir)
    (value : Shipment → string) (a b : Shipment) : Prop :=
  (collate (Js.toLowerCase (value a)) (Js.toLowerCase (value b)) * dirMul sortDir ≤ 0)%Z.

(** A collation in the manner of the hosts' default one, where punctuation
    comes before the digits and the letters: the underscore weighs as the
    exclamation mark does. *)
Definition weight (c : ascii) : ascii :=
  if Ascii.eqb c "_" then "!"%char else c.

Definition punctuationFirst (x y : string) : Z :=
  SortSpec.lexCompare (Js.map_chars weight x) (Js.map_chars weight y).

End Collation.

(** ** Sample data with wildcards, instants and missing times *)

Module Sample3.
Import Supabase.

(** Ann's membership scope has the LIKE wildcard [_] in it, or is the
    wildcard [%] alone; "acme" owns S1 and "globex" owns S7. *)
Definition underscore : Project :=
  {| getUser := Sample.idp; allowed_users := [Sample.member (Some "A_ME")];
     shipments := Sample.acme_shipments ++ [Sample2.globex_shipment];
     events := Sample.acme_events; outage := Sample.no_outage |}.

Definition percent : Project :=
  {| getUser := Sample.idp; allowed_users := [Sample.member (Some "%")];
     shipments := Sample.acme_shipments ++ [Sample2.globex_shipment];
     events := Sample.acme_events; outage := Sample.no_outage |}.

(** A datastore that reads its timestamps as decimal counts. *)
Definition engine : Engine := Chronology.engine Chronology.decimal.

(** Shipment [n] of "acme", last heard of at instant [n]. *)
Definition dated (n : nat) : Shipments.row :=
  Sample.shipment (Sample.numbered "S" n) (Some "acme") (Some (Sample.numbered "" n)).

(** Ann is a member of "ACME", which owns the 301 shipments S1 to S301. *)
Definition all_dated : Project :=
  {| getUser := Sample.idp; allowed_users := [Sample.member (Some "ACME")];
     shipments := List.map dated (seq 1 301); events := []; outage := Sample.no_outage |}.

(** The same with 300 dated shipments, S1 to S300, and S0 that has no
    last-event time. *)
Definition one_undated : Project :=
  {| getUser := Sample.idp; allowed_users := [Sample.member (Some "ACME")];
     shipments := Sample.shipment "S0" (Some "acme") None :: List.map dated (seq 1 300);
     events := []; outage := Sample.no_outage |}.



End Sample3.

(** * Properties *)

Local Open Scope list_scope.
Local Open Scope nat_scope.

(** ** Text *)

Lemma is_space_lower_char c : Js.is_space (Js.lower_char c) = Js.is_space c.
Proof. destruct c as [[] [] [] [] [] [] [] []]; reflexivity. Qed.

Lemma trimStart_map_chars f s :
  (∀ c, Js.is_space (f c) = Js.is_space c) →
  Js.trimStart (Js.map_chars f s) = Js.map_chars f (Js.trimStart s).
Proof.
  intros Hf. induction s as [|c s IH]; simpl; [reflexivity|].
  rewrite Hf. destruct (Js.is_space c); [exact IH | reflexivity].
Qed.

Lemma trimEnd_map_chars f s :
  (∀ c, Js.is_space (f c) = Js.is_space c) →
  Js.trimEnd (Js.map_chars f s) = Js.map_chars f (Js.trimEnd s).
Proof.
  intros Hf. induction s as [|c s IH]; simpl; [reflexivity|].
  rewrite IH, Hf.
  destruct (Js.trimEnd s) as [|d t]; simpl; [|reflexivity].
  destruct (Js.is_space c); reflexivity.
Qed.

(** Trimming and lowercasing commute, so the order in which the source and
    the specification apply them to the raw status does not matter. *)
Lemma trim_toLowerCase s : Js.trim (Js.toLowerCase s) = Js.toLowerCase (Js.trim s).
Proof.
  unfold Js.trim, Js.toLowerCase.
  rewrite trimStart_map_chars, trimEnd_map_chars by apply is_space_lower_char.
  reflexivity.
Qed.

(** ** Status derivation *)

Lemma label_in_labels d : In (ShipmentsPage.label d) StatusSpec.labels.
Proof. destruct d; simpl; tauto. Qed.

Lemma deriveStatus_canonical s :
  ShipmentsPage.deriveStatus s
  = StatusSpec.canonical (ShipmentsPage.latest_event_code s) (ShipmentsPage.current_status s).
Proof.
  unfold ShipmentsPage.deriveStatus, StatusSpec.canonical, StatusSpec.eventRule,
    StatusSpec.rawRule, StatusSpec.rawText, StatusSpec.eventCode.
  rewrite trim_toLowerCase.
  repeat match goal with
         | |- context [if ?b then _ else _] => destruct b; try reflexivity
         end.
Qed.

(** C4. [deriveStatus] always returns one of the five labels; it is the
    specification's decision procedure: the ordered event-code rules first,
    the raw-status rules only when no event-code rule matched, In Transit when
    nothing matched. Hence a matching event code fixes the result whatever the
    raw status says, and DELIVERED over "In Transit" gives Delivered. *)
Theorem deriveStatus_total_event_code_first :
  (∀ s, In (ShipmentsPage.label (ShipmentsPage.deriveStatus s)) StatusSpec.labels)
  ∧ (∀ s, ShipmentsPage.deriveStatus s
          = match StatusSpec.eventRule (StatusSpec.eventCode (ShipmentsPage.latest_event_code s)) with
            | Some d => d
            | None =>
                match StatusSpec.rawRule (StatusSpec.rawText (ShipmentsPage.current_status s)) with
                | Some d => d
                | None => ShipmentsPage.InTransit
                end
            end)
  ∧ (∀ s raw,
       match StatusSpec.eventRule (StatusSpec.eventCode (ShipmentsPage.latest_event_code s)) with
       | Some d => ShipmentsPage.deriveStatus (StatusSpec.withCurrentStatus s raw) = d
       | None => True
       end)
  ∧ ShipmentsPage.deriveStatus (StatusSpec.shipmentWith (Some "DELIVERED") (Some "In Transit"))
    = ShipmentsPage.Delivered
  ∧ (∀ s,
       match StatusSpec.eventRule (StatusSpec.eventCode (ShipmentsPage.latest_event_code s)),
             StatusSpec.rawRule (StatusSpec.rawText (ShipmentsPage.current_status s)) with
       | None, None => ShipmentsPage.deriveStatus s = ShipmentsPage.InTransit
       | _, _ => True
       end).
Proof.
  repeat split.
  - intros s. apply label_in_labels.
  - intros s. apply deriveStatus_canonical.
  - intros s raw. rewrite deriveStatus_canonical. unfold StatusSpec.canonical. simpl.
    destruct (StatusSpec.eventRule _); [reflexivity | exact I].
  - intros s. rewrite deriveStatus_canonical. unfold StatusSpec.canonical.
    destruct (StatusSpec.eventRule _); [exact I|].
    destruct (StatusSpec.rawRule _); [exact I | reflexivity].
Qed.

(** ** Milestone index *)

Section Milestones.
Import DetailPage MilestoneSpec.

Lemma scan_step codes i :
  scan codes (S i) = if reachedAt codes i then i else scan codes i.
Proof. unfold reachedAt. simpl. destruct (MILESTONES !! i); reflexivity. Qed.

Lemma scan_bound codes n : scan codes n ≤ pred n.
Proof.
  induction n as [|n IH]; [reflexivity|].
  rewrite scan_step. destruct (reachedAt codes n); simpl; lia.
Qed.

(** The loop returns the largest reached index below its start. *)
Lemma scan_furthest codes n i :
  i < n → reachedAt codes i = true →
  i ≤ scan codes n ∧ reachedAt codes (scan codes n) = true.
Proof.
  induction n as [|n IH]; intros Hi Hr; [lia|].
  rewrite scan_step. destruct (reachedAt codes n) eqn:Hn.
  - split; [lia | exact Hn].
  - destruct (decide (i = n)) as [->|Hne]; [congruence|].
    apply IH; [lia | exact Hr].
Qed.

Lemma scan_none codes n :
  (∀ i, i < n → reachedAt codes i = false) → scan codes n = 0.
Proof.
  induction n as [|n IH]; intros Hnone; [reflexivity|].
  rewrite scan_step, (Hnone n) by lia. apply IH. intros i Hi. apply Hnone. lia.
Qed.

Lemma scan_reached_or_none codes n :
  reachedAt codes (scan codes n) = true
  ∨ (scan codes n = 0 ∧ ∀ i, i < n → reachedAt codes i = false).
Proof.
  induction n as [|n IH].
  - right. split; [reflexivity | intros i Hi; lia].
  - rewrite scan_step. destruct (reachedAt codes n) eqn:Hn; [left; exact Hn|].
    destruct IH as [IH|[Hz Hnone]]; [left; exact IH | right].
    split; [exact Hz|]. intros i Hi.
    destruct (decide (i = n)) as [->|Hne]; [exact Hn | apply Hnone; lia].
Qed.

Lemma reachedAt_range codes i : reachedAt codes i = true → i < length MILESTONES.
Proof.
  unfold reachedAt. destruct (MILESTONES !! i) eqn:Hl; [|discriminate].
  intros _. eapply lookup_lt_Some. exact Hl.
Qed.

(** The early return on an empty list agrees with the loop. *)
Lemma inferMilestoneIndex_scan events :
  inferMilestoneIndex events = scan (codeSet events) (length MILESTONES).
Proof. destruct events; [vm_compute|]; reflexivity. Qed.

Lemma codeSet_insert before e after :
  codeSet (before ++ e :: after)
  = (if Js.truthy (Some (normalized e)) then {[normalized e]} else ∅)
    ∪ codeSet (before ++ after).
Proof.
  unfold codeSet. rewrite !List.map_app, !List.filter_app, !list_to_set_app_L.
  cbn [List.map List.filter].
  destruct (Js.truthy (Some (normalized e))).
  - rewrite list_to_set_cons, !(assoc_L (∪)).
    f_equal. apply (comm_L (∪)).
  - rewrite (left_id_L ∅ (∪)). reflexivity.
Qed.

Lemma reached_union (c : string) codes m :
  reached ({[c]} ∪ codes) m
  = existsb (String.eqb c) (DetailPage.codes m) || reached codes m.
Proof.
  unfold reached. induction (DetailPage.codes m) as [|d l IH]; simpl; [reflexivity|].
  rewrite IH.
  assert (bool_decide (d ∈ ({[c]} ∪ codes : gset string))
          = String.eqb c d || bool_decide (d ∈ codes)) as ->.
  { destruct (String.eqb_spec c d) as [->|Hne]; simpl.
    - apply bool_decide_eq_true, elem_of_union_l, elem_of_singleton. reflexivity.
    - apply bool_decide_ext. rewrite elem_of_union, elem_of_singleton.
      split; [intros [->|Hd]; [congruence | exact Hd] | intros Hd; right; exact Hd]. }
  clear IH.
  destruct (String.eqb c d), (bool_decide (d ∈ codes)), (existsb (String.eqb c) l);
    reflexivity.
Qed.

Lemma reachedAt_insert before e after i :
  reachedAt (codeSet (before ++ e :: after)) i
  = ordinalOf e i || reachedAt (codeSet (before ++ after)) i.
Proof.
  rewrite codeSet_insert. unfold reachedAt, ordinalOf.
  destruct (MILESTONES !! i) as [m|]; [|reflexivity].
  destruct (Js.truthy (Some (normalized e))); simpl.
  - apply reached_union.
  - rewrite (left_id_L ∅ (∪)). reflexivity.
Qed.

(** The eight milestones have one code each, all different: an event
    belongs to one milestone at most. *)
Lemma ordinalOf_codes e i :
  ordinalOf e i = true → (DetailPage.codes <$> MILESTONES) !! i = Some [normalized e].
Proof.
  unfold ordinalOf. intros Hi.
  do 8 (destruct i as [|i];
        [ cbn [lookup list_lookup MILESTONES DetailPage.codes existsb] in Hi;
          apply andb_true_iff in Hi as [_ Hi]; rewrite orb_false_r in Hi;
          apply String.eqb_eq in Hi; rewrite Hi; reflexivity |]).
  discriminate Hi.
Qed.

Lemma ordinalOf_unique e j k : ordinalOf e j = true → ordinalOf e k = true → j = k.
Proof.
  intros Hj%ordinalOf_codes Hk%ordinalOf_codes.
  eapply NoDup_lookup; [|exact Hj|exact Hk].
  apply (bool_decide_unpack _). vm_compute. exact I.
Qed.

(** An event none of whose milestones lies beyond the current index leaves
    the index where it is, wherever the event is put in the list. *)
Lemma inferMilestoneIndex_earlier before e after :
  (∀ j, ordinalOf e j = true → j ≤ inferMilestoneIndex (before ++ after)) →
  inferMilestoneIndex (before ++ e :: after) = inferMilestoneIndex (before ++ after).
Proof.
  rewrite !inferMilestoneIndex_scan. intros Hlow.
  set (old := codeSet (before ++ after)) in *.
  set (new := codeSet (before ++ e :: after)).
  set (n := length MILESTONES) in *.
  assert (Hnew : ∀ i, reachedAt new i = ordinalOf e i || reachedAt old i)
    by (intros i; apply reachedAt_insert).
  destruct (scan_reached_or_none new n) as [Htop|[Hz Hnone]].
  - assert (scan new n ≤ scan old n) as Hle.
    { pose proof Htop as Htop'. rewrite Hnew in Htop'.
      apply orb_true_iff in Htop' as [Ho|Ho].
      - apply Hlow, Ho.
      - apply (scan_furthest old n (scan new n)); [|exact Ho].
        apply reachedAt_range with new. exact Htop. }
    assert (scan old n ≤ scan new n) as Hge.
    { destruct (scan_reached_or_none old n) as [Ho|[Hz _]]; [|lia].
      apply (scan_furthest new n (scan old n)).
      - apply reachedAt_range with old. exact Ho.
      - rewrite Hnew, Ho. apply orb_true_r. }
    lia.
  - rewrite Hz. symmetry. apply scan_none.
    intros i Hi. specialize (Hnone i Hi). rewrite Hnew in Hnone.
    apply orb_false_iff in Hnone as [_ Ho]. exact Ho.
Qed.

(** The code's set of normalized codes holds the code of a stage exactly
    when some event carries it once uppercased and trimmed. *)
Lemma codeSet_present events (c : string) :
  c ≠ ""%string → bool_decide (c ∈ codeSet events) = present events c.
Proof.
  intros Hne. apply eq_true_iff_eq.
  rewrite bool_decide_eq_true. unfold codeSet, present.
  rewrite elem_of_list_to_set, list_elem_of_In, filter_In, in_map_iff, existsb_exists.
  cbn [Js.truthy]. rewrite negb_true_iff, String.eqb_neq. split.
  - intros [(e & He & Hin) _]. exists e. split; [exact Hin|]. apply String.eqb_eq, He.
  - intros (e & Hin & He). apply String.eqb_eq in He. split; [|exact Hne].
    exists e. split; [exact He | exact Hin].
Qed.

Lemma reachedAt_stageReached events i :
  reachedAt (codeSet events) i = stageReached events i.
Proof.
  unfold reachedAt, stageReached, reached.
  do 8 (destruct i as [|i];
        [ cbn [lookup list_lookup MILESTONES stages DetailPage.codes existsb];
          rewrite orb_false_r; apply codeSet_present; discriminate |]).
  reflexivity.
Qed.

Lemma ordinalOf_stageOf e i : ordinalOf e i = stageOf (event_code e) i.
Proof.
  unfold ordinalOf, stageOf. change (normalized e) with (uppercasedTrimmed (event_code e)).
  do 8 (destruct i as [|i];
        [ cbn [lookup list_lookup MILESTONES stages DetailPage.codes existsb Js.truthy];
          rewrite orb_false_r;
          destruct (String.eqb_spec (uppercasedTrimmed (event_code e)) "") as [->|_];
          reflexivity |]).
  reflexivity.
Qed.

(** C5. [inferMilestoneIndex] is furthest progress over the eight
    milestones Booked, Ready, Docs Received, Cargo Received, Departed,
    Discharged, Customs Released and Delivered, keyed by one code each: the
    result is the largest index whose code some event carries once its code
    is uppercased and trimmed, and 0 when there is none (or the list is
    empty); an added event whose milestone is not beyond the current index
    never changes the result, at whatever place it is added; CARGO_RECEIVED
    and ATD give 4 in either order and however the codes are cased and
    spaced, and a code that merely contains the code of a milestone reaches
    nothing. *)
Theorem inferMilestoneIndex_furthest_progress :
  List.map (fun m => (DetailPage.label m, codes m)) MILESTONES
  = List.map (fun stage => (fst stage, [snd stage])) stages
  ∧ (∀ events, inferMilestoneIndex events < 8)
  ∧ (∀ events i,
       stageReached events i = true →
       i ≤ inferMilestoneIndex events
       ∧ stageReached events (inferMilestoneIndex events) = true)
  ∧ (∀ events,
       (∀ i, stageReached events i = false) → inferMilestoneIndex events = 0)
  ∧ inferMilestoneIndex [] = 0
  ∧ (∀ before e after j,
       stageOf (event_code e) j = true →
       j ≤ inferMilestoneIndex (before ++ after) →
       inferMilestoneIndex (before ++ e :: after) = inferMilestoneIndex (before ++ after))
  ∧ inferMilestoneIndex [event (Some "CARGO_RECEIVED"); event (Some "ATD")] = 4
  ∧ inferMilestoneIndex [event (Some "ATD"); event (Some "CARGO_RECEIVED")] = 4
  ∧ inferMilestoneIndex [event (Some " atd "); event (Some "cargo_received")] = 4
  ∧ inferMilestoneIndex [event (Some "Cargo_Received  "); event None] = 3
  ∧ inferMilestoneIndex [event (Some "DEPARTED"); event (Some "ATD2"); event (Some "")] = 0.
Proof.
  split; [reflexivity|].
  split; [|split; [|split; [|split; [|split]]]].
  - intros events. rewrite inferMilestoneIndex_scan.
    pose proof (scan_bound (codeSet events) (length MILESTONES)) as Hb.
    change (length MILESTONES) with 8 in *. simpl pred in Hb. lia.
  - intros events i. rewrite <- !reachedAt_stageReached. intros Hr.
    rewrite inferMilestoneIndex_scan.
    apply scan_furthest; [|exact Hr]. apply reachedAt_range with (codeSet events), Hr.
  - intros events Hnone. rewrite inferMilestoneIndex_scan.
    apply scan_none. intros i _. rewrite reachedAt_stageReached. apply Hnone.
  - reflexivity.
  - intros before e after j Hj Hle. rewrite <- ordinalOf_stageOf in Hj.
    apply inferMilestoneIndex_earlier.
    intros k Hk. rewrite (ordinalOf_unique e k j Hk Hj). exact Hle.
  - repeat split; vm_compute; reflexivity.
Qed.

Lemma inferMilestoneIndex_furthest_progress_witness :
  stageOf (Some "cargo_received ") 3 = true
  ∧ stageReached [event (Some " atd ")] 4 = true
  ∧ 3 ≤ inferMilestoneIndex ([event (Some " atd ")] ++ [])
  ∧ inferMilestoneIndex ([event (Some " atd ")] ++ event (Some "cargo_received ") :: [])
    = inferMilestoneIndex ([event (Some " atd ")] ++ [])
  ∧ 4 ≤ inferMilestoneIndex [event (Some " atd ")].
Proof.
  split; [reflexivity|]. split; [reflexivity|].
  split; [vm_compute; lia|].
  destruct inferMilestoneIndex_furthest_progress
    as (_ & _ & Hfurthest & _ & _ & Hearlier & _).
  split.
  - apply (Hearlier [event (Some " atd ")] (event (Some "cargo_received ")) [] 3);
      [reflexivity | vm_compute; lia].
  - apply (Hfurthest [event (Some " atd ")] 4). reflexivity.
Defined.

End Milestones.

(** ** The handlers, step by step *)

Section Handlers.
Import Supabase Access.
Context `{Engine}.

Lemma list_GET_authenticated env db req e log :
  authenticated env db req e →
  ListRoute.GET env req db log = ListRoute.listFor e db log.
Proof.
  intros (Henv & Htoken & Huser & He).
  unfold ListRoute.GET. rewrite Henv, Htoken. cbn [negb].
  unfold bind at 1, ask. rewrite Huser. cbn [Supabase.email]. rewrite He. reflexivity.
Qed.

Lemma detail_GET_authenticated env db req e shipmentId log :
  authenticated env db req e →
  DetailRoute.GET env req shipmentId db log = DetailRoute.detailFor e shipmentId db log.
Proof.
  intros (Henv & Htoken & Huser & He).
  unfold DetailRoute.GET. rewrite Henv, Htoken. cbn [negb].
  unfold bind at 1, ask. rewrite Huser. cbn [Supabase.email]. rewrite He. reflexivity.
Qed.

Lemma selectMemberships_run e db log :
  selectMemberships e db log
  = (match outage db (SelectMemberships e) with
     | Some message => Err message
     | None => Ok (membershipsOf db e)
     end, log ++ [SelectMemberships e]).
Proof. reflexivity. Qed.

Lemma selectShipment_run shipmentId db log :
  DetailRoute.selectShipment shipmentId db log
  = (match outage db (SelectShipment shipmentId) with
     | Some message => Err message
     | None => maybeSingle (shipmentsWithId db shipmentId)
     end, log ++ [SelectShipment shipmentId]).
Proof. reflexivity. Qed.

Lemma length_nonzero {A} (l : list A) : l ≠ [] → (length l =? 0) = false.
Proof. destruct l; simpl; congruence. Qed.

End Handlers.

(** ** Access control at the detail endpoint *)

Section DetailAccess.
Import Supabase Access.
Context `{Engine}.

(** C2. A caller with zero membership rows gets 200 with an empty data
    array from the list endpoint, which issues the membership read and no
    other, and 403 from the detail endpoint for every shipment identifier,
    those that exist included. *)
Theorem no_memberships_empty_list_and_forbidden_detail env db req e :
  authenticated env db req e →
  outage db (SelectMemberships e) = None →
  membershipsOf db e = [] →
  run (ListRoute.GET env req) db
  = (json {| ListRoute.data := []; ListRoute.email := e |}, [SelectMemberships e])
  ∧ ∀ shipmentId,
      run (DetailRoute.GET env req shipmentId) db
      = (fail "No customer access" 403, [SelectMemberships e]).
Proof.
  intros Hauth Hup Hnone. unfold run. split; [|intros shipmentId].
  - rewrite list_GET_authenticated with (e := e) by exact Hauth.
    unfold ListRoute.listFor, bind. rewrite selectMemberships_run, Hup, Hnone.
    reflexivity.
  - rewrite detail_GET_authenticated with (e := e) by exact Hauth.
    unfold DetailRoute.detailFor, bind. rewrite selectMemberships_run, Hup, Hnone.
    reflexivity.
Qed.

(** C1, as the handler has it. For a caller with at least one membership
    row, whatever the scopes in those rows, an identifier that matches no
    shipment is answered 404 once the two reads have succeeded; the
    ownership check is not reached. *)
Theorem missing_shipment_not_found env db req e shipmentId :
  authenticated env db req e →
  outage db (SelectMemberships e) = None →
  membershipsOf db e ≠ [] →
  outage db (SelectShipment shipmentId) = None →
  shipmentsWithId db shipmentId = [] →
  run (DetailRoute.GET env req shipmentId) db
  = (fail "Shipment not found" 404, [SelectMemberships e; SelectShipment shipmentId]).
Proof.
  intros Hauth Hup Hsome Hup' Habsent. unfold run.
  rewrite detail_GET_authenticated with (e := e) by exact Hauth.
  unfold DetailRoute.detailFor, bind.
  rewrite selectMemberships_run, Hup, (length_nonzero _ Hsome).
  rewrite selectShipment_run, Hup', Habsent. reflexivity.
Qed.

End DetailAccess.

(** ** Scope matching *)

Section Scopes.
Import Supabase Access.

Lemma elem_of_customerIds (id : string) (memberships : list AllowedUsers.row) :
  id ∈ customerIds memberships
  ↔ ∃ m, m ∈ memberships ∧ AllowedUsers.customer_id m = Some id ∧ id ≠ "".
Proof.
  unfold customerIds. rewrite list_elem_of_omap.
  split; intros (m & Hm & Hid); exists m; (split; [exact Hm|]).
  - destruct (AllowedUsers.customer_id m) as [s|]; cbn [Js.truthy] in Hid; [|discriminate].
    destruct (String.eqb s "") eqn:Hs; cbn [negb] in Hid; [discriminate|].
    injection Hid as ->. split; [reflexivity | apply String.eqb_neq, Hs].
  - destruct Hid as [-> Hne]. cbn [Js.truthy].
    apply String.eqb_neq in Hne. rewrite Hne. reflexivity.
Qed.

Lemma strict_eq_lower (id : string) (customer_id : option string) :
  Js.strict_eq (Some (Js.toLowerCase id)) (Js.toLowerCase <$> customer_id) = true
  ↔ ∃ t, customer_id = Some t ∧ Contract.same_scope id t = true.
Proof.
  destruct customer_id as [t|]; simpl.
  - split; [intros Heq; exists t; split; [reflexivity | exact Heq]|].
    intros (t' & [= <-] & Heq). exact Heq.
  - split; [discriminate | intros (t & [=] & _)].
Qed.

(** The ownership check of the detail endpoint grants a shipment exactly
    when one of the membership rows does. *)
Lemma hasAccess_grants memberships r :
  DetailRoute.hasAccess (customerIds memberships) r = true
  ↔ ∃ m, m ∈ memberships ∧ grants m r.
Proof.
  unfold DetailRoute.hasAccess, grants. rewrite existsb_exists. split.
  - intros (id & Hin & Heq). apply list_elem_of_In, elem_of_customerIds in Hin.
    destruct Hin as (m & Hm & Hid & Hne). apply strict_eq_lower in Heq as (t & Ht & Heq).
    exists m. split; [exact Hm|]. exists id, t. auto.
  - intros (m & Hm & id & t & Hid & Hne & Ht & Heq). exists id. split.
    + apply list_elem_of_In, elem_of_customerIds. exists m. auto.
    + apply strict_eq_lower. exists t. auto.
Qed.

Lemma maybeSingle_some {A} (l : list A) (x : A) : maybeSingle l = Ok (Some x) → l = [x].
Proof. destruct l as [|y [|z l]]; simpl; congruence. Qed.

End Scopes.

(** *** The reference datastore honours the contract on plain scopes *)

Section PostgresFilter.
Import Supabase Postgres.

Lemma reserved_lower_char c : Contract.reserved (Js.lower_char c) = Contract.reserved c.
Proof. destruct c as [[] [] [] [] [] [] [] []]; reflexivity. Qed.

Lemma plain_toLowerCase s : Contract.plain (Js.toLowerCase s) = Contract.plain s.
Proof.
  induction s as [|c s IH]; [reflexivity|].
  cbn [Js.toLowerCase Js.map_chars Contract.plain].
  rewrite reserved_lower_char. f_equal. exact IH.
Qed.

Lemma reserved_false c :
  Contract.reserved c = false →
  Ascii.eqb c "%" = false ∧ Ascii.eqb c "*" = false ∧ Ascii.eqb c "_" = false
  ∧ Ascii.eqb c "\" = false ∧ Ascii.eqb c "," = false.
Proof.
  unfold Contract.reserved. cbn [existsb]. intros Hr.
  repeat (apply orb_false_iff in Hr as [? Hr]). auto.
Qed.

(** Without wildcard or escape, LIKE is equality. *)
Lemma like_plain p t : Contract.plain p = true → like p t = String.eqb p t.
Proof.
  revert t. induction p as [|c p IH]; intros t Hp.
  - destruct t; reflexivity.
  - cbn [Contract.plain] in Hp. apply andb_true_iff in Hp as [Hc Hp].
    apply negb_true_iff, reserved_false in Hc as (H1 & H2 & H3 & H4 & _).
    cbn [like]. rewrite H1, H2, H3, H4. cbn [orb].
    destruct t as [|e t]; [reflexivity|]. cbn [String.eqb]. rewrite IH by exact Hp.
    destruct (Ascii.eqb c e); reflexivity.
Qed.

Lemma ilike_plain_same_scope p t :
  Contract.plain p = true → ilike p t = Contract.same_scope p t.
Proof.
  intros Hp. unfold ilike, Contract.same_scope.
  apply like_plain. rewrite plain_toLowerCase. exact Hp.
Qed.

Lemma plain_comma_free s : Contract.plain s = true → comma_free s = true.
Proof.
  induction s as [|c s IH]; [reflexivity|]. cbn [Contract.plain comma_free].
  intros [Hc Hs]%andb_true_iff.
  apply negb_true_iff, reserved_false in Hc as (_ & _ & _ & _ & Hc).
  rewrite Hc, (IH Hs). reflexivity.
Qed.

Lemma split_commas_one x : comma_free x = true → split_commas x = [x].
Proof.
  induction x as [|c x IH]; [reflexivity|]. cbn [comma_free split_commas].
  intros [Hc Hx]%andb_true_iff. apply negb_true_iff in Hc.
  rewrite Hc, (IH Hx). reflexivity.
Qed.

Lemma split_commas_more x rest :
  comma_free x = true →
  split_commas (x ++ "," ++ rest)%string = x :: split_commas rest.
Proof.
  induction x as [|c x IH]; [reflexivity|]. cbn [comma_free].
  intros [Hc Hx]%andb_true_iff. apply negb_true_iff in Hc.
  change (String c x ++ "," ++ rest)%string with (String c (x ++ "," ++ rest)%string).
  cbn [split_commas]. rewrite Hc, (IH Hx). reflexivity.
Qed.

Lemma split_commas_join (l : list string) :
  l ≠ [] → forallb comma_free l = true → split_commas (Js.join "," l) = l.
Proof.
  induction l as [|x l IH]; [congruence|]. intros _ [Hx Hl]%andb_true_iff.
  destruct l as [|y l].
  - cbn [Js.join]. apply split_commas_one, Hx.
  - change (Js.join "," (x :: y :: l)) with (x ++ "," ++ Js.join "," (y :: l))%string.
    rewrite split_commas_more by exact Hx. f_equal. apply IH; [discriminate | exact Hl].
Qed.

Lemma strip_prefix_app p s : strip_prefix p (p ++ s)%string = Some s.
Proof.
  induction p as [|c p IH]; [destruct s; reflexivity|].
  change (String c p ++ s)%string with (String c (p ++ s)%string).
  cbn [strip_prefix]. rewrite Ascii.eqb_refl. exact IH.
Qed.

Lemma comma_free_app a b : comma_free (a ++ b)%string = comma_free a && comma_free b.
Proof.
  induction a as [|c a IH]; [reflexivity|].
  change (String c a ++ b)%string with (String c (a ++ b)%string).
  cbn [comma_free]. rewrite IH. apply andb_assoc.
Qed.

(** PostgreSQL behind PostgREST reads the filter of the list endpoint as
    the contract says. *)
Lemma postgres_ilike_plain : Contract.ilike_plain.
Proof.
  intros ids customer_id Hne Hplain. cbn [or_filter engine].
  unfold ListRoute.orConditions. rewrite split_commas_join.
  - induction ids as [|id ids IH]; [congruence|].
    cbn [forallb] in Hplain. apply andb_true_iff in Hplain as [Hid Hplain].
    cbn [List.map existsb]. unfold condition at 1. rewrite strip_prefix_app.
    destruct customer_id as [t|].
    + rewrite (ilike_plain_same_scope id t Hid). f_equal.
      destruct ids as [|id' ids]; [reflexivity|]. apply IH; [discriminate | exact Hplain].
    + destruct ids as [|id' ids]; [reflexivity|]. apply IH; [discriminate | exact Hplain].
  - destruct ids; [congruence | discriminate].
  - clear Hne. induction ids as [|id ids IH]; [reflexivity|].
    cbn [forallb] in Hplain. apply andb_true_iff in Hplain as [Hid Hplain].
    cbn [List.map forallb]. rewrite comma_free_app, (plain_comma_free id Hid), (IH Hplain).
    reflexivity.
Qed.

End PostgresFilter.

(** C3. "ACME" grants a shipment owned by "acme" at both endpoints. The
    list endpoint, though, matches scopes with [ilike], a pattern match: the
    scope "A_ME", which is not equal to "acme" up to letter case, lists the
    shipment S1 of "acme", and the scope "%" lists the shipments of every
    customer; the detail endpoint, which compares the lowercased texts,
    answers 403 for each of these shipments. *)
Theorem wildcard_scope_lists_foreign_shipments :
  Supabase.run (ListRoute.GET Sample.env Sample.request) Sample.member_of_acme
  = (Supabase.json
       {| ListRoute.data := [ListRoute.withStatus Sample2.acme_shipment (Some "ATD")];
          ListRoute.email := "ann@example.com" |},
     [Supabase.SelectMemberships "ann@example.com";
      Supabase.SelectShipments "customer_id.ilike.ACME";
      Supabase.SelectLatestEvent "S1"])
  ∧ Supabase.status
      (fst (Supabase.run (DetailRoute.GET Sample.env Sample.request "S1")
              Sample.member_of_acme)) = 200
  ∧ Contract.same_scope "A_ME" "acme" = false
  ∧ Supabase.run (ListRoute.GET Sample.env Sample.request) Sample3.underscore
    = (Supabase.json
         {| ListRoute.data := [ListRoute.withStatus Sample2.acme_shipment (Some "ATD")];
            ListRoute.email := "ann@example.com" |},
       [Supabase.SelectMemberships "ann@example.com";
        Supabase.SelectShipments "customer_id.ilike.A_ME";
        Supabase.SelectLatestEvent "S1"])
  ∧ Supabase.run (DetailRoute.GET Sample.env Sample.request "S1") Sample3.underscore
    = (Supabase.fail "You don't have access to this shipment" 403,
       [Supabase.SelectMemberships "ann@example.com"; Supabase.SelectShipment "S1"])
  ∧ Contract.same_scope "%" "acme" = false
  ∧ Contract.same_scope "%" "globex" = false
  ∧ Supabase.run (ListRoute.GET Sample.env Sample.request) Sample3.percent
    = (Supabase.json
         {| ListRoute.data := [ListRoute.withStatus Sample2.globex_shipment None;
                               ListRoute.withStatus Sample2.acme_shipment (Some "ATD")];
            ListRoute.email := "ann@example.com" |},
       [Supabase.SelectMemberships "ann@example.com";
        Supabase.SelectShipments "customer_id.ilike.%";
        Supabase.SelectLatestEvent "S7"; Supabase.SelectLatestEvent "S1"])
  ∧ Supabase.run (DetailRoute.GET Sample.env Sample.request "S7") Sample3.percent
    = (Supabase.fail "You don't have access to this shipment" 403,
       [Supabase.SelectMemberships "ann@example.com"; Supabase.SelectShipment "S7"])
  ∧ Supabase.run (DetailRoute.GET Sample.env Sample.request "S1") Sample3.percent
    = (Supabase.fail "You don't have access to this shipment" 403,
       [Supabase.SelectMemberships "ann@example.com"; Supabase.SelectShipment "S1"]).
Proof. repeat split; vm_compute; reflexivity. Qed.

(** ** Ordering and truncation *)

Section Ordering.
Import Supabase Access.
Context `{Engine} {A : Type} (column : A → option string).

Lemma insert_desc_perm (x : A) l : Permutation (insert_desc column x l) (x :: l).
Proof.
  induction l as [|y l IH]; cbn [insert_desc]; [reflexivity|].
  destruct (ts_leb (column y) (column x)); [reflexivity|].
  rewrite IH. apply perm_swap.
Qed.

Lemma order_desc_perm l : Permutation (order_desc column l) l.
Proof.
  induction l as [|x l IH]; cbn [order_desc]; [reflexivity|].
  rewrite insert_desc_perm. constructor. exact IH.
Qed.

Lemma insert_desc_sorted (x : A) l :
  Contract.ts_total → Contract.ts_trans →
  descending column l → descending column (insert_desc column x l).
Proof.
  intros Htotal Htrans. unfold descending.
  induction l as [|y l IH]; intros Hs; cbn [insert_desc].
  - repeat constructor.
  - apply StronglySorted_inv in Hs as [Hs Hy].
    destruct (ts_leb (column y) (column x)) eqn:Hyx.
    + constructor; [constructor; assumption|].
      constructor; [exact Hyx|].
      eapply Forall_impl; [exact Hy|]. intros z Hz. cbn beta in *.
      eapply Htrans; eassumption.
    + constructor; [apply IH, Hs|].
      eapply Permutation_Forall; [symmetry; apply insert_desc_perm|].
      constructor; [|exact Hy].
      destruct (Htotal (column x) (column y)) as [Hxy|Hxy]; [exact Hxy | congruence].
Qed.

Lemma order_desc_sorted l :
  Contract.ts_total → Contract.ts_trans → descending column (order_desc column l).
Proof.
  intros Htotal Htrans. induction l as [|x l IH]; cbn [order_desc].
  - constructor.
  - apply insert_desc_sorted; assumption.
Qed.

Lemma descending_app l1 l2 :
  descending column (l1 ++ l2) →
  descending column l1
  ∧ ∀ r x, r ∈ l1 → x ∈ l2 → ts_leb (column x) (column r) = true.
Proof.
  unfold descending. induction l1 as [|y l1 IH]; cbn [app]; intros Hs.
  - split; [constructor | intros r x Hr; inversion Hr].
  - apply StronglySorted_inv in Hs as [Hs Hy]. destruct (IH Hs) as [Hs1 Hcross].
    apply Forall_app in Hy as [Hy1 Hy2].
    split; [constructor; assumption|].
    intros r x Hr Hx. apply elem_of_cons in Hr as [->|Hr].
    + rewrite Forall_forall in Hy2. apply Hy2, Hx.
    + apply Hcross; assumption.
Qed.

(** Ordering latest first and keeping [n] rows keeps the [n] latest. *)
Lemma limit_order_desc_latest n l :
  Contract.ts_total → Contract.ts_trans →
  length (limit n (order_desc column l)) = min n (length l)
  ∧ descending column (limit n (order_desc column l))
  ∧ Permutation l (limit n (order_desc column l) ++ skipn n (order_desc column l))
  ∧ ∀ r x, r ∈ limit n (order_desc column l) → x ∈ skipn n (order_desc column l) →
           ts_leb (column x) (column r) = true.
Proof.
  intros Htotal Htrans. unfold limit.
  pose proof (order_desc_sorted l Htotal Htrans) as Hs.
  rewrite <- (firstn_skipn n (order_desc column l)) in Hs.
  apply descending_app in Hs as [Hs Hcross].
  split; [|split; [exact Hs|split; [|exact Hcross]]].
  - rewrite length_firstn, (Permutation_length (order_desc_perm l)). reflexivity.
  - rewrite firstn_skipn. symmetry. apply order_desc_perm.
Qed.



End Ordering.

(** ** The list endpoint *)

Section ListEndpoint.
Import Supabase Access.
Context `{Engine}.

Lemma all_annotate_run db log l :
  all ListRoute.annotate l db log
  = (List.map (annotated db) l,
     log ++ List.map (fun r => SelectLatestEvent (Shipments.shipment_id r)) l).
Proof.
  revert log. induction l as [|r l IH]; intros log.
  - cbn [all List.map ret]. rewrite app_nil_r. reflexivity.
  - cbn [all List.map]. unfold bind at 1.
    unfold ListRoute.annotate at 1, bind, ListRoute.selectLatestEvent, read, ret.
    rewrite IH, <- app_assoc. reflexivity.
Qed.

Lemma customerIds_nil_memberships (memberships : list AllowedUsers.row) :
  customerIds memberships ≠ [] → memberships ≠ [].
Proof. intros Hne ->. apply Hne. reflexivity. Qed.

(** The list handler when the two first reads succeed and a scope is left:
    the rows the datastore returns, each annotated by its own read. *)
Lemma list_GET_run env db req e :
  authenticated env db req e →
  outage db (SelectMemberships e) = None →
  scopesOf db e ≠ [] →
  outage db (SelectShipments (ListRoute.orConditions (scopesOf db e))) = None →
  run (ListRoute.GET env req) db
  = (json {| ListRoute.data :=
               List.map (annotated db)
                 (limit 300 (order_desc Shipments.last_event_time (matchedFor db e)));
             ListRoute.email := e |},
     [SelectMemberships e; SelectShipments (ListRoute.orConditions (scopesOf db e))]
     ++ List.map (fun r => SelectLatestEvent (Shipments.shipment_id r))
          (limit 300 (order_desc Shipments.last_event_time (matchedFor db e)))).
Proof.
  intros Hauth Hup Hscopes Hup'. unfold run.
  rewrite list_GET_authenticated with (e := e) by exact Hauth.
  unfold ListRoute.listFor, bind. rewrite selectMemberships_run, Hup.
  rewrite (length_nonzero _ (customerIds_nil_memberships _ Hscopes)).
  fold (scopesOf db e). rewrite (length_nonzero _ Hscopes).
  unfold ListRoute.selectShipments, read. rewrite Hup'.
  rewrite all_annotate_run. reflexivity.
Qed.

(** The errors of the first two reads are turned into a 500; that of the
    read of a latest event leaves a null code behind. *)
Lemma list_membership_failure env db req e message :
  authenticated env db req e →
  outage db (SelectMemberships e) = Some message →
  run (ListRoute.GET env req) db = (fail message 500, [SelectMemberships e]).
Proof.
  intros Hauth Hdown. unfold run.
  rewrite list_GET_authenticated with (e := e) by exact Hauth.
  unfold ListRoute.listFor, bind. rewrite selectMemberships_run, Hdown. reflexivity.
Qed.

Lemma list_shipments_failure env db req e message :
  authenticated env db req e →
  outage db (SelectMemberships e) = None →
  scopesOf db e ≠ [] →
  outage db (SelectShipments (ListRoute.orConditions (scopesOf db e))) = Some message →
  run (ListRoute.GET env req) db
  = (fail message 500,
     [SelectMemberships e; SelectShipments (ListRoute.orConditions (scopesOf db e))]).
Proof.
  intros Hauth Hup Hscopes Hdown. unfold run.
  rewrite list_GET_authenticated with (e := e) by exact Hauth.
  unfold ListRoute.listFor, bind. rewrite selectMemberships_run, Hup.
  rewrite (length_nonzero _ (customerIds_nil_memberships _ Hscopes)).
  fold (scopesOf db e). rewrite (length_nonzero _ Hscopes).
  unfold ListRoute.selectShipments, read. rewrite Hdown. reflexivity.
Qed.

Lemma annotated_failure db r message :
  outage db (SelectLatestEvent (Shipments.shipment_id r)) = Some message →
  ShipmentsPage.latest_event_code (annotated db r) = None.
Proof. unfold annotated, latestEventOf. intros ->. reflexivity. Qed.

Lemma descending_annotated db l :
  descending Shipments.last_event_time l →
  descending ShipmentsPage.last_event_time (List.map (annotated db) l).
Proof.
  unfold descending. induction 1 as [|r l Hs IH Hr]; cbn [List.map]; constructor.
  - exact IH.
  - apply Forall_map. exact Hr.
Qed.

(** A datastore that orders its timestamps by instant, NULL largest. *)
Lemma chronological_total instant : Chronology.chronological instant → Contract.ts_total.
Proof.
  intros Hc a b. rewrite !Hc. destruct a as [x|], b as [y|]; cbn [Chronology.leb]; auto.
  rewrite !Z.leb_le. lia.
Qed.

Lemma chronological_trans instant : Chronology.chronological instant → Contract.ts_trans.
Proof.
  intros Hc a b c. rewrite !Hc.
  destruct a as [x|], b as [y|], c as [z|]; cbn [Chronology.leb]; try congruence.
  rewrite !Z.leb_le. lia.
Qed.

Lemma chronological_before instant a b :
  Chronology.chronological instant →
  ts_leb b a = true ↔ Chronology.before instant a b.
Proof.
  intros Hc. rewrite Hc.
  destruct a as [x|], b as [y|]; cbn [Chronology.leb Chronology.before];
    rewrite ?Z.leb_le; split; auto; discriminate.
Qed.

Lemma descending_nullsFirstLatest instant {A} (column : A → option string) l :
  Chronology.chronological instant →
  descending column l → Chronology.nullsFirstLatest instant column l.
Proof.
  intros Hc. unfold descending, Chronology.nullsFirstLatest.
  induction 1 as [|x l Hs IH Hx]; constructor; [exact IH|].
  eapply Forall_impl; [exact Hx|]. intros y Hy. cbn beta in Hy.
  apply (chronological_before instant _ _ Hc), Hy.
Qed.

Lemma annotated_fields db l :
  List.map ShipmentsPage.shipment_id (List.map (annotated db) l)
  = List.map Shipments.shipment_id l
  ∧ List.map ShipmentsPage.last_event_time (List.map (annotated db) l)
    = List.map Shipments.last_event_time l.
Proof. rewrite !List.map_map. split; reflexivity. Qed.

(** C7, as the handler has it. The shipments of the response are the
    matching shipments in the datastore's descending order of last-event
    time, cut at 300: from 301 matching shipments on there are exactly 300.
    In that order the shipments without a last-event time come first, then
    the dated ones from the latest on; so every shipment left out is dated
    no later than a dated one that is returned, and is itself dated unless
    all the returned ones are undated. When every matching shipment has a
    last-event time, the 300 returned are those with the latest times. *)
Theorem list_returns_the_first_300_undated_then_latest env db req e instant :
  Chronology.chronological instant →
  authenticated env db req e →
  outage db (SelectMemberships e) = None →
  scopesOf db e ≠ [] →
  outage db (SelectShipments (ListRoute.orConditions (scopesOf db e))) = None →
  ∃ returned rest,
    fst (run (ListRoute.GET env req) db)
    = json {| ListRoute.data := List.map (annotated db) returned; ListRoute.email := e |}
    ∧ List.map ShipmentsPage.shipment_id (List.map (annotated db) returned)
      = List.map Shipments.shipment_id returned
    ∧ List.map ShipmentsPage.last_event_time (List.map (annotated db) returned)
      = List.map Shipments.last_event_time returned
    ∧ Permutation
        (List.filter
           (fun r => or_filter (ListRoute.orConditions (scopesOf db e)) (Shipments.customer_id r))
           (shipments db))
        (returned ++ rest)
    ∧ length returned = min 300 (length (returned ++ rest))
    ∧ (301 ≤ length (returned ++ rest) → length (List.map (annotated db) returned) = 300)
    ∧ Chronology.nullsFirstLatest instant Shipments.last_event_time (returned ++ rest)
    ∧ (∀ r x, r ∈ returned → x ∈ rest →
              Chronology.before instant (Shipments.last_event_time r)
                (Shipments.last_event_time x))
    ∧ ((∀ x, x ∈ returned ++ rest → Shipments.last_event_time x ≠ None) →
       ∀ r x, r ∈ returned → x ∈ rest →
              ∃ tr tx, Shipments.last_event_time r = Some tr
                       ∧ Shipments.last_event_time x = Some tx
                       ∧ (instant tx ≤ instant tr)%Z).
Proof.
  intros Hc Hauth Hup Hscopes Hup'.
  pose proof (chronological_total instant Hc) as Htotal.
  pose proof (chronological_trans instant Hc) as Htrans.
  destruct (limit_order_desc_latest Shipments.last_event_time 300 (matchedFor db e)
              Htotal Htrans) as (Hlen & _ & Hperm & Hlatest).
  pose proof (order_desc_sorted Shipments.last_event_time (matchedFor db e) Htotal Htrans)
    as Hsorted.
  set (ordered := order_desc Shipments.last_event_time (matchedFor db e)) in *.
  assert (limit 300 ordered ++ skipn 300 ordered = ordered) as Hsplit
    by apply firstn_skipn.
  assert (∀ r x, r ∈ limit 300 ordered → x ∈ skipn 300 ordered →
                 Chronology.before instant (Shipments.last_event_time r)
                   (Shipments.last_event_time x)) as Hcross.
  { intros r x Hr Hx. apply (chronological_before instant _ _ Hc), Hlatest; assumption. }
  exists (limit 300 ordered), (skipn 300 ordered).
  rewrite (list_GET_run env db req e Hauth Hup Hscopes Hup'). fold ordered.
  rewrite Hsplit.
  split; [reflexivity|].
  split; [apply annotated_fields|]. split; [apply annotated_fields|].
  split; [rewrite <- Hsplit; exact Hperm|].
  assert (length (limit 300 ordered) = min 300 (length ordered)) as Hcut
    by apply length_firstn.
  split; [exact Hcut|].
  split; [intros Hmany; rewrite length_map, Hcut; lia|].
  split; [apply descending_nullsFirstLatest; assumption|].
  split; [exact Hcross|].
  intros Hdated r x Hr Hx. specialize (Hcross r x Hr Hx).
  assert (r ∈ ordered) as Hr' by (rewrite <- Hsplit; apply elem_of_app; left; exact Hr).
  assert (x ∈ ordered) as Hx' by (rewrite <- Hsplit; apply elem_of_app; right; exact Hx).
  apply Hdated in Hr', Hx'.
  destruct (Shipments.last_event_time r) as [tr|]; [|congruence].
  destruct (Shipments.last_event_time x) as [tx|]; [|congruence].
  exists tr, tx. auto.
Qed.


End ListEndpoint.

(** *** The reference datastore orders timestamps totally *)

Section PostgresOrder.
Import Supabase Postgres.

Lemma ascii_compare_refl a : Ascii.compare a a = Eq.
Proof. unfold Ascii.compare. apply N.compare_refl. Qed.

Lemma ascii_compare_lt_trans a b c :
  Ascii.compare a b = Lt → Ascii.compare b c = Lt → Ascii.compare a c = Lt.
Proof.
  unfold Ascii.compare. rewrite !N.compare_lt_iff. apply N.lt_trans.
Qed.

Lemma string_compare_refl s : String.compare s s = Eq.
Proof.
  induction s as [|c s IH]; [reflexivity|].
  cbn [String.compare]. rewrite ascii_compare_refl. exact IH.
Qed.

Lemma string_compare_lt_trans a b c :
  String.compare a b = Lt → String.compare b c = Lt → String.compare a c = Lt.
Proof.
  revert b c. induction a as [|x a IH]; intros [|y b] [|z c]; cbn [String.compare];
    try congruence.
  destruct (Ascii.compare x y) eqn:Hxy, (Ascii.compare y z) eqn:Hyz; try discriminate.
  - apply Ascii.compare_eq_iff in Hxy, Hyz. subst. rewrite ascii_compare_refl. apply IH.
  - apply Ascii.compare_eq_iff in Hxy. subst. rewrite Hyz. reflexivity.
  - apply Ascii.compare_eq_iff in Hyz. subst. rewrite Hxy. reflexivity.
  - rewrite (ascii_compare_lt_trans x y z Hxy Hyz). reflexivity.
Qed.

Lemma string_leb_trans a b c :
  String.leb a b = true → String.leb b c = true → String.leb a c = true.
Proof.
  unfold String.leb.
  destruct (String.compare a b) eqn:Hab; [| |discriminate];
    destruct (String.compare b c) eqn:Hbc; try discriminate; intros _ _.
  - apply String.compare_eq_iff in Hab, Hbc. subst. rewrite string_compare_refl. reflexivity.
  - apply String.compare_eq_iff in Hab. subst. rewrite Hbc. reflexivity.
  - apply String.compare_eq_iff in Hbc. subst. rewrite Hab. reflexivity.
  - rewrite (string_compare_lt_trans a b c Hab Hbc). reflexivity.
Qed.

Lemma postgres_ts_total : Contract.ts_total.
Proof.
  intros [x|] [y|]; cbn [ts_leb engine leb]; auto. apply String.leb_total.
Qed.

Lemma postgres_ts_trans : Contract.ts_trans.
Proof.
  intros [x|] [y|] [z|]; cbn [ts_leb engine leb]; try congruence.
  apply string_leb_trans.
Qed.

End PostgresOrder.

Section DetailOwnership.
Import Supabase Access.
Context `{Engine}.

(** Every branch of the detail handler but the last answers with an error
    status: a 200 went through the ownership check. *)
Lemma detail_ok_inv env db req shipmentId resp log :
  run (DetailRoute.GET env req shipmentId) db = (resp, log) →
  status resp = 200 →
  ∃ r m events,
    resp = json {| DetailRoute.shipment := r; DetailRoute.events := events |}
    ∧ r ∈ shipments db
    ∧ Shipments.shipment_id r = shipmentId
    ∧ m ∈ allowed_users db
    ∧ getUser db (bearerToken req) = Ok {| email := Some (AllowedUsers.email m) |}
    ∧ grants m r.
Proof.
  unfold run, DetailRoute.GET.
  destruct (env_missing env); [intros [= <- _]; discriminate|].
  destruct (negb (Js.truthy (Some (bearerToken req)))); [intros [= <- _]; discriminate|].
  unfold bind at 1, ask.
  destruct (getUser db (bearerToken req)) as [[user_email]|]; [|intros [= <- _]; discriminate].
  cbn [Supabase.email].
  destruct user_email as [e|]; [|intros [= <- _]; discriminate].
  cbn [Js.truthy Js.nullish].
  destruct (negb (negb (String.eqb e ""))); [intros [= <- _]; discriminate|].
  unfold DetailRoute.detailFor, bind. rewrite selectMemberships_run.
  destruct (outage db (SelectMemberships e)); [intros [= <- _]; discriminate|].
  destruct (length (membershipsOf db e) =? 0); [intros [= <- _]; discriminate|].
  rewrite selectShipment_run.
  destruct (outage db (SelectShipment shipmentId)); [intros [= <- _]; discriminate|].
  destruct (maybeSingle (shipmentsWithId db shipmentId)) as [[r|]|] eqn:Hsingle;
    [|intros [= <- _]; discriminate..].
  destruct (DetailRoute.hasAccess (customerIds (membershipsOf db e)) r) eqn:Hacc;
    [|intros [= <- _]; discriminate].
  cbn [negb]. unfold DetailRoute.selectEvents, read.
  destruct (outage db (SelectEvents shipmentId)); [intros [= <- _]; discriminate|].
  intros [= <- _] _.
  apply hasAccess_grants in Hacc as (m & Hm & Hgrant).
  apply maybeSingle_some in Hsingle.
  assert (r ∈ shipmentsWithId db shipmentId) as Hr by (rewrite Hsingle; left).
  apply list_elem_of_In, filter_In in Hr as [Hr Hid].
  apply list_elem_of_In, filter_In in Hm as [Hm He].
  apply String.eqb_eq in Hid, He. subst e.
  eexists r, m, _. split; [reflexivity|].
  repeat split; try assumption; now apply list_elem_of_In.
Qed.

(** C10. A shipment whose owning scope is null is refused with 403 to every
    caller, member of something or not; and whenever the detail endpoint
    answers 200, the shipment it returns has the requested identifier and an
    owning scope equal, up to letter case, to the non-empty scope of one of
    the caller's membership rows. *)
Theorem null_scope_shipment_forbidden :
  (∀ env db req e shipmentId r,
     authenticated env db req e →
     outage db (SelectMemberships e) = None →
     outage db (SelectShipment shipmentId) = None →
     shipmentsWithId db shipmentId = [r] →
     Shipments.customer_id r = None →
     status (fst (run (DetailRoute.GET env req shipmentId) db)) = 403)
  ∧ (∀ env db req shipmentId,
       status (fst (run (DetailRoute.GET env req shipmentId) db)) = 200 →
       ∃ r m events,
         body (fst (run (DetailRoute.GET env req shipmentId) db))
         = Json {| DetailRoute.shipment := r; DetailRoute.events := events |}
         ∧ r ∈ shipments db
         ∧ Shipments.shipment_id r = shipmentId
         ∧ m ∈ allowed_users db
         ∧ getUser db (bearerToken req) = Ok {| email := Some (AllowedUsers.email m) |}
         ∧ grants m r).
Proof.
  split.
  - intros env db req e shipmentId r Hauth Hup Hup' Hfound Hnull. unfold run.
    rewrite detail_GET_authenticated with (e := e) by exact Hauth.
    unfold DetailRoute.detailFor, bind. rewrite selectMemberships_run, Hup.
    destruct (length (membershipsOf db e) =? 0); [reflexivity|].
    rewrite selectShipment_run, Hup', Hfound. cbn [maybeSingle].
    assert (DetailRoute.hasAccess (customerIds (membershipsOf db e)) r = false) as ->.
    { apply not_true_is_false. rewrite hasAccess_grants.
      intros (m & _ & s & t & _ & _ & Ht & _). congruence. }
    reflexivity.
  - intros env db req shipmentId H200.
    destruct (run (DetailRoute.GET env req shipmentId) db) as [resp log] eqn:Hrun.
    destruct (detail_ok_inv env db req shipmentId resp log Hrun H200)
      as (r & m & events & -> & Hrest).
    exists r, m, events. split; [reflexivity | exact Hrest].
Qed.

End DetailOwnership.

Lemma null_scope_shipment_forbidden_witness :
  Access.authenticated Sample.env Sample.unowned Sample.request "ann@example.com"
  ∧ Access.shipmentsWithId Sample.unowned "S9" = [Sample.shipment "S9" None None]
  ∧ Supabase.status
      (fst (Supabase.run (DetailRoute.GET Sample.env Sample.request "S9") Sample.unowned))
    = 403.
Proof.
  assert (Access.authenticated Sample.env Sample.unowned Sample.request
            "ann@example.com") as Hauth by (repeat split).
  split; [exact Hauth|]. split; [reflexivity|].
  destruct null_scope_shipment_forbidden as [Hnull _].
  apply (Hnull Sample.env Sample.unowned Sample.request "ann@example.com" "S9"
           (Sample.shipment "S9" None None) Hauth); reflexivity.
Defined.

(** C6. While the latest-event read of a returned shipment fails, the list
    endpoint still answers 200: the shipment, whose latest event is ATD when
    the read works, is returned with a null code. The error of that read is
    never looked at, where those of the two reads before it are turned into
    500. *)
Theorem failed_event_lookup_is_swallowed :
  Supabase.run (ListRoute.GET Sample.env Sample.request) Sample.events_down
  = (Supabase.json
       {| ListRoute.data :=
            [ListRoute.withStatus
               (Sample.shipment "S1" (Some "acme") (Some "2024-05-02T10:00:00Z")) None];
          ListRoute.email := "ann@example.com" |},
     [Supabase.SelectMemberships "ann@example.com";
      Supabase.SelectShipments "customer_id.ilike.ACME";
      Supabase.SelectLatestEvent "S1"])
  ∧ Supabase.run (ListRoute.GET Sample.env Sample.request) Sample.member_of_acme
    = (Supabase.json
         {| ListRoute.data :=
              [ListRoute.withStatus
                 (Sample.shipment "S1" (Some "acme") (Some "2024-05-02T10:00:00Z"))
                 (Some "ATD")];
            ListRoute.email := "ann@example.com" |},
       [Supabase.SelectMemberships "ann@example.com";
        Supabase.SelectShipments "customer_id.ilike.ACME";
        Supabase.SelectLatestEvent "S1"]).
Proof. split; vm_compute; reflexivity. Qed.

Lemma sample_engine_chronological :
  @Chronology.chronological Sample3.engine Chronology.decimal.
Proof. intros a b. reflexivity. Qed.

(** C7, as the specification has it, fails when a matching shipment has no
    last-event time: of 301 matching shipments, S0 without a time and S1 to
    S300 last heard of at the instants 1 to 300, the response has S0 first,
    then S300 down to S2, and leaves out the dated S1. *)
Lemma undated_shipment_returned_ahead_of_a_dated_one :
  length (@Access.matchedFor Sample3.engine Sample3.one_undated "ann@example.com") = 301
  ∧ fst (Supabase.run (@ListRoute.GET Sample3.engine Sample.env Sample.request)
           Sample3.one_undated)
    = Supabase.json
        {| ListRoute.data :=
             List.map (fun r => ListRoute.withStatus r None)
               (Sample.shipment "S0" (Some "acme") None
                :: List.map Sample3.dated (rev (seq 2 299)));
           ListRoute.email := "ann@example.com" |}
  ∧ Shipments.last_event_time (Sample.shipment "S0" (Some "acme") None) = None
  ∧ Sample3.dated 1 ∈ @Access.matchedFor Sample3.engine Sample3.one_undated "ann@example.com"
  ∧ Shipments.last_event_time (Sample3.dated 1) = Some "1"%string
  ∧ existsb (String.eqb "S1")
      (List.map Shipments.shipment_id
         (Sample.shipment "S0" (Some "acme") None
          :: List.map Sample3.dated (rev (seq 2 299)))) = false.
Proof.
  split; [vm_compute; reflexivity|]. split; [vm_compute; reflexivity|].
  split; [reflexivity|].
  split; [apply list_elem_of_In; vm_compute; right; left; reflexivity|].
  split; [reflexivity | vm_compute; reflexivity].
Qed.

Lemma list_returns_the_first_300_undated_then_latest_witness :
  @Chronology.chronological Sample3.engine Chronology.decimal
  ∧ Access.authenticated Sample.env Sample3.all_dated Sample.request "ann@example.com"
  ∧ ∃ returned rest,
      fst (Supabase.run (@ListRoute.GET Sample3.engine Sample.env Sample.request)
             Sample3.all_dated)
      = Supabase.json
          {| ListRoute.data := List.map (@Access.annotated Sample3.engine Sample3.all_dated)
                                 returned;
             ListRoute.email := "ann@example.com" |}
      ∧ Permutation (List.map Sample3.dated (seq 1 301)) (returned ++ rest)
      ∧ length (List.map (@Access.annotated Sample3.engine Sample3.all_dated) returned) = 300
      ∧ Chronology.nullsFirstLatest Chronology.decimal Shipments.last_event_time
          (returned ++ rest)
      ∧ ∀ r x, r ∈ returned → x ∈ rest →
               ∃ tr tx, Shipments.last_event_time r = Some tr
                        ∧ Shipments.last_event_time x = Some tx
                        ∧ (Chronology.decimal tx ≤ Chronology.decimal tr)%Z.
Proof.
  assert (Access.authenticated Sample.env Sample3.all_dated Sample.request "ann@example.com")
    as Hauth by (repeat split).
  split; [exact sample_engine_chronological|]. split; [exact Hauth|].
  destruct (@list_returns_the_first_300_undated_then_latest Sample3.engine Sample.env
              Sample3.all_dated Sample.request "ann@example.com" Chronology.decimal
              sample_engine_chronological Hauth eq_refl ltac:(discriminate) eq_refl)
    as (returned & rest & Hresp & _ & _ & Hperm & _ & Hlen & Hsorted & _ & Hlatest).
  assert (List.filter
            (fun r => @Supabase.or_filter Sample3.engine
                        (ListRoute.orConditions
                           (Access.scopesOf Sample3.all_dated "ann@example.com"))
                        (Shipments.customer_id r))
            (Supabase.shipments Sample3.all_dated)
          = List.map Sample3.dated (seq 1 301)) as Hmatched by (vm_compute; reflexivity).
  rewrite Hmatched in Hperm.
  exists returned, rest.
  split; [exact Hresp|]. split; [exact Hperm|].
  split; [apply Hlen; rewrite <- (Permutation_length Hperm), length_map, length_seq; lia|].
  split; [exact Hsorted|].
  apply Hlatest. intros x Hx. rewrite <- Hperm in Hx.
  apply list_elem_of_In, in_map_iff in Hx as (n & <- & _). discriminate.
Defined.



(** C1, as the specification has it, fails for a caller without any
    membership row: the identifier matches no shipment and the answer is 403. *)
Lemma missing_shipment_forbidden_without_membership :
  Access.authenticated Sample.env Sample.stranger Sample.request "ann@example.com"
  ∧ Access.membershipsOf Sample.stranger "ann@example.com" = []
  ∧ Access.shipmentsWithId Sample.stranger "S404" = []
  ∧ Supabase.run (DetailRoute.GET Sample.env Sample.request "S404") Sample.stranger
    = (Supabase.fail "No customer access" 403,
       [Supabase.SelectMemberships "ann@example.com"]).
Proof. repeat split. Qed.

Lemma missing_shipment_not_found_witness :
  Access.authenticated Sample.env Sample.member_of_acme Sample.request "ann@example.com"
  ∧ Supabase.run (DetailRoute.GET Sample.env Sample.request "S404") Sample.member_of_acme
    = (Supabase.fail "Shipment not found" 404,
       [Supabase.SelectMemberships "ann@example.com"; Supabase.SelectShipment "S404"]).
Proof.
  assert (Access.authenticated Sample.env Sample.member_of_acme Sample.request
            "ann@example.com") as Hauth by (repeat split).
  split; [exact Hauth|].
  apply (missing_shipment_not_found Sample.env Sample.member_of_acme Sample.request
           "ann@example.com" "S404" Hauth); [reflexivity | discriminate | reflexivity..].
Defined.

Lemma no_memberships_empty_list_and_forbidden_detail_witness :
  Access.authenticated Sample.env Sample.stranger Sample.request "ann@example.com"
  ∧ Supabase.run (ListRoute.GET Sample.env Sample.request) Sample.stranger
    = (Supabase.json {| ListRoute.data := []; ListRoute.email := "ann@example.com" |},
       [Supabase.SelectMemberships "ann@example.com"])
  ∧ Supabase.run (DetailRoute.GET Sample.env Sample.request "S1") Sample.stranger
    = (Supabase.fail "No customer access" 403,
       [Supabase.SelectMemberships "ann@example.com"]).
Proof.
  assert (Access.authenticated Sample.env Sample.stranger Sample.request
            "ann@example.com") as Hauth by (repeat split).
  split; [exact Hauth|].
  destruct (no_memberships_empty_list_and_forbidden_detail
              Sample.env Sample.stranger Sample.request "ann@example.com" Hauth
              eq_refl eq_refl) as [Hlist Hdetail].
  split; [exact Hlist | exact (Hdetail "S1")].
Defined.

(** ** The sort of the list page *)

Section Sorting.
Import ShipmentsPage SortSpec.
Variable dateTime : string → option Z.
Variable localeCompare : string → string → Z.

Lemma comparator_undated_left sortKey sortDir a b :
  undated dateTime sortKey a = true → comparator dateTime localeCompare sortKey sortDir a b = 1%Z.
Proof. unfold undated, ShipmentsPage.comparator. intros ->. reflexivity. Qed.

Lemma comparator_undated_right sortKey sortDir a b :
  undated dateTime sortKey a = false → undated dateTime sortKey b = true →
  comparator dateTime localeCompare sortKey sortDir a b = (-1)%Z.
Proof. unfold undated, ShipmentsPage.comparator. intros -> ->. reflexivity. Qed.

Lemma comparator_date sortKey sortDir value a b :
  columnOf sortKey = DateColumn value →
  comparator dateTime localeCompare sortKey sortDir a b
  = match parseDateMs dateTime (value a), parseDateMs dateTime (value b) with
    | None, _ => 1
    | Some _, None => -1
    | Some x, Some y => (x - y) * dirMul sortDir
    end%Z.
Proof.
  unfold ShipmentsPage.comparator.
  destruct sortKey; cbn [columnOf sortValue]; intros [= <-];
    destruct (parseDateMs dateTime _) as [x|]; cbn [isNaN]; try reflexivity;
    destruct (parseDateMs dateTime _) as [y|]; cbn [isNaN]; reflexivity.
Qed.

Lemma comparator_text sortKey sortDir value a b :
  columnOf sortKey = TextColumn value →
  comparator dateTime localeCompare sortKey sortDir a b
  = (localeCompare (Js.toLowerCase (value a)) (Js.toLowerCase (value b)) * dirMul sortDir)%Z.
Proof.
  unfold ShipmentsPage.comparator.
  destruct sortKey; cbn [columnOf sortValue]; intros [= <-]; reflexivity.
Qed.

Lemma insert_by_perm cmp x l : Permutation (insert_by cmp x l) (x :: l).
Proof.
  induction l as [|y l IH]; cbn [insert_by]; [reflexivity|].
  destruct (cmp x y <? 0)%Z; [reflexivity|]. rewrite IH. apply perm_swap.
Qed.

Lemma sort_by_perm cmp l : Permutation (sort_by cmp l) l.
Proof.
  unfold sort_by.
  enough (∀ acc, Permutation (fold_left (fun acc x => insert_by cmp x acc) l acc) (acc ++ l))
    as Hgen by (apply (Hgen [])).
  induction l as [|x l IH]; intros acc; cbn [fold_left].
  - rewrite app_nil_r. reflexivity.
  - rewrite IH, insert_by_perm. apply Permutation_middle.
Qed.

(** Inserting a row keeps the undated rows behind the dated ones. *)
Lemma insert_by_undated_last sortKey sortDir x l :
  undated_last dateTime sortKey l →
  undated_last dateTime sortKey (insert_by (comparator dateTime localeCompare sortKey sortDir) x l).
Proof.
  unfold undated_last. induction l as [|y l IH]; intros Hs; cbn [insert_by].
  - repeat constructor.
  - apply StronglySorted_inv in Hs as [Hs Hy].
    destruct (comparator dateTime localeCompare sortKey sortDir x y <? 0)%Z eqn:Hcmp.
    + constructor; [constructor; assumption|].
      apply Forall_forall. intros z _ Hx.
      rewrite (comparator_undated_left _ _ _ _ Hx) in Hcmp. discriminate.
    + constructor; [apply IH, Hs|].
      eapply Permutation_Forall; [symmetry; apply insert_by_perm|].
      constructor; [|exact Hy].
      intros Hyu. destruct (undated dateTime sortKey x) eqn:Hx; [reflexivity|].
      rewrite (comparator_undated_right _ _ _ _ Hx Hyu) in Hcmp. discriminate.
Qed.

Lemma sort_by_undated_last sortKey sortDir l :
  undated_last dateTime sortKey (sort_by (comparator dateTime localeCompare sortKey sortDir) l).
Proof.
  unfold sort_by.
  enough (∀ acc, undated_last dateTime sortKey acc →
                 undated_last dateTime sortKey
                   (fold_left (fun acc x => insert_by (comparator dateTime localeCompare sortKey sortDir) x acc) l acc))
    as Hgen by (apply Hgen; constructor).
  induction l as [|x l IH]; intros acc Hacc; cbn [fold_left]; [exact Hacc|].
  apply IH, insert_by_undated_last, Hacc.
Qed.

Lemma parseDateMs_unparsable v :
  parseDateMs dateTime v = None
  ↔ v = None ∨ v = Some ""%string ∨ ∃ t, v = Some t ∧ dateTime t = None.
Proof.
  unfold parseDateMs. destruct v as [t|]; cbn [Js.truthy]; [|split; auto].
  destruct (String.eqb_spec t "") as [->|Hne]; cbn [negb].
  - split; auto.
  - split.
    + intros Ht. right. right. exists t. auto.
    + intros [Hv|[Hv|(t' & [= <-] & Ht)]]; congruence.
Qed.

End Sorting.

Lemma lexCompare_lexicographic : SortSpec.lexicographic SortSpec.lexCompare.
Proof.
  intros x y. unfold SortSpec.lexCompare. destruct (String.compare x y); lia.
Qed.

(** * Further properties of the handlers *)

Section HandlerCases.
Import Supabase Access.
Context `{Engine}.

Lemma scopesOf_nil_memberships db e : membershipsOf db e = [] → scopesOf db e = [].
Proof. unfold scopesOf. intros ->. reflexivity. Qed.

(** Step 3 of the list handler, case by case. *)
Lemma listFor_cases e db :
  run (ListRoute.listFor e) db
  = match outage db (SelectMemberships e) with
    | Some message => (fail message 500, [SelectMemberships e])
    | None =>
        match scopesOf db e with
        | [] => (json {| ListRoute.data := []; ListRoute.email := e |}, [SelectMemberships e])
        | _ :: _ =>
            match outage db (SelectShipments (ListRoute.orConditions (scopesOf db e))) with
            | Some message =>
                (fail message 500,
                 [SelectMemberships e;
                  SelectShipments (ListRoute.orConditions (scopesOf db e))])
            | None =>
                (json {| ListRoute.data :=
                           List.map (annotated db)
                             (limit 300 (order_desc Shipments.last_event_time (matchedFor db e)));
                         ListRoute.email := e |},
                 [SelectMemberships e;
                  SelectShipments (ListRoute.orConditions (scopesOf db e))]
                 ++ List.map (fun r => SelectLatestEvent (Shipments.shipment_id r))
                      (limit 300 (order_desc Shipments.last_event_time (matchedFor db e))))
            end
        end
    end.
Proof.
  unfold run, ListRoute.listFor, bind. rewrite selectMemberships_run.
  destruct (outage db (SelectMemberships e)); [reflexivity|].
  destruct (membershipsOf db e) as [|m ms] eqn:Hms.
  - rewrite (scopesOf_nil_memberships db e Hms). reflexivity.
  - cbn [length Nat.eqb]. rewrite <- Hms. fold (scopesOf db e).
    destruct (scopesOf db e) as [|c cs] eqn:Hscopes; [reflexivity|].
    cbn [length Nat.eqb]. unfold ListRoute.selectShipments, read.
    destruct (outage db (SelectShipments _)); [reflexivity|].
    rewrite all_annotate_run. unfold matchedFor. rewrite Hscopes. reflexivity.
Qed.

(** Step 3 of the detail handler, case by case. *)
Lemma detailFor_cases e shipmentId db :
  run (DetailRoute.detailFor e shipmentId) db
  = match outage db (SelectMemberships e) with
    | Some message => (fail message 500, [SelectMemberships e])
    | None =>
        match membershipsOf db e with
        | [] => (fail "No customer access" 403, [SelectMemberships e])
        | _ :: _ =>
            match outage db (SelectShipment shipmentId) with
            | Some message =>
                (fail message 500, [SelectMemberships e; SelectShipment shipmentId])
            | None =>
                match maybeSingle (shipmentsWithId db shipmentId) with
                | Err message =>
                    (fail message 500, [SelectMemberships e; SelectShipment shipmentId])
                | Ok None =>
                    (fail "Shipment not found" 404,
                     [SelectMemberships e; SelectShipment shipmentId])
                | Ok (Some r) =>
                    if DetailRoute.hasAccess (scopesOf db e) r then
                      match outage db (SelectEvents shipmentId) with
                      | Some message => (fail message 500, [SelectMemberships e; SelectShipment shipmentId; SelectEvents shipmentId])
                      | None =>
                          (json {| DetailRoute.shipment := r;
                                   DetailRoute.events :=
                                     List.map DetailRoute.selected
                                       (order_desc Events.event_time
                                          (ListRoute.eventsOf shipmentId db)) |},
                           [SelectMemberships e; SelectShipment shipmentId; SelectEvents shipmentId])
                      end
                    else (fail "You don't have access to this shipment" 403,
                          [SelectMemberships e; SelectShipment shipmentId])
                end
            end
        end
    end.
Proof.
  unfold run, DetailRoute.detailFor, bind. rewrite selectMemberships_run.
  destruct (outage db (SelectMemberships e)); [reflexivity|].
  destruct (membershipsOf db e) as [|m ms] eqn:Hms; [reflexivity|].
  cbn [length Nat.eqb]. rewrite <- Hms. fold (scopesOf db e).
  rewrite selectShipment_run.
  destruct (outage db (SelectShipment shipmentId)); [reflexivity|].
  destruct (maybeSingle (shipmentsWithId db shipmentId)) as [[r|]|]; [|reflexivity..].
  destruct (DetailRoute.hasAccess (scopesOf db e) r); cbn [negb]; [|reflexivity].
  unfold DetailRoute.selectEvents, read.
  destruct (outage db (SelectEvents shipmentId)); reflexivity.
Qed.

(** A request is authenticated, or it is answered before any read. *)
Lemma authenticated_or_not env db req :
  (∃ e, authenticated env db req e)
  ∨ ((∀ e, ¬ authenticated env db req e)
     ∧ run (ListRoute.GET env req) db
       = (if env_missing env then fail "Server env missing" 500
          else fail "Unauthorized" 401, [])
     ∧ ∀ shipmentId,
         run (DetailRoute.GET env req shipmentId) db
         = (if env_missing env then fail "Server env missing" 500
            else fail "Unauthorized" 401, [])).
Proof.
  unfold run, ListRoute.GET, DetailRoute.GET, authenticated.
  destruct (env_missing env) eqn:Henv.
  { right. split; [intros e (He & _); discriminate | split; reflexivity]. }
  destruct (Js.truthy (Some (bearerToken req))) eqn:Htoken; cbn [negb].
  2:{ right. split; [intros e (_ & He & _); discriminate | split; reflexivity]. }
  unfold bind, ask.
  destruct (getUser db (bearerToken req)) as [[[e|]]|message] eqn:Huser.
  - cbn [Supabase.email]. destruct (Js.truthy (Some e)) eqn:He; cbn [negb].
    + left. exists e. auto.
    + right. split; [|split; reflexivity].
      intros e' (_ & _ & [= <-] & He'). congruence.
  - right. split; [intros e (_ & _ & [=] & _) | split; reflexivity].
  - right. split; [intros e (_ & _ & [=] & _) | split; reflexivity].
Qed.

End HandlerCases.

(** ** The bearer token *)

Section Bearer.
Import Supabase.

Lemma map_chars_app f a b :
  Js.map_chars f (a ++ b)%string = (Js.map_chars f a ++ Js.map_chars f b)%string.
Proof.
  induction a as [|c a IH]; [reflexivity|].
  change (String c a ++ b)%string with (String c (a ++ b)%string).
  cbn [Js.map_chars]. rewrite IH. reflexivity.
Qed.

Lemma length_map_chars f a : String.length (Js.map_chars f a) = String.length a.
Proof. induction a as [|c a IH]; [reflexivity|]. cbn. rewrite IH. reflexivity. Qed.

Lemma startsWith_app p x : Js.startsWith (p ++ x)%string p = true.
Proof.
  induction p as [|c p IH]; [destruct x; reflexivity|].
  change (String c p ++ x)%string with (String c (p ++ x)%string).
  cbn [Js.startsWith]. rewrite Ascii.eqb_refl. exact IH.
Qed.

Lemma slice_app a b : Js.slice (String.length a) (a ++ b)%string = b.
Proof.
  induction a as [|c a IH]; [destruct b; reflexivity|].
  change (String c a ++ b)%string with (String c (a ++ b)%string). exact IH.
Qed.

Lemma or_empty h : Js.nullish (Js.or_else (Some h) (Some ""%string)) "" = h.
Proof.
  unfold Js.or_else. cbn [Js.truthy].
  destruct (String.eqb_spec h "") as [->|_]; reflexivity.
Qed.

(** X1. The scheme of the authorization header is matched in any letter
    case, and the token is what follows its seven characters, trimmed: the
    handlers read back the access token the pages send after "Bearer ". *)
Theorem bearerToken_reads_back_the_token scheme token :
  Js.toLowerCase scheme = "bearer "%string →
  bearerToken {| authorization := Some (scheme ++ token)%string |} = Js.trim token.
Proof.
  intros Hscheme. unfold bearerToken. cbn [authorization]. rewrite or_empty.
  unfold Js.toLowerCase in *. rewrite map_chars_app, Hscheme, startsWith_app.
  assert (String.length scheme = 7) as Hlen.
  { rewrite <- (length_map_chars Js.lower_char), Hscheme. reflexivity. }
  rewrite <- Hlen, slice_app. reflexivity.
Qed.

Lemma bearerToken_reads_back_the_token_witness :
  Js.toLowerCase "BeArEr " = "bearer "%string
  ∧ bearerToken {| authorization := Some ("BeArEr " ++ " token-ann ")%string |}
    = Js.trim " token-ann ".
Proof.
  split; [reflexivity|].
  apply (bearerToken_reads_back_the_token "BeArEr " " token-ann "). reflexivity.
Defined.

End Bearer.

(** ** Outcomes of the two handlers *)

Section Outcomes.
Import Supabase Access.
Context `{Engine}.

(** X2. A request that is not authenticated is answered before any read of
    the datastore, by both handlers: 500 when a required environment value is
    missing, 401 otherwise. *)
Theorem no_read_before_authentication env db req :
  (∀ e, ¬ authenticated env db req e) →
  run (ListRoute.GET env req) db
  = (if env_missing env then fail "Server env missing" 500 else fail "Unauthorized" 401, [])
  ∧ ∀ shipmentId,
      run (DetailRoute.GET env req shipmentId) db
      = (if env_missing env then fail "Server env missing" 500
         else fail "Unauthorized" 401, []).
Proof.
  intros Hnot. destruct (authenticated_or_not env db req) as [[e He]|[_ Hruns]].
  - destruct (Hnot e He).
  - exact Hruns.
Qed.

(** X3. The list handler answers 200 with a payload, or 401 or 500 with an
    error; the detail handler answers 200 with a payload, or 401, 403, 404 or
    500 with an error. A payload never comes with another status, and the
    list handler never answers 403 or 404. *)
Theorem statuses_of_the_handlers env db req :
  match body (fst (run (ListRoute.GET env req) db)) with
  | Json _ => status (fst (run (ListRoute.GET env req) db)) = 200
  | Error _ => status (fst (run (ListRoute.GET env req) db)) = 401
               ∨ status (fst (run (ListRoute.GET env req) db)) = 500
  end
  ∧ ∀ shipmentId,
      match body (fst (run (DetailRoute.GET env req shipmentId) db)) with
      | Json _ => status (fst (run (DetailRoute.GET env req shipmentId) db)) = 200
      | Error _ => status (fst (run (DetailRoute.GET env req shipmentId) db)) = 401
                   ∨ status (fst (run (DetailRoute.GET env req shipmentId) db)) = 403
                   ∨ status (fst (run (DetailRoute.GET env req shipmentId) db)) = 404
                   ∨ status (fst (run (DetailRoute.GET env req shipmentId) db)) = 500
      end.
Proof.
  destruct (authenticated_or_not env db req) as [[e He]|(_ & Hlist & Hdetail)].
  - split; [|intros shipmentId].
    + unfold run at 1 2 3 4. rewrite (list_GET_authenticated env db req e [] He).
      fold (run (ListRoute.listFor e) db). rewrite listFor_cases.
      destruct (outage db (SelectMemberships e)); [right; reflexivity|].
      destruct (scopesOf db e); [reflexivity|].
      destruct (outage db (SelectShipments _)); [right; reflexivity | reflexivity].
    + unfold run. rewrite (detail_GET_authenticated env db req e shipmentId [] He).
      fold (run (DetailRoute.detailFor e shipmentId) db). rewrite detailFor_cases.
      destruct (outage db (SelectMemberships e)); [cbn; auto|].
      destruct (membershipsOf db e) as [|m ms]; [cbn; auto|].
      destruct (outage db (SelectShipment shipmentId)); [cbn; auto|].
      destruct (maybeSingle (shipmentsWithId db shipmentId)) as [[r|]|]; [|cbn; auto..].
      destruct (DetailRoute.hasAccess (scopesOf db e) r); [|cbn; auto].
      destruct (outage db (SelectEvents shipmentId)); cbn; auto.
  - rewrite Hlist. split; [|intros shipmentId; rewrite Hdetail].
    + destruct (env_missing env); cbn; auto.
    + destruct (env_missing env); cbn; auto.
Qed.

(** X4. The handlers bound their reads: the list handler issues at most
    302 of them (the memberships, the shipments, and one per returned
    shipment, of which there are 300 at most), the detail handler at most 3. *)
Theorem reads_are_bounded env db req :
  length (snd (run (ListRoute.GET env req) db)) ≤ 302
  ∧ ∀ shipmentId, length (snd (run (DetailRoute.GET env req shipmentId) db)) ≤ 3.
Proof.
  destruct (authenticated_or_not env db req) as [[e He]|(_ & Hlist & Hdetail)].
  - split; [|intros shipmentId].
    + unfold run. rewrite (list_GET_authenticated env db req e [] He).
      fold (run (ListRoute.listFor e) db). rewrite listFor_cases.
      destruct (outage db (SelectMemberships e)); [cbn; lia|].
      destruct (scopesOf db e); [cbn; lia|].
      destruct (outage db (SelectShipments _)); [cbn; lia|].
      cbn [snd]. rewrite length_app, length_map. unfold limit. rewrite length_firstn.
      cbn [length]. lia.
    + unfold run. rewrite (detail_GET_authenticated env db req e shipmentId [] He).
      fold (run (DetailRoute.detailFor e shipmentId) db). rewrite detailFor_cases.
      destruct (outage db (SelectMemberships e)); [cbn; lia|].
      destruct (membershipsOf db e) as [|m ms]; [cbn; lia|].
      destruct (outage db (SelectShipment shipmentId)); [cbn; lia|].
      destruct (maybeSingle (shipmentsWithId db shipmentId)) as [[r|]|]; [|cbn; lia..].
      destruct (DetailRoute.hasAccess (scopesOf db e) r); [|cbn; lia].
      destruct (outage db (SelectEvents shipmentId)); cbn; lia.
  - rewrite Hlist. split; [cbn; lia|]. intros shipmentId. rewrite Hdetail. cbn. lia.
Qed.

(** X5. A caller whose membership rows carry no usable scope (null or
    empty in every row, or no row at all) gets 200 with an empty data array
    from the list endpoint, which reads the memberships and nothing else. *)
Theorem no_usable_scope_empty_list env db req e :
  authenticated env db req e →
  outage db (SelectMemberships e) = None →
  scopesOf db e = [] →
  run (ListRoute.GET env req) db
  = (json {| ListRoute.data := []; ListRoute.email := e |}, [SelectMemberships e]).
Proof.
  intros Hauth Hup Hscopes. unfold run.
  rewrite (list_GET_authenticated env db req e [] Hauth).
  fold (run (ListRoute.listFor e) db). rewrite listFor_cases, Hup, Hscopes. reflexivity.
Qed.

End Outcomes.

(** ** Isolation of customers *)

Section Isolation.
Import Supabase Access.
Context `{Engine}.

(** On plain scopes the filter of the list endpoint passes the shipments
    some membership row grants. *)
Lemma filter_grants db e (r : Shipments.row) :
  Contract.ilike_plain →
  scopesOf db e ≠ [] →
  forallb Contract.plain (scopesOf db e) = true →
  or_filter (ListRoute.orConditions (scopesOf db e)) (Shipments.customer_id r) = true
  ↔ ∃ m, m ∈ membershipsOf db e ∧ grants m r.
Proof.
  intros Hilike Hne Hplain. unfold scopesOf in *.
  rewrite (Hilike _ _ Hne Hplain), <- hasAccess_grants. unfold DetailRoute.hasAccess.
  destruct (Shipments.customer_id r) as [t|]; cbn [fmap option_fmap option_map].
  - reflexivity.
  - assert (∀ l, existsb (λ id, Js.strict_eq (Some (Js.toLowerCase id)) None) l = false)
      as -> by (induction l; simpl; auto).
    reflexivity.
Qed.

Lemma elem_of_limit {A} n (l : list A) x : x ∈ limit n l → x ∈ l.
Proof.
  unfold limit. intros Hx. rewrite <- (firstn_skipn n l). apply elem_of_app. left. exact Hx.
Qed.

(** The rows behind the items of a list response. *)
Lemma list_items_matched env db req e payload item :
  authenticated env db req e →
  body (fst (run (ListRoute.GET env req) db)) = Json payload →
  item ∈ ListRoute.data payload →
  outage db (SelectMemberships e) = None
  ∧ scopesOf db e ≠ []
  ∧ ∃ r, r ∈ shipments db
         ∧ or_filter (ListRoute.orConditions (scopesOf db e)) (Shipments.customer_id r) = true
         ∧ item = annotated db r.
Proof.
  intros Hauth. unfold run. rewrite (list_GET_authenticated env db req e [] Hauth).
  fold (run (ListRoute.listFor e) db). rewrite listFor_cases.
  destruct (outage db (SelectMemberships e)); [discriminate|].
  destruct (scopesOf db e) as [|c cs] eqn:Hscopes.
  { intros [= <-] Hitem. inversion Hitem. }
  destruct (outage db (SelectShipments _)); [discriminate|].
  remember (limit 300 (order_desc Shipments.last_event_time (matchedFor db e))) as rows
    eqn:Hrows.
  intros [= <-] Hitem. cbn [ListRoute.data] in Hitem.
  split; [reflexivity|]. split; [discriminate|].
  apply list_elem_of_In, in_map_iff in Hitem as (r & <- & Hr).
  rewrite Hrows in Hr. apply list_elem_of_In, elem_of_limit in Hr.
  rewrite (order_desc_perm Shipments.last_event_time (matchedFor db e)) in Hr.
  unfold matchedFor, ListRoute.matching in Hr. rewrite Hscopes in Hr.
  apply list_elem_of_In, filter_In in Hr as [Hr Hpass].
  exists r. split; [apply list_elem_of_In, Hr|]. split; [exact Hpass | reflexivity].
Qed.

(** X6. The list endpoint never returns a shipment of another customer:
    when the scopes of the caller are plain, every item of a 200 response is a
    row of the shipments table whose owning scope equals, up to letter case,
    the non-empty scope of one of the caller's membership rows; the response
    carries the caller's email and at most 300 items. *)
Theorem list_returns_only_granted_shipments env db req e payload :
  Contract.ilike_plain →
  authenticated env db req e →
  forallb Contract.plain (scopesOf db e) = true →
  body (fst (run (ListRoute.GET env req) db)) = Json payload →
  ListRoute.email payload = e
  ∧ length (ListRoute.data payload) ≤ 300
  ∧ ∀ item, item ∈ ListRoute.data payload →
            ∃ r m, r ∈ shipments db ∧ m ∈ membershipsOf db e ∧ grants m r
                   ∧ item = annotated db r.
Proof.
  intros Hilike Hauth Hplain Hbody. split; [|split].
  - revert Hbody. unfold run. rewrite (list_GET_authenticated env db req e [] Hauth).
    fold (run (ListRoute.listFor e) db). rewrite listFor_cases.
    destruct (outage db (SelectMemberships e)); [discriminate|].
    destruct (scopesOf db e); [intros [= <-]; reflexivity|].
    destruct (outage db (SelectShipments _)); [discriminate|].
    intros [= <-]. reflexivity.
  - revert Hbody. unfold run. rewrite (list_GET_authenticated env db req e [] Hauth).
    fold (run (ListRoute.listFor e) db). rewrite listFor_cases.
    destruct (outage db (SelectMemberships e)); [discriminate|].
    destruct (scopesOf db e); [intros [= <-]; cbn; lia|].
    destruct (outage db (SelectShipments _)); [discriminate|].
    remember (limit 300 (order_desc Shipments.last_event_time (matchedFor db e))) as rows
      eqn:Hrows.
    intros [= <-]. cbn [ListRoute.data]. rewrite length_map, Hrows. unfold limit.
    rewrite length_firstn. lia.
  - intros item Hitem.
    destruct (list_items_matched env db req e payload item Hauth Hbody Hitem)
      as (_ & Hne & r & Hr & Hpass & ->).
    apply (filter_grants db e r Hilike Hne Hplain) in Hpass as (m & Hm & Hgrant).
    exists r, m. auto.
Qed.

(** X7. A shipment that exists and that none of the caller's membership
    rows grants, the scopes being texts of ASCII characters, is refused with
    403 and its events are never read. For a caller with a membership row the
    answer is "You don't have access to this shipment" and the reads stop at
    the shipment; for a caller without any it is "No customer access" and
    the reads stop at the memberships. *)
Theorem foreign_shipment_forbidden env db req e shipmentId r :
  authenticated env db req e →
  outage db (SelectMemberships e) = None →
  outage db (SelectShipment shipmentId) = None →
  shipmentsWithId db shipmentId = [r] →
  forallb Text.is_ascii (scopesOf db e) = true →
  (∀ t, Shipments.customer_id r = Some t → Text.is_ascii t = true) →
  (∀ m, m ∈ membershipsOf db e → ¬ grants m r) →
  run (DetailRoute.GET env req shipmentId) db
  = match membershipsOf db e with
    | [] => (fail "No customer access" 403, [SelectMemberships e])
    | _ :: _ => (fail "You don't have access to this shipment" 403,
                 [SelectMemberships e; SelectShipment shipmentId])
    end
  ∧ status (fst (run (DetailRoute.GET env req shipmentId) db)) = 403
  ∧ SelectEvents shipmentId ∉ snd (run (DetailRoute.GET env req shipmentId) db).
Proof.
  intros Hauth Hup Hup' Hfound _ _ Hforeign.
  assert (run (DetailRoute.GET env req shipmentId) db
          = match membershipsOf db e with
            | [] => (fail "No customer access" 403, [SelectMemberships e])
            | _ :: _ => (fail "You don't have access to this shipment" 403,
                         [SelectMemberships e; SelectShipment shipmentId])
            end) as Hrun.
  { unfold run. rewrite (detail_GET_authenticated env db req e shipmentId [] Hauth).
    fold (run (DetailRoute.detailFor e shipmentId) db).
    rewrite detailFor_cases, Hup, Hup', Hfound.
    destruct (membershipsOf db e) as [|m ms] eqn:Hms; [reflexivity|]. rewrite <- Hms in *.
    cbn [maybeSingle].
    assert (DetailRoute.hasAccess (scopesOf db e) r = false) as ->; [|reflexivity].
    apply not_true_is_false. unfold scopesOf. rewrite hasAccess_grants.
    intros (m' & Hm' & Hgrant). exact (Hforeign m' Hm' Hgrant). }
  split; [exact Hrun|]. rewrite Hrun.
  destruct (membershipsOf db e); cbn [fst snd status fail].
  - split; [reflexivity|]. intros Hin. apply list_elem_of_singleton in Hin. discriminate.
  - split; [reflexivity|]. intros Hin.
    apply elem_of_cons in Hin as [Hin|Hin]; [discriminate|].
    apply list_elem_of_singleton in Hin. discriminate.
Qed.

Lemma descending_selected (l : list Events.row) :
  descending Events.event_time l →
  descending DetailPage.event_time (List.map DetailRoute.selected l).
Proof.
  unfold descending. induction 1 as [|ev l Hs IH Hev]; cbn [List.map]; constructor.
  - exact IH.
  - apply Forall_map. exact Hev.
Qed.

(** X8. A granted shipment is answered 200 after three reads, with all the
    events of the shipment and no other: the events returned are those of the
    table that carry its identifier, every one of them (there is no limit), in
    descending order of event time. *)
Theorem granted_shipment_with_all_its_events env db req e shipmentId r m :
  Contract.ts_total → Contract.ts_trans →
  authenticated env db req e →
  outage db (SelectMemberships e) = None →
  outage db (SelectShipment shipmentId) = None →
  outage db (SelectEvents shipmentId) = None →
  shipmentsWithId db shipmentId = [r] →
  m ∈ membershipsOf db e →
  grants m r →
  ∃ returned,
    run (DetailRoute.GET env req shipmentId) db
    = (json {| DetailRoute.shipment := r; DetailRoute.events := returned |},
       [SelectMemberships e; SelectShipment shipmentId; SelectEvents shipmentId])
    ∧ Permutation returned
        (List.map DetailRoute.selected (ListRoute.eventsOf shipmentId db))
    ∧ length returned = length (ListRoute.eventsOf shipmentId db)
    ∧ descending DetailPage.event_time returned.
Proof.
  intros Htotal Htrans Hauth Hup Hup' Hup'' Hfound Hm Hgrant.
  exists (List.map DetailRoute.selected
            (order_desc Events.event_time (ListRoute.eventsOf shipmentId db))).
  split; [|split; [|split]].
  - unfold run. rewrite (detail_GET_authenticated env db req e shipmentId [] Hauth).
    fold (run (DetailRoute.detailFor e shipmentId) db).
    rewrite detailFor_cases, Hup, Hup', Hup'', Hfound.
    destruct (membershipsOf db e) as [|m' ms] eqn:Hms; [inversion Hm|]. rewrite <- Hms in *.
    cbn [maybeSingle].
    assert (DetailRoute.hasAccess (scopesOf db e) r = true) as ->; [|reflexivity].
    unfold scopesOf. apply hasAccess_grants. exists m. auto.
  - apply Permutation_map, order_desc_perm.
  - rewrite length_map. apply Permutation_length, order_desc_perm.
  - apply descending_selected, order_desc_sorted; assumption.
Qed.

Lemma filter_unique_id (l : list Shipments.row) r :
  NoDup (List.map Shipments.shipment_id l) →
  r ∈ l →
  List.filter (fun x => String.eqb (Shipments.shipment_id x) (Shipments.shipment_id r)) l = [r].
Proof.
  induction l as [|x l IH]; intros Hnodup Hr; [inversion Hr|].
  cbn [List.map] in Hnodup. apply NoDup_cons in Hnodup as [Hx Hnodup].
  cbn [List.filter]. apply elem_of_cons in Hr as [<-|Hr].
  - rewrite String.eqb_refl. f_equal.
    clear IH. induction l as [|y l IH]; [reflexivity|]. cbn [List.filter].
    destruct (String.eqb_spec (Shipments.shipment_id y) (Shipments.shipment_id r)) as [Heq|_].
    + exfalso. apply Hx. rewrite <- Heq. left.
    + apply IH.
      * intros Hin. apply Hx. right. exact Hin.
      * apply NoDup_cons in Hnodup as [_ Hnodup]. exact Hnodup.
  - destruct (String.eqb_spec (Shipments.shipment_id x) (Shipments.shipment_id r)) as [Heq|_].
    + exfalso. apply Hx. rewrite Heq. apply list_elem_of_fmap_2. exact Hr.
    + apply IH; assumption.
Qed.

(** X9. Every shipment of a list response can be opened: when shipment
    identifiers are unique and the scopes of the caller are plain, the detail
    endpoint answers 200 with that shipment for the identifier of any item the
    list endpoint returned to the same caller, its two further reads
    succeeding. *)
Theorem listed_shipment_can_be_opened env db req e payload item :
  Contract.ilike_plain →
  authenticated env db req e →
  forallb Contract.plain (scopesOf db e) = true →
  NoDup (List.map Shipments.shipment_id (shipments db)) →
  body (fst (run (ListRoute.GET env req) db)) = Json payload →
  item ∈ ListRoute.data payload →
  outage db (SelectShipment (ShipmentsPage.shipment_id item)) = None →
  outage db (SelectEvents (ShipmentsPage.shipment_id item)) = None →
  ∃ r events,
    fst (run (DetailRoute.GET env req (ShipmentsPage.shipment_id item)) db)
    = json {| DetailRoute.shipment := r; DetailRoute.events := events |}
    ∧ item = annotated db r.
Proof.
  intros Hilike Hauth Hplain Hnodup Hbody Hitem.
  destruct (list_items_matched env db req e payload item Hauth Hbody Hitem)
    as (Hup & Hne & r & Hr & Hpass & ->).
  change (ShipmentsPage.shipment_id (annotated db r)) with (Shipments.shipment_id r).
  intros Hup' Hup''.
  apply (filter_grants db e r Hilike Hne Hplain) in Hpass as (m & Hm & Hgrant).
  exists r. eexists. split; [|reflexivity].
  unfold run. rewrite (detail_GET_authenticated env db req e _ [] Hauth).
  fold (run (DetailRoute.detailFor e (Shipments.shipment_id r)) db).
  rewrite detailFor_cases, Hup, Hup', Hup''.
  unfold shipmentsWithId. rewrite (filter_unique_id _ r Hnodup Hr).
  destruct (membershipsOf db e) as [|m' ms] eqn:Hms; [inversion Hm|]. rewrite <- Hms in *.
  cbn [maybeSingle].
  assert (DetailRoute.hasAccess (scopesOf db e) r = true) as ->; [|reflexivity].
  unfold scopesOf. apply hasAccess_grants. exists m. auto.
Qed.

(** X10. Every shipment that can be opened passes the filter of the list:
    when the scopes of the caller are plain and the detail endpoint answers
    200, the shipment it returns is among the shipments the list endpoint
    selects for the same caller (before the cut at 300). *)
Theorem opened_shipment_is_selected_by_the_list env db req e shipmentId :
  Contract.ilike_plain →
  authenticated env db req e →
  forallb Contract.plain (scopesOf db e) = true →
  status (fst (run (DetailRoute.GET env req shipmentId) db)) = 200 →
  ∃ r events,
    fst (run (DetailRoute.GET env req shipmentId) db)
    = json {| DetailRoute.shipment := r; DetailRoute.events := events |}
    ∧ Shipments.shipment_id r = shipmentId
    ∧ r ∈ matchedFor db e.
Proof.
  intros Hilike Hauth Hplain. unfold run.
  rewrite (detail_GET_authenticated env db req e shipmentId [] Hauth).
  fold (run (DetailRoute.detailFor e shipmentId) db). rewrite detailFor_cases.
  destruct (outage db (SelectMemberships e)); [discriminate|].
  destruct (membershipsOf db e) as [|m ms] eqn:Hms; [discriminate|]. clear Hms.
  destruct (outage db (SelectShipment shipmentId)); [discriminate|].
  destruct (maybeSingle (shipmentsWithId db shipmentId)) as [[r|]|] eqn:Hsingle;
    [|discriminate..].
  destruct (DetailRoute.hasAccess (scopesOf db e) r) eqn:Hacc; [|discriminate].
  destruct (outage db (SelectEvents shipmentId)); [discriminate|]. intros _.
  exists r. eexists. split; [reflexivity|].
  apply maybeSingle_some in Hsingle.
  assert (r ∈ shipmentsWithId db shipmentId) as Hr by (rewrite Hsingle; left).
  apply list_elem_of_In, filter_In in Hr as [Hr Hid]. apply String.eqb_eq in Hid.
  split; [exact Hid|].
  unfold matchedFor, ListRoute.matching. apply list_elem_of_In, filter_In.
  split; [exact Hr|].
  apply (filter_grants db e r Hilike); [|exact Hplain|].
  - intros Hnil. rewrite Hnil in Hacc. discriminate.
  - unfold scopesOf in Hacc. apply hasAccess_grants in Hacc. exact Hacc.
Qed.

End Isolation.

(** * Further properties of the list page *)

Section Search.
Import ShipmentsPage SortSpec.
Variable dateTime : string → option Z.
Variable localeCompare : string → string → Z.

Lemma startsWith_trimEnd u : Js.startsWith u (Js.trimEnd u) = true.
Proof.
  induction u as [|c u IH]; [reflexivity|]. cbn [Js.trimEnd].
  destruct (Js.trimEnd u) as [|d t].
  - destruct (Js.is_space c); cbn [Js.startsWith]; [reflexivity|].
    rewrite Ascii.eqb_refl. destruct u; reflexivity.
  - cbn [Js.startsWith]. rewrite Ascii.eqb_refl. exact IH.
Qed.

Lemma includes_head w x : Js.startsWith w x = true → Js.includes w x = true.
Proof. intros Hx. destruct w; cbn [Js.includes]; rewrite Hx; reflexivity. Qed.

Lemma includes_tail c w x : Js.includes w x = true → Js.includes (String c w) x = true.
Proof. intros Hx. cbn [Js.includes]. rewrite Hx. apply orb_true_r. Qed.

(** A text contains what is left of it after trimming. *)
Lemma includes_trim w : Js.includes w (Js.trim w) = true.
Proof.
  unfold Js.trim. induction w as [|c w IH]; [reflexivity|]. cbn [Js.trimStart].
  destruct (Js.is_space c).
  - apply includes_tail, IH.
  - apply includes_head, startsWith_trimEnd.
Qed.

Lemma includes_own_text v : Js.includes (Js.toLowerCase v) (Js.toLowerCase (Js.trim v)) = true.
Proof. rewrite <- trim_toLowerCase. apply includes_trim. Qed.

Lemma query_of_nonempty v : Js.truthy (Some (Js.toLowerCase (Js.trim v))) = true → Js.truthy (Some v) = true.
Proof. destruct v; [discriminate | reflexivity]. Qed.

Lemma matchesQuery_field s (field : option string) v :
  field ∈ [hawb s; mawb s; po_number s; customer_reference s; Some (shipment_id s)] →
  field = Some v →
  Js.truthy (Some (Js.toLowerCase (Js.trim v))) = true →
  matchesQuery (Js.toLowerCase (Js.trim v)) s = true.
Proof.
  intros Hfield -> Hq. unfold matchesQuery. apply existsb_exists.
  exists (Some v). split.
  - apply filter_In. split; [apply list_elem_of_In, Hfield | apply query_of_nonempty, Hq].
  - apply includes_own_text.
Qed.

Lemma elem_of_filteredAndSorted rows query sortKey sortDir s :
  s ∈ filteredAndSorted dateTime localeCompare rows query sortKey sortDir
  ↔ s ∈ rows
    ∧ (Js.truthy (Some (Js.toLowerCase (Js.trim query))) = true →
       matchesQuery (Js.toLowerCase (Js.trim query)) s = true).
Proof.
  unfold filteredAndSorted. rewrite (sort_by_perm _ _).
  destruct (Js.truthy (Some (Js.toLowerCase (Js.trim query)))).
  - rewrite list_elem_of_In, filter_In, <- list_elem_of_In. tauto.
  - split; [intros Hs; split; [exact Hs | discriminate] | tauto].
Qed.

(** The reference of a row is one of the fields the search looks at. *)
Lemma getReference_field s :
  Some (getReference s)
  ∈ [hawb s; mawb s; po_number s; customer_reference s; Some (shipment_id s)].
Proof.
  unfold getReference, Js.or_else. apply list_elem_of_In.
  destruct (hawb s) as [h|], (mawb s) as [m|], (po_number s) as [p|]; cbn [Js.truthy];
    repeat match goal with
           | |- context [String.eqb ?x ""] => destruct (String.eqb x ""); cbn [negb Js.truthy]
           end;
    cbn; auto 10.
Qed.

(** X11. Searching for the reference a row is displayed under, or for
    its identifier, always keeps that row, whatever the sort. *)
Theorem search_finds_a_row_by_its_reference rows s sortKey sortDir :
  s ∈ rows →
  s ∈ filteredAndSorted dateTime localeCompare rows (getReference s) sortKey sortDir
  ∧ s ∈ filteredAndSorted dateTime localeCompare rows (shipment_id s) sortKey sortDir.
Proof.
  intros Hs. split; apply elem_of_filteredAndSorted; (split; [exact Hs|]); intros Hq.
  - apply (matchesQuery_field s (Some (getReference s)) (getReference s));
      [apply getReference_field | reflexivity | exact Hq].
  - apply (matchesQuery_field s (Some (shipment_id s)) (shipment_id s));
      [apply list_elem_of_In; cbn; auto 10 | reflexivity | exact Hq].
Qed.

(** X12. The rows shown are rows of the list and no more numerous, so
    that "Showing n of m" has n at most m; and a query that is blank after
    trimming keeps every row. *)
Theorem search_shows_rows_of_the_list rows query sortKey sortDir :
  (∀ s, s ∈ filteredAndSorted dateTime localeCompare rows query sortKey sortDir → s ∈ rows)
  ∧ length (filteredAndSorted dateTime localeCompare rows query sortKey sortDir) ≤ length rows
  ∧ (Js.trim query = ""%string →
     Permutation (filteredAndSorted dateTime localeCompare rows query sortKey sortDir) rows).
Proof.
  split; [|split].
  - intros s Hs. apply elem_of_filteredAndSorted in Hs as [Hs _]. exact Hs.
  - unfold filteredAndSorted. rewrite (Permutation_length (sort_by_perm _ _)).
    destruct (Js.truthy _); [apply filter_length_le | reflexivity].
  - intros Hblank. unfold filteredAndSorted. rewrite Hblank. apply sort_by_perm.
Qed.

Lemma lower_upper_char c : Js.lower_char (Js.upper_char c) = Js.lower_char c.
Proof. destruct c as [[] [] [] [] [] [] [] []]; reflexivity. Qed.

Lemma is_space_upper_char c : Js.is_space (Js.upper_char c) = Js.is_space c.
Proof. destruct c as [[] [] [] [] [] [] [] []]; reflexivity. Qed.

Lemma toLowerCase_toUpperCase s : Js.toLowerCase (Js.toUpperCase s) = Js.toLowerCase s.
Proof.
  induction s as [|c s IH]; [reflexivity|].
  cbn [Js.toLowerCase Js.toUpperCase Js.map_chars] in *. rewrite lower_upper_char, IH.
  reflexivity.
Qed.

Lemma trim_toUpperCase s : Js.trim (Js.toUpperCase s) = Js.toUpperCase (Js.trim s).
Proof.
  unfold Js.trim, Js.toUpperCase.
  rewrite trimStart_map_chars, trimEnd_map_chars by apply is_space_upper_char.
  reflexivity.
Qed.

(** X13. The search ignores the letter case of a query of ASCII
    characters: such a query and its uppercase or lowercase form show the
    same rows in the same order. *)
Theorem search_ignores_the_case_of_the_query rows query sortKey sortDir :
  Text.is_ascii query = true →
  filteredAndSorted dateTime localeCompare rows (Js.toUpperCase query) sortKey sortDir
  = filteredAndSorted dateTime localeCompare rows query sortKey sortDir
  ∧ filteredAndSorted dateTime localeCompare rows (Js.toLowerCase query) sortKey sortDir
    = filteredAndSorted dateTime localeCompare rows query sortKey sortDir.
Proof.
  intros _. unfold filteredAndSorted. split.
  - rewrite trim_toUpperCase, toLowerCase_toUpperCase. reflexivity.
  - rewrite trim_toLowerCase.
    assert (∀ t, Js.toLowerCase (Js.toLowerCase t) = Js.toLowerCase t) as Hidem.
    { intros t. rewrite <- (toLowerCase_toUpperCase (Js.toLowerCase t)).
      induction t as [|c t IH]; [reflexivity|].
      cbn [Js.toLowerCase Js.toUpperCase Js.map_chars] in *. rewrite IH.
      f_equal. destruct c as [[] [] [] [] [] [] [] []]; reflexivity. }
    rewrite Hidem, <- trim_toLowerCase. reflexivity.
Qed.

End Search.

Section SortOrder.
Import ShipmentsPage SortSpec CrossPage.
Variable dateTime : string → option Z.
Variable localeCompare : string → string → Z.

Lemma inOrder_dirMul sortDir x y : inOrder sortDir x y ↔ ((x - y) * dirMul sortDir ≤ 0)%Z.
Proof. destruct sortDir; cbn [inOrder dirMul]; lia. Qed.

Lemma insert_by_dateOrdered sortKey sortDir value x l :
  columnOf sortKey = DateColumn value →
  StronglySorted (dateOrdered dateTime sortDir value) l →
  StronglySorted (dateOrdered dateTime sortDir value)
    (insert_by (comparator dateTime localeCompare sortKey sortDir) x l).
Proof.
  intros Hcol. induction l as [|y l IH]; intros Hs; cbn [insert_by].
  - repeat constructor.
  - apply StronglySorted_inv in Hs as [Hs Hy].
    rewrite (comparator_date dateTime localeCompare _ sortDir _ x y Hcol).
    destruct (parseDateMs dateTime (value x)) as [tx|] eqn:Hx.
    + destruct (parseDateMs dateTime (value y)) as [ty|] eqn:Hty.
      * destruct (Z.ltb_spec ((tx - ty) * dirMul sortDir) 0) as [Hlt|Hge].
        -- constructor; [constructor; assumption|].
           constructor.
           ++ unfold dateOrdered. rewrite Hx, Hty. apply inOrder_dirMul. lia.
           ++ eapply Forall_impl; [exact Hy|]. intros z. unfold dateOrdered.
              rewrite Hx, Hty. destruct (parseDateMs dateTime (value z)); [|tauto].
              rewrite !inOrder_dirMul. destruct sortDir; cbn [dirMul] in *; lia.
        -- constructor; [apply IH, Hs|].
           eapply Permutation_Forall; [symmetry; apply insert_by_perm|].
           constructor; [|exact Hy].
           unfold dateOrdered. rewrite Hx, Hty. apply inOrder_dirMul.
           destruct sortDir; cbn [dirMul] in *; lia.
      * cbn. constructor; [constructor; assumption|].
        constructor; [unfold dateOrdered; rewrite Hx, Hty; exact I|].
        eapply Forall_impl; [exact Hy|]. intros z. unfold dateOrdered.
        rewrite Hx, Hty. destruct (parseDateMs dateTime (value z)); tauto.
    + cbn. constructor; [apply IH, Hs|].
      eapply Permutation_Forall; [symmetry; apply insert_by_perm|].
      constructor; [|exact Hy].
      unfold dateOrdered. rewrite Hx. destruct (parseDateMs dateTime (value y)); exact I.
Qed.

(** X14. Sorted by a date key, the rows are in the order of their
    timestamps: of two rows, the one shown first has the earlier timestamp
    when ascending and the later one when descending, both being dated, and
    is dated when the other is. *)
Theorem sort_orders_by_date rows query sortKey sortDir value :
  columnOf sortKey = DateColumn value →
  StronglySorted (dateOrdered dateTime sortDir value)
    (filteredAndSorted dateTime localeCompare rows query sortKey sortDir).
Proof.
  intros Hcol. unfold filteredAndSorted, sort_by.
  generalize (if Js.truthy (Some (Js.toLowerCase (Js.trim query)))
              then List.filter (matchesQuery (Js.toLowerCase (Js.trim query))) rows
              else rows) as l.
  intros l.
  enough (∀ acc, StronglySorted (dateOrdered dateTime sortDir value) acc →
                 StronglySorted (dateOrdered dateTime sortDir value)
                   (fold_left (fun acc x =>
                                 insert_by (comparator dateTime localeCompare sortKey sortDir)
                                   x acc) l acc))
    as Hgen by (apply Hgen; constructor).
  induction l as [|x l IH]; intros acc Hacc; cbn [fold_left]; [exact Hacc|].
  apply IH, insert_by_dateOrdered; assumption.
Qed.

Lemma leb_of_compare x y : String.compare x y ≠ Gt → String.leb x y = true.
Proof. unfold String.leb. destruct (String.compare x y); congruence. Qed.

Lemma leb_of_compare_flip x y : String.compare x y ≠ Lt → String.leb y x = true.
Proof.
  unfold String.leb. rewrite (String.compare_antisym y x).
  destruct (String.compare x y); cbn; congruence.
Qed.

Lemma insert_by_textOrdered sortKey sortDir value x l :
  lexicographic localeCompare →
  columnOf sortKey = TextColumn value →
  StronglySorted (textOrdered sortDir value) l →
  StronglySorted (textOrdered sortDir value)
    (insert_by (comparator dateTime localeCompare sortKey sortDir) x l).
Proof.
  intros Hlex Hcol. induction l as [|y l IH]; intros Hs; cbn [insert_by].
  - repeat constructor.
  - apply StronglySorted_inv in Hs as [Hs Hy].
    rewrite (comparator_text dateTime localeCompare _ sortDir _ x y Hcol).
    pose proof (Hlex (Js.toLowerCase (value x)) (Js.toLowerCase (value y))) as Hxy.
    assert (textOrdered sortDir value x y
            ∨ textOrdered sortDir value y x) as Htotal.
    { unfold textOrdered. destruct sortDir; cbn [inTextOrder].
      - apply String.leb_total.
      - destruct (String.leb_total (Js.toLowerCase (value x)) (Js.toLowerCase (value y)));
          auto. }
    destruct (Z.ltb_spec
                (localeCompare (Js.toLowerCase (value x)) (Js.toLowerCase (value y))
                 * dirMul sortDir) 0) as [Hlt|Hge].
    + assert (textOrdered sortDir value x y) as Hbefore.
      { unfold textOrdered.
        destruct sortDir; cbn [inTextOrder dirMul] in *;
          destruct (String.compare (Js.toLowerCase (value x)) (Js.toLowerCase (value y)))
            eqn:Hcmp; cbv beta iota in Hxy; try lia.
        - apply leb_of_compare. congruence.
        - apply leb_of_compare_flip. congruence. }
      constructor; [constructor; assumption|].
      constructor; [exact Hbefore|].
      eapply Forall_impl; [exact Hy|]. intros z. unfold textOrdered in *.
      destruct sortDir; cbn [inTextOrder] in *; intros Hyz.
      * eapply string_leb_trans; eassumption.
      * eapply string_leb_trans; eassumption.
    + constructor; [apply IH, Hs|].
      eapply Permutation_Forall; [symmetry; apply insert_by_perm|].
      constructor; [|exact Hy].
      unfold textOrdered.
      destruct sortDir; cbn [inTextOrder dirMul] in *;
        destruct (String.compare (Js.toLowerCase (value x)) (Js.toLowerCase (value y)))
          eqn:Hcmp; cbv beta iota in Hxy; try lia.
      * apply leb_of_compare_flip. congruence.
      * apply leb_of_compare_flip. congruence.
      * apply leb_of_compare. congruence.
      * apply leb_of_compare. congruence.
Qed.

(** X15. Sorted by a text key on a host whose collation is lexicographic,
    the rows are in the lexicographic order of their lowercased texts,
    ascending or descending as the direction says. *)
Theorem sort_orders_by_text rows query sortKey sortDir value :
  lexicographic localeCompare →
  columnOf sortKey = TextColumn value →
  StronglySorted (textOrdered sortDir value)
    (filteredAndSorted dateTime localeCompare rows query sortKey sortDir).
Proof.
  intros Hlex Hcol. unfold filteredAndSorted, sort_by.
  generalize (if Js.truthy (Some (Js.toLowerCase (Js.trim query)))
              then List.filter (matchesQuery (Js.toLowerCase (Js.trim query))) rows
              else rows) as l.
  intros l.
  enough (∀ acc, StronglySorted (textOrdered sortDir value) acc →
                 StronglySorted (textOrdered sortDir value)
                   (fold_left (fun acc x =>
                                 insert_by (comparator dateTime localeCompare sortKey sortDir)
                                   x acc) l acc))
    as Hgen by (apply Hgen; constructor).
  induction l as [|x l IH]; intros acc Hacc; cbn [fold_left]; [exact Hacc|].
  apply IH, insert_by_textOrdered; assumption.
Qed.

End SortOrder.

(** ** The sort against the collation of the host *)

Section Collated.
Import ShipmentsPage SortSpec CrossPage Collation.
Variable dateTime : string → option Z.
Variable localeCompare : string → string → Z.

Lemma collated_trans sortDir value a b c :
  consistent localeCompare →
  collated localeCompare sortDir value a b →
  collated localeCompare sortDir value b c →
  collated localeCompare sortDir value a c.
Proof.
  intros [Hsign Htrans]. unfold collated.
  set (x := Js.toLowerCase (value a)). set (y := Js.toLowerCase (value b)).
  set (z := Js.toLowerCase (value c)).
  pose proof (Hsign x y). pose proof (Hsign y z). pose proof (Hsign x z).
  pose proof (Htrans x y z). pose proof (Htrans z y x).
  destruct sortDir; cbn [dirMul]; lia.
Qed.

Lemma collated_flip sortDir value a b :
  consistent localeCompare →
  ¬ (localeCompare (Js.toLowerCase (value a)) (Js.toLowerCase (value b)) * dirMul sortDir < 0)%Z →
  collated localeCompare sortDir value b a.
Proof.
  intros [Hsign _]. unfold collated.
  set (x := Js.toLowerCase (value a)). set (y := Js.toLowerCase (value b)).
  pose proof (Hsign x y). pose proof (Hsign y x).
  destruct sortDir; cbn [dirMul]; lia.
Qed.

Lemma insert_by_collated sortKey sortDir value x l :
  consistent localeCompare →
  columnOf sortKey = TextColumn value →
  StronglySorted (collated localeCompare sortDir value) l →
  StronglySorted (collated localeCompare sortDir value)
    (insert_by (comparator dateTime localeCompare sortKey sortDir) x l).
Proof.
  intros Hcons Hcol. induction l as [|y l IH]; intros Hs; cbn [insert_by].
  - repeat constructor.
  - apply StronglySorted_inv in Hs as [Hs Hy].
    rewrite (comparator_text dateTime localeCompare _ sortDir _ x y Hcol).
    destruct (Z.ltb_spec
                (localeCompare (Js.toLowerCase (value x)) (Js.toLowerCase (value y))
                 * dirMul sortDir) 0) as [Hlt|Hge].
    + assert (collated localeCompare sortDir value x y) as Hbefore
        by (unfold collated; lia).
      constructor; [constructor; assumption|].
      constructor; [exact Hbefore|].
      eapply Forall_impl; [exact Hy|]. intros z Hyz. cbn beta in Hyz.
      eapply collated_trans; eassumption.
    + constructor; [apply IH, Hs|].
      eapply Permutation_Forall; [symmetry; apply insert_by_perm|].
      constructor; [|exact Hy].
      apply collated_flip; [exact Hcons | lia].
Qed.

(** A sort is in an order every insertion keeps. *)
Lemma filteredAndSorted_sorted (R : Shipment → Shipment → Prop) rows query sortKey sortDir :
  (∀ x l, StronglySorted R l →
          StronglySorted R (insert_by (comparator dateTime localeCompare sortKey sortDir) x l)) →
  StronglySorted R (filteredAndSorted dateTime localeCompare rows query sortKey sortDir).
Proof.
  intros Hinsert. unfold filteredAndSorted, sort_by.
  generalize (if Js.truthy (Some (Js.toLowerCase (Js.trim query)))
              then List.filter (matchesQuery (Js.toLowerCase (Js.trim query))) rows
              else rows) as l.
  intros l.
  enough (∀ acc, StronglySorted R acc →
                 StronglySorted R
                   (fold_left (fun acc x =>
                                 insert_by (comparator dateTime localeCompare sortKey sortDir)
                                   x acc) l acc))
    as Hgen by (apply Hgen; constructor).
  induction l as [|x l IH]; intros acc Hacc; cbn [fold_left]; [exact Hacc|].
  apply IH, Hinsert, Hacc.
Qed.

(** C9, as the page has it. Under a date key the comparator subtracts the
    parsed timestamps and applies the direction, and a row whose date is
    absent or does not parse compares as coming after, whatever the
    direction; under a text key it applies the direction to what the host's
    [localeCompare] answers on the lowercased strings. The sorted list has
    the rows of the filtered list: under a date key in the order of their
    timestamps, the undated rows behind all the dated ones in both
    directions; under a text key in the order of the host's collation, which
    is the lexicographic order where the host's collation is. *)
Theorem sort_comparator_dates_numeric_text_by_host_collation :
  (∀ sortKey sortDir a b,
     match columnOf sortKey with
     | DateColumn value =>
         match parseDateMs dateTime (value a), parseDateMs dateTime (value b) with
         | Some x, Some y => comparator dateTime localeCompare sortKey sortDir a b = ((x - y) * dirMul sortDir)%Z
         | Some _, None => comparator dateTime localeCompare sortKey sortDir a b = (-1)%Z
         | None, _ => comparator dateTime localeCompare sortKey sortDir a b = 1%Z
         end
     | TextColumn value =>
         comparator dateTime localeCompare sortKey sortDir a b
         = (localeCompare (Js.toLowerCase (value a)) (Js.toLowerCase (value b))
            * dirMul sortDir)%Z
     end)
  ∧ (∀ v, parseDateMs dateTime v = None
          ↔ v = None ∨ v = Some ""%string ∨ ∃ t, v = Some t ∧ dateTime t = None)
  ∧ (∀ rows query sortKey sortDir,
       undated_last dateTime sortKey
         (filteredAndSorted dateTime localeCompare rows query sortKey sortDir)
       ∧ ∃ kept, Permutation
                   (filteredAndSorted dateTime localeCompare rows query sortKey sortDir) kept
                 ∧ (kept = rows ∨ ∃ q, kept = List.filter (matchesQuery q) rows))
  ∧ (∀ rows query sortKey sortDir value,
       columnOf sortKey = DateColumn value →
       StronglySorted (dateOrdered dateTime sortDir value)
         (filteredAndSorted dateTime localeCompare rows query sortKey sortDir))
  ∧ (consistent localeCompare →
     ∀ rows query sortKey sortDir value,
       columnOf sortKey = TextColumn value →
       StronglySorted (collated localeCompare sortDir value)
         (filteredAndSorted dateTime localeCompare rows query sortKey sortDir))
  ∧ (lexicographic localeCompare →
     ∀ sortKey value a b,
       columnOf sortKey = TextColumn value →
       ((comparator dateTime localeCompare sortKey asc a b < 0)%Z
        ↔ String.ltb (Js.toLowerCase (value a)) (Js.toLowerCase (value b)) = true)
       ∧ ((comparator dateTime localeCompare sortKey desc a b < 0)%Z
          ↔ String.ltb (Js.toLowerCase (value b)) (Js.toLowerCase (value a)) = true)).
Proof.
  split; [|split; [apply parseDateMs_unparsable|split; [|split; [|split]]]].
  - intros sortKey sortDir a b. destruct (columnOf sortKey) as [value|value] eqn:Hcol.
    + rewrite (comparator_date _ _ _ _ _ _ _ Hcol).
      destruct (parseDateMs dateTime (value a)), (parseDateMs dateTime (value b)); reflexivity.
    + apply comparator_text, Hcol.
  - intros rows query sortKey sortDir. unfold filteredAndSorted.
    split; [apply sort_by_undated_last|].
    eexists. split; [apply sort_by_perm|].
    destruct (Js.truthy _); [right; eexists; reflexivity | left; reflexivity].
  - intros rows query sortKey sortDir value Hcol. apply filteredAndSorted_sorted.
    intros x l. apply insert_by_dateOrdered, Hcol.
  - intros Hcons rows query sortKey sortDir value Hcol. apply filteredAndSorted_sorted.
    intros x l. apply insert_by_collated; assumption.
  - intros Hlex sortKey value a b Hcol.
    rewrite !(comparator_text _ _ _ _ _ _ _ Hcol). cbn [dirMul]. unfold String.ltb.
    pose proof (Hlex (Js.toLowerCase (value a)) (Js.toLowerCase (value b))) as Hab.
    rewrite (String.compare_antisym (Js.toLowerCase (value b))).
    destruct (String.compare (Js.toLowerCase (value a)) (Js.toLowerCase (value b)));
      cbn [CompOpp]; split; split; intros Hlt; try discriminate; try reflexivity; lia.
Qed.

End Collated.

Lemma lexCompare_consistent : Collation.consistent SortSpec.lexCompare.
Proof.
  split.
  - intros x y. unfold SortSpec.lexCompare. rewrite (String.compare_antisym y x).
    destruct (String.compare x y); cbn [CompOpp]; lia.
  - intros x y z Hxy Hyz.
    assert (∀ a b, (SortSpec.lexCompare a b ≤ 0)%Z ↔ String.leb a b = true) as Hleb.
    { intros a b. unfold SortSpec.lexCompare, String.leb.
      destruct (String.compare a b); split; intros; try reflexivity; try discriminate; lia. }
    apply Hleb. apply Hleb in Hxy, Hyz. eapply string_leb_trans; eassumption.
Qed.

Lemma punctuationFirst_consistent : Collation.consistent Collation.punctuationFirst.
Proof.
  destruct lexCompare_consistent as [Hsign Htrans]. unfold Collation.punctuationFirst.
  split.
  - intros x y. apply Hsign.
  - intros x y z. apply Htrans.
Qed.

(** C9, as the specification has it, fails on a host whose collation is
    not the lexicographic order of the characters: where punctuation collates
    before digits, "WPL_1" is sorted before "WPL1" although "wpl1" is the
    lexicographically smaller of the lowercased references. *)
Lemma text_sort_follows_the_host_not_the_characters :
  (ShipmentsPage.comparator SortSpec.decimalTime Collation.punctuationFirst
     ShipmentsPage.reference ShipmentsPage.asc
     (SortSpec.row "WPL_1" None) (SortSpec.row "WPL1" None) <? 0)%Z = true
  ∧ String.ltb (Js.toLowerCase (ShipmentsPage.getReference (SortSpec.row "WPL_1" None)))
      (Js.toLowerCase (ShipmentsPage.getReference (SortSpec.row "WPL1" None))) = false
  ∧ String.ltb (Js.toLowerCase (ShipmentsPage.getReference (SortSpec.row "WPL1" None)))
      (Js.toLowerCase (ShipmentsPage.getReference (SortSpec.row "WPL_1" None))) = true
  ∧ ShipmentsPage.filteredAndSorted SortSpec.decimalTime Collation.punctuationFirst
      [SortSpec.row "WPL1" None; SortSpec.row "WPL_1" None]
      "" ShipmentsPage.reference ShipmentsPage.asc
    = [SortSpec.row "WPL_1" None; SortSpec.row "WPL1" None]
  ∧ ShipmentsPage.filteredAndSorted SortSpec.decimalTime SortSpec.lexCompare
      [SortSpec.row "WPL1" None; SortSpec.row "WPL_1" None]
      "" ShipmentsPage.reference ShipmentsPage.asc
    = [SortSpec.row "WPL1" None; SortSpec.row "WPL_1" None].
Proof. repeat split; vm_compute; reflexivity. Qed.

Lemma sort_comparator_dates_numeric_text_by_host_collation_witness :
  Collation.consistent Collation.punctuationFirst
  ∧ SortSpec.columnOf ShipmentsPage.reference = SortSpec.TextColumn ShipmentsPage.getReference
  ∧ StronglySorted
      (Collation.collated Collation.punctuationFirst ShipmentsPage.desc
         ShipmentsPage.getReference)
      (ShipmentsPage.filteredAndSorted SortSpec.decimalTime Collation.punctuationFirst
         [SortSpec.row "WPL1" None; SortSpec.row "wpl_1" None; SortSpec.row "Wpl2" None]
         "" ShipmentsPage.reference ShipmentsPage.desc)
  ∧ ShipmentsPage.filteredAndSorted SortSpec.decimalTime Collation.punctuationFirst
      [SortSpec.row "WPL1" None; SortSpec.row "wpl_1" None; SortSpec.row "Wpl2" None]
      "" ShipmentsPage.reference ShipmentsPage.desc
    = [SortSpec.row "Wpl2" None; SortSpec.row "WPL1" None; SortSpec.row "wpl_1" None]
  ∧ ShipmentsPage.filteredAndSorted SortSpec.decimalTime Collation.punctuationFirst
      [SortSpec.row "S1" None; SortSpec.row "S2" (Some "1700"); SortSpec.row "S3" (Some "soon");
       SortSpec.row "S4" (Some "1800")]
      "" ShipmentsPage.key_eta_updated ShipmentsPage.asc
    = [SortSpec.row "S2" (Some "1700"); SortSpec.row "S4" (Some "1800"); SortSpec.row "S1" None;
       SortSpec.row "S3" (Some "soon")]
  ∧ ShipmentsPage.filteredAndSorted SortSpec.decimalTime Collation.punctuationFirst
      [SortSpec.row "S1" None; SortSpec.row "S2" (Some "1700"); SortSpec.row "S3" (Some "soon");
       SortSpec.row "S4" (Some "1800")]
      "" ShipmentsPage.key_eta_updated ShipmentsPage.desc
    = [SortSpec.row "S4" (Some "1800"); SortSpec.row "S2" (Some "1700"); SortSpec.row "S1" None;
       SortSpec.row "S3" (Some "soon")].
Proof.
  split; [exact punctuationFirst_consistent|]. split; [reflexivity|].
  split.
  - destruct (sort_comparator_dates_numeric_text_by_host_collation SortSpec.decimalTime
                Collation.punctuationFirst) as (_ & _ & _ & _ & Htext & _).
    apply (Htext punctuationFirst_consistent). reflexivity.
  - repeat split; vm_compute; reflexivity.
Defined.

(** * Further properties of the detail page *)

Section Progress.
Import DetailPage MilestoneSpec DetailView.

Lemma elem_of_codeSet (c : string) events :
  c ∈ codeSet events ↔ c ≠ ""%string ∧ ∃ e, e ∈ events ∧ normalized e = c.
Proof.
  unfold codeSet. rewrite elem_of_list_to_set, list_elem_of_In, filter_In, in_map_iff.
  cbn [Js.truthy]. rewrite negb_true_iff, String.eqb_neq.
  split.
  - intros [(e & He & Hin) Hne]. split; [exact Hne|]. exists e.
    split; [apply list_elem_of_In, Hin | exact He].
  - intros [Hne (e & Hin & He)]. split; [|exact Hne]. exists e.
    split; [exact He | apply list_elem_of_In, Hin].
Qed.

Lemma reachedAt_mono (codes codes' : gset string) i :
  codes ⊆ codes' → reachedAt codes i = true → reachedAt codes' i = true.
Proof.
  intros Hsub. unfold reachedAt, reached. destruct (MILESTONES !! i) as [m|]; [|discriminate].
  rewrite !existsb_exists. intros (c & Hc & Hin). exists c. split; [exact Hc|].
  apply bool_decide_eq_true. apply bool_decide_eq_true in Hin. apply Hsub, Hin.
Qed.

Lemma scan_mono (codes codes' : gset string) :
  codes ⊆ codes' → scan codes (length MILESTONES) ≤ scan codes' (length MILESTONES).
Proof.
  intros Hsub. destruct (scan_reached_or_none codes (length MILESTONES)) as [Hr|[-> _]]; [|lia].
  apply (scan_furthest codes' (length MILESTONES)).
  - apply reachedAt_range with codes. exact Hr.
  - apply (reachedAt_mono codes codes' _ Hsub Hr).
Qed.

Lemma inferMilestoneIndex_scan_le (events events' : list EventRow) :
  (∀ e, e ∈ events → e ∈ events') →
  inferMilestoneIndex events ≤ inferMilestoneIndex events'.
Proof.
  intros Hsub. rewrite !inferMilestoneIndex_scan. apply scan_mono.
  intros c. rewrite !elem_of_codeSet. intros [Hne (e & He & Hc)].
  split; [exact Hne|]. exists e. split; [apply Hsub, He | exact Hc].
Qed.

Lemma inferMilestoneIndex_same_events (events events' : list EventRow) :
  (∀ e, e ∈ events ↔ e ∈ events') →
  inferMilestoneIndex events = inferMilestoneIndex events'.
Proof.
  intros Hsame. apply Nat.le_antisymm; apply inferMilestoneIndex_scan_le; intros e He;
    apply Hsame, He.
Qed.

(** X16. The milestone index never goes back when events arrive: if every
    event of one list is in another, the index of the other is at least that
    of the first. *)
Theorem inferMilestoneIndex_never_regresses (events events' : list EventRow) :
  (∀ e, e ∈ events → e ∈ events') →
  inferMilestoneIndex events ≤ inferMilestoneIndex events'.
Proof. apply inferMilestoneIndex_scan_le. Qed.

(** X17. The milestone index depends on the set of events only: neither
    their order nor their repetition changes it, so the progress shown does
    not depend on the order in which the endpoint returns the events. *)
Theorem inferMilestoneIndex_order_and_repetition (events events' : list EventRow) :
  (∀ e, e ∈ events ↔ e ∈ events') →
  inferMilestoneIndex events = inferMilestoneIndex events'.
Proof. apply inferMilestoneIndex_same_events. Qed.

(** X18. The progress bar drawn for the events of a shipment has exactly
    one current dot, the dots before it done and the dots after it pending;
    the connectors before the current dot are filled and the others not,
    with none after the last dot; and the label of the current dot, and no
    other, is emphasised. *)
Theorem progress_bar_of_events (events : list EventRow) :
  List.map fst (fst (ProgressBar (inferMilestoneIndex events)))
  = replicate (inferMilestoneIndex events) Done
    ++ Current :: replicate (7 - inferMilestoneIndex events) Pending
  ∧ List.map snd (fst (ProgressBar (inferMilestoneIndex events)))
    = replicate (inferMilestoneIndex events) (Some true)
      ++ replicate (7 - inferMilestoneIndex events) (Some false) ++ [None]
  ∧ List.map snd (snd (ProgressBar (inferMilestoneIndex events)))
    = replicate (inferMilestoneIndex events) false
      ++ true :: replicate (7 - inferMilestoneIndex events) false.
Proof.
  assert (inferMilestoneIndex events ≤ 7) as Hbound.
  { rewrite inferMilestoneIndex_scan. apply (scan_bound (codeSet events) 8). }
  revert Hbound. generalize (inferMilestoneIndex events) as i. intros i Hbound.
  do 8 (destruct i as [|i]; [repeat split|]). lia.
Qed.

(** X19. The two pages agree on an event: when the normalized code of an
    event is the code of milestone [i], the list page derives from that code,
    whatever the raw status text, the status of the stage of milestone [i]
    (Pre-Departure up to Cargo Received, then In Transit, Discharged, Customs
    Released and Delivered). *)
Theorem list_status_agrees_with_milestone (e : EventRow) (i : nat)
    (current_status : option string) :
  ordinalOf e i = true →
  ShipmentsPage.deriveStatus (StatusSpec.shipmentWith (event_code e) current_status)
  = CrossPage.statusOfMilestone i.
Proof.
  intros Hi. apply ordinalOf_codes in Hi. rewrite deriveStatus_canonical.
  unfold StatusSpec.canonical, StatusSpec.eventCode.
  cbn [StatusSpec.shipmentWith ShipmentsPage.latest_event_code].
  change (Js.trim (Js.toUpperCase (Js.nullish (event_code e) ""))) with (normalized e).
  do 8 (destruct i as [|i]; [injection Hi as <-; reflexivity|]).
  discriminate Hi.
Qed.

End Progress.

(** * The pages against the endpoints *)

Section Pages.
Import Supabase Access CrossPage.
Context `{Engine}.

(** X20. What the list page makes of the list endpoint: it sends to the
    login page exactly when the endpoint does not authenticate the session's
    token (the environment being complete); otherwise it shows the data and the
    email of a 200 response, and shows an empty list with no email when the
    endpoint answers 500. *)
Theorem list_page_shows_what_the_endpoint_returns env db session :
  match ShipmentsView.load (Some session) (listApi env db) with
  | ShipmentsView.Redirected href =>
      href = "/login"%string
      ∧ env_missing env = false
      ∧ ∀ e, ¬ authenticated env db (requestOf session) e
  | ShipmentsView.Shown rows email =>
      body (listApi env db (requestOf session))
      = Json {| ListRoute.data := rows; ListRoute.email := email |}
      ∨ (rows = [] ∧ email = ""%string ∧ status (listApi env db (requestOf session)) = 500)
  end.
Proof.
  unfold ShipmentsView.load. fold (requestOf session). unfold listApi.
  destruct (authenticated_or_not env db (requestOf session)) as [[e He]|(Hnot & Hlist & _)].
  - unfold run. rewrite (list_GET_authenticated env db _ e [] He).
    fold (run (ListRoute.listFor e) db). rewrite listFor_cases.
    destruct (outage db (SelectMemberships e)); [right; auto|].
    destruct (scopesOf db e); [left; reflexivity|].
    destruct (outage db (SelectShipments _)); [right; auto | left; reflexivity].
  - rewrite Hlist. destruct (env_missing env); cbn; auto.
Qed.

(** X21. What the detail page makes of the detail endpoint: it sends to
    the login page exactly when the endpoint does not authenticate the token;
    it shows the message of a 403, 404 or 500 answer (a fixed message when
    that one is empty); and from a 200 answer it shows the shipment, with a
    milestone index that is the one of the events the table holds for the
    identifier, in whatever order they were returned. *)
Theorem detail_page_shows_what_the_endpoint_returns env db session shipmentId :
  match DetailView.load (Some session) (detailApi env db shipmentId) with
  | DetailView.Redirected href =>
      href = "/login"%string
      ∧ env_missing env = false
      ∧ ∀ e, ¬ authenticated env db (requestOf session) e
  | DetailView.Failed error =>
      ∃ message,
        body (detailApi env db shipmentId (requestOf session)) = Error message
        ∧ error = (if String.eqb message "" then "Unable to load shipment" else message)
  | DetailView.Shown shipment events =>
      ∃ r,
        shipment = Some r
        ∧ body (detailApi env db shipmentId (requestOf session))
          = Json {| DetailRoute.shipment := r; DetailRoute.events := events |}
        ∧ DetailPage.inferMilestoneIndex events
          = DetailPage.inferMilestoneIndex
              (List.map DetailRoute.selected (ListRoute.eventsOf shipmentId db))
  end.
Proof.
  assert (∀ message code,
            code = 403 ∨ code = 404 ∨ code = 500 →
            match (if code =? 401 then DetailView.Redirected "/login"
                   else if negb (DetailView.ok (@fail DetailRoute.Payload message code))
                   then DetailView.Failed
                          (Js.nullish (Js.or_else (Some message)
                                         (Some "Unable to load shipment"%string)) "")
                   else DetailView.Shown None []) with
            | DetailView.Failed error =>
                error = (if String.eqb message "" then "Unable to load shipment"%string
                         else message)
            | _ => False
            end) as Hfailed.
  { intros message code Hcode. destruct Hcode as [Hc|[Hc|Hc]]; subst code; cbn;
      unfold Js.or_else; cbn [Js.truthy]; destruct (String.eqb message ""); reflexivity. }
  assert (∀ message code,
            code = 403 ∨ code = 404 ∨ code = 500 →
            match DetailView.load (Some session) (fun _ => fail message code) with
            | DetailView.Failed error =>
                ∃ message',
                  body (@fail DetailRoute.Payload message code) = Error message'
                  ∧ error = (if String.eqb message' "" then "Unable to load shipment"%string
                             else message')
            | _ => False
            end) as Hload.
  { intros message code Hcode. specialize (Hfailed message code Hcode).
    unfold DetailView.load. cbn [status body fail DetailView.error_of] in *.
    destruct (code =? 401); [destruct Hfailed|].
    destruct (negb (DetailView.ok (fail message code))); [|destruct Hfailed].
    exists message. split; [reflexivity | exact Hfailed]. }
  unfold detailApi.
  destruct (authenticated_or_not env db (requestOf session)) as [[e He]|(Hnot & _ & Hdetail)].
  - assert (run (DetailRoute.GET env (requestOf session) shipmentId) db
            = run (DetailRoute.detailFor e shipmentId) db) as Hrun.
    { unfold run. apply detail_GET_authenticated, He. }
    unfold DetailView.load. fold (requestOf session). rewrite Hrun, detailFor_cases.
    destruct (outage db (SelectMemberships e)) as [message|];
      [apply (Hload message 500); auto|].
    destruct (membershipsOf db e) as [|m ms];
      [apply (Hload "No customer access"%string 403); auto|].
    destruct (outage db (SelectShipment shipmentId)) as [message|];
      [apply (Hload message 500); auto|].
    destruct (maybeSingle (shipmentsWithId db shipmentId)) as [[r|]|message];
      [|apply (Hload "Shipment not found"%string 404); auto
       |apply (Hload message 500); auto].
    destruct (DetailRoute.hasAccess (scopesOf db e) r);
      [|apply (Hload "You don't have access to this shipment"%string 403); auto].
    destruct (outage db (SelectEvents shipmentId)) as [message|];
      [apply (Hload message 500); auto|].
    cbn. exists r. split; [reflexivity|]. split; [reflexivity|].
    apply inferMilestoneIndex_same_events. intros ev.
    rewrite (Permutation_map DetailRoute.selected
               (order_desc_perm Events.event_time (ListRoute.eventsOf shipmentId db))).
    reflexivity.
  - unfold DetailView.load. fold (requestOf session). rewrite Hdetail.
    destruct (env_missing env).
    + apply (Hload "Server env missing"%string 500). auto.
    + cbn. auto.
Qed.

End Pages.

(** * The sign-in callback *)

Section Callback.
Import AuthCallback.
Context {Store : Type} (auth : Auth Store).
Variable searchParams : string → string → option string.

Lemma finalCheck_outcome cleaned calls st :
  (href (finalCheck auth cleaned calls st) = "/login"%string
   ∨ (href (finalCheck auth cleaned calls st) = "/shipments"%string
      ∧ ∃ session,
          getSession auth st
          = (Returned (Some session), store (finalCheck auth cleaned calls st))))
  ∧ AuthCallback.calls (finalCheck auth cleaned calls st) = calls ++ [GetSession]
  ∧ AuthCallback.cleaned (finalCheck auth cleaned calls st) = cleaned.
Proof.
  unfold finalCheck. destruct (getSession auth st) as [[[session|]|] st'] eqn:Hget; cbn.
  - split; [right; split; [reflexivity | exists session; reflexivity] | auto].
  - auto.
  - auto.
Qed.

(** X22. The callback never lets a browser into the shipments without a
    session: it always ends on the login page or on the shipments, and on the
    shipments only when its last call was a [getSession] that returned a
    session. It makes three calls at most, stops at the login page after the
    one call when the code cannot be exchanged, and rewrites the URL only
    after a [setSession] it made. *)
Theorem callback_needs_a_session code hash st :
  (href (CallbackHandler auth searchParams code hash st) = "/login"%string
   ∨ (href (CallbackHandler auth searchParams code hash st) = "/shipments"%string
      ∧ ∃ earlier st' session,
          calls (CallbackHandler auth searchParams code hash st) = earlier ++ [GetSession]
          ∧ getSession auth st'
            = (Returned (Some session),
               store (CallbackHandler auth searchParams code hash st))))
  ∧ length (calls (CallbackHandler auth searchParams code hash st)) ≤ 3
  ∧ (cleaned (CallbackHandler auth searchParams code hash st) = true →
     ∃ a r, SetSession a r ∈ calls (CallbackHandler auth searchParams code hash st))
  ∧ (∀ c error st',
       code = Some c → c ≠ ""%string →
       exchangeCodeForSession auth c st = (Returned (Some error), st') →
       CallbackHandler auth searchParams code hash st
       = {| href := "/login"; cleaned := false; calls := [ExchangeCodeForSession c];
            store := st' |}).
Proof.
  assert (∀ calls0 st0, length calls0 ≤ 1 →
            (∀ a r, SetSession a r ∉ calls0) →
            (href (hashFlow auth searchParams hash calls0 st0) = "/login"%string
             ∨ (href (hashFlow auth searchParams hash calls0 st0) = "/shipments"%string
                ∧ ∃ earlier st' session,
                    calls (hashFlow auth searchParams hash calls0 st0) = earlier ++ [GetSession]
                    ∧ getSession auth st'
                      = (Returned (Some session),
                         store (hashFlow auth searchParams hash calls0 st0))))
            ∧ length (calls (hashFlow auth searchParams hash calls0 st0)) ≤ 3
            ∧ (cleaned (hashFlow auth searchParams hash calls0 st0) = true →
               ∃ a r, SetSession a r ∈ calls (hashFlow auth searchParams hash calls0 st0)))
    as Hflow.
  { intros calls0 st0 Hlen Hnone. unfold hashFlow.
    destruct (Js.truthy (searchParams (hashText hash) "error")).
    - destruct (getSession auth st0) as [[[session|]|] st'] eqn:Hget; cbn;
        rewrite ?length_app; cbn; (split; [|split; [lia | discriminate]]); auto.
      right. split; [reflexivity|]. exists calls0, st0, session. auto.
    - destruct (Js.truthy (searchParams (hashText hash) "access_token")
                && Js.truthy (searchParams (hashText hash) "refresh_token")).
      + set (a := Js.nullish (searchParams (hashText hash) "access_token") "").
        set (r := Js.nullish (searchParams (hashText hash) "refresh_token") "").
        destruct (setSession auth a r st0) as [[[error|]|] st1] eqn:Hset.
        * cbn. rewrite length_app. cbn. split; [auto | split; [lia | discriminate]].
        * destruct (finalCheck_outcome true (calls0 ++ [SetSession a r]) st1)
            as (Hhref & Hcalls & Hcleaned).
          rewrite Hcalls, !length_app. cbn. split; [|split; [lia|]].
          -- destruct Hhref as [Hlogin|[Hshipments (session & Hget)]]; [auto|].
             right. split; [exact Hshipments|]. eauto.
          -- intros _. exists a, r. apply elem_of_app. left. apply elem_of_app. right. left.
        * cbn. rewrite length_app. cbn. split; [auto | split; [lia | discriminate]].
      + destruct (finalCheck_outcome false calls0 st0) as (Hhref & Hcalls & Hcleaned).
        rewrite Hcalls, Hcleaned, length_app. cbn. split; [|split; [lia | discriminate]].
        destruct Hhref as [Hlogin|[Hshipments (session & Hget)]]; [auto|].
        right. split; [exact Hshipments|]. eauto. }
  unfold CallbackHandler.
  destruct (Js.truthy code) eqn:Hcode.
  - set (c := Js.nullish code "").
    destruct (exchangeCodeForSession auth c st) as [[[error|]|] st1] eqn:Hexchange.
    + cbn. split; [auto|]. split; [lia|]. split; [discriminate|].
      intros c' error' st' -> _ Hex. cbn in c. subst c. rewrite Hexchange in Hex.
      injection Hex as -> ->. reflexivity.
    + destruct (Hflow [ExchangeCodeForSession c] st1) as (Hhref & Hlen & Hclean).
      { cbn. lia. }
      { intros a r Hin. apply list_elem_of_singleton in Hin. discriminate. }
      split; [exact Hhref|]. split; [exact Hlen|]. split; [exact Hclean|].
      intros c' error' st' -> _ Hex. cbn in c. subst c. rewrite Hexchange in Hex.
      discriminate.
    + cbn. split; [auto|]. split; [lia|]. split; [discriminate|].
      intros c' error' st' -> _ Hex. cbn in c. subst c. rewrite Hexchange in Hex.
      discriminate.
  - destruct (Hflow [] st) as (Hhref & Hlen & Hclean).
    { cbn. lia. }
    { intros a r Hin. inversion Hin. }
    split; [exact Hhref|]. split; [exact Hlen|]. split; [exact Hclean|].
    intros c error st' -> Hne _. cbn [Js.truthy] in Hcode.
    apply String.eqb_neq in Hne. rewrite Hne in Hcode. discriminate.
Qed.

End Callback.

(** * The sort control *)

Section SortControl.
Import ShipmentsPage ShipmentsView.

(** X23. A click on a header makes its key the sort key. A second click on
    the same header reverses the direction and a third restores it, so that
    two clicks on a header give back the state exactly when that header was
    the active one; a click on another header starts ascending for the text
    keys and descending for the date keys. *)
Theorem toggleSort_clicks nextKey st :
  sortKey (toggleSort nextKey st) = nextKey
  ∧ (toggleSort nextKey (toggleSort nextKey st) = st ↔ sortKey st = nextKey)
  ∧ toggleSort nextKey (toggleSort nextKey (toggleSort nextKey st)) = toggleSort nextKey st
  ∧ sortDir (toggleSort nextKey (toggleSort nextKey st))
    ≠ sortDir (toggleSort nextKey st)
  ∧ (sortKey st ≠ nextKey →
     sortDir (toggleSort nextKey st)
     = match SortSpec.columnOf nextKey with
       | SortSpec.TextColumn _ => asc
       | SortSpec.DateColumn _ => desc
       end).
Proof.
  destruct st as [k d]. unfold toggleSort. cbn [sortKey sortDir].
  destruct nextKey, k, d; cbn; repeat split; try congruence; try discriminate;
    intros; congruence.
Qed.

Lemma toggleSort_clicks_witness :
  sortKey initialSort ≠ reference
  ∧ sortDir (toggleSort reference initialSort) = asc
  ∧ toggleSort key_last_event_time (toggleSort key_last_event_time initialSort) = initialSort.
Proof.
  destruct (toggleSort_clicks reference initialSort) as (_ & _ & _ & _ & Hother).
  destruct (toggleSort_clicks key_last_event_time initialSort) as (_ & [_ Hsame] & _).
  split; [discriminate|]. split; [apply Hother; discriminate | apply Hsame; reflexivity].
Defined.

End SortControl.

(** * Instances *)

Lemma no_read_before_authentication_witness :
  (∀ e, ¬ Access.authenticated Sample.env Sample.member_of_acme Sample2.anonymous e)
  ∧ Supabase.run (ListRoute.GET Sample.env Sample2.anonymous) Sample.member_of_acme
    = (Supabase.fail "Unauthorized" 401, [])
  ∧ Supabase.run (DetailRoute.GET Sample.env Sample2.anonymous "S1") Sample.member_of_acme
    = (Supabase.fail "Unauthorized" 401, []).
Proof.
  assert (∀ e, ¬ Access.authenticated Sample.env Sample.member_of_acme Sample2.anonymous e)
    as Hnot by (intros e (_ & Htoken & _); discriminate).
  split; [exact Hnot|].
  destruct (no_read_before_authentication Sample.env Sample.member_of_acme Sample2.anonymous
              Hnot) as [Hlist Hdetail].
  split; [exact Hlist | exact (Hdetail "S1")].
Defined.

Lemma no_usable_scope_empty_list_witness :
  Access.authenticated Sample.env Sample2.scopeless Sample.request "ann@example.com"
  ∧ Access.membershipsOf Sample2.scopeless "ann@example.com" = [Sample.member None]
  ∧ Supabase.run (ListRoute.GET Sample.env Sample.request) Sample2.scopeless
    = (Supabase.json {| ListRoute.data := []; ListRoute.email := "ann@example.com" |},
       [Supabase.SelectMemberships "ann@example.com"]).
Proof.
  assert (Access.authenticated Sample.env Sample2.scopeless Sample.request
            "ann@example.com") as Hauth by (repeat split).
  split; [exact Hauth|]. split; [reflexivity|].
  apply (no_usable_scope_empty_list Sample.env Sample2.scopeless Sample.request
           "ann@example.com" Hauth); reflexivity.
Defined.

Lemma list_returns_only_granted_shipments_witness :
  Access.authenticated Sample.env Sample2.two_customers Sample.request "ann@example.com"
  ∧ Supabase.body
      (fst (Supabase.run (ListRoute.GET Sample.env Sample.request) Sample2.two_customers))
    = Supabase.Json
        {| ListRoute.data := [Access.annotated Sample2.two_customers Sample2.acme_shipment];
           ListRoute.email := "ann@example.com" |}
  ∧ ∀ item,
      item ∈ [Access.annotated Sample2.two_customers Sample2.acme_shipment] →
      ∃ r m, r ∈ Supabase.shipments Sample2.two_customers
             ∧ m ∈ Access.membershipsOf Sample2.two_customers "ann@example.com"
             ∧ Access.grants m r
             ∧ item = Access.annotated Sample2.two_customers r.
Proof.
  assert (Access.authenticated Sample.env Sample2.two_customers Sample.request
            "ann@example.com") as Hauth by (repeat split).
  assert (Supabase.body
            (fst (Supabase.run (ListRoute.GET Sample.env Sample.request)
                    Sample2.two_customers))
          = Supabase.Json
              {| ListRoute.data :=
                   [Access.annotated Sample2.two_customers Sample2.acme_shipment];
                 ListRoute.email := "ann@example.com" |}) as Hbody
    by (vm_compute; reflexivity).
  split; [exact Hauth|]. split; [exact Hbody|].
  exact (proj2 (proj2 (list_returns_only_granted_shipments Sample.env Sample2.two_customers
                         Sample.request "ann@example.com" _ postgres_ilike_plain Hauth
                         eq_refl Hbody))).
Defined.

Lemma foreign_shipment_forbidden_witness :
  Access.authenticated Sample.env Sample2.two_customers Sample.request "ann@example.com"
  ∧ Access.shipmentsWithId Sample2.two_customers "S7" = [Sample2.globex_shipment]
  ∧ Supabase.run (DetailRoute.GET Sample.env Sample.request "S7") Sample2.two_customers
    = (Supabase.fail "You don't have access to this shipment" 403,
       [Supabase.SelectMemberships "ann@example.com"; Supabase.SelectShipment "S7"])
  ∧ Access.authenticated Sample.env Sample.stranger Sample.request "ann@example.com"
  ∧ Supabase.run (DetailRoute.GET Sample.env Sample.request "S1") Sample.stranger
    = (Supabase.fail "No customer access" 403,
       [Supabase.SelectMemberships "ann@example.com"]).
Proof.
  assert (Access.authenticated Sample.env Sample2.two_customers Sample.request
            "ann@example.com") as Hauth by (repeat split).
  assert (Access.authenticated Sample.env Sample.stranger Sample.request
            "ann@example.com") as Hauth' by (repeat split).
  split; [exact Hauth|]. split; [reflexivity|].
  split; [|split; [exact Hauth'|]].
  - apply (foreign_shipment_forbidden Sample.env Sample2.two_customers Sample.request
             "ann@example.com" "S7" Sample2.globex_shipment Hauth);
      [reflexivity | reflexivity | reflexivity | reflexivity | |].
    + intros t [= <-]. reflexivity.
    + intros m Hm (s0 & t & Hs & _ & Ht & Hsame).
      apply list_elem_of_singleton in Hm. subst m.
      injection Hs as <-. injection Ht as <-. discriminate Hsame.
  - apply (foreign_shipment_forbidden Sample.env Sample.stranger Sample.request
             "ann@example.com" "S1" Sample2.acme_shipment Hauth');
      [reflexivity | reflexivity | reflexivity | reflexivity | |].
    + intros t [= <-]. reflexivity.
    + intros m Hm. inversion Hm.
Defined.

Lemma granted_shipment_with_all_its_events_witness :
  Access.authenticated Sample.env Sample.member_of_acme Sample.request "ann@example.com"
  ∧ Access.grants (Sample.member (Some "ACME")) Sample2.acme_shipment
  ∧ ∃ returned,
      Supabase.run (DetailRoute.GET Sample.env Sample.request "S1") Sample.member_of_acme
      = (Supabase.json {| DetailRoute.shipment := Sample2.acme_shipment;
                          DetailRoute.events := returned |},
         [Supabase.SelectMemberships "ann@example.com"; Supabase.SelectShipment "S1";
          Supabase.SelectEvents "S1"])
      ∧ length returned = 2.
Proof.
  assert (Access.authenticated Sample.env Sample.member_of_acme Sample.request
            "ann@example.com") as Hauth by (repeat split).
  assert (Access.grants (Sample.member (Some "ACME")) Sample2.acme_shipment) as Hgrant.
  { exists "ACME"%string, "acme"%string. repeat split. discriminate. }
  split; [exact Hauth|]. split; [exact Hgrant|].
  destruct (granted_shipment_with_all_its_events Sample.env Sample.member_of_acme
              Sample.request "ann@example.com" "S1" Sample2.acme_shipment
              (Sample.member (Some "ACME")) postgres_ts_total postgres_ts_trans Hauth
              eq_refl eq_refl eq_refl eq_refl ltac:(left) Hgrant)
    as (returned & Hrun & _ & Hlen & _).
  exists returned. split; [exact Hrun | exact Hlen].
Defined.

Lemma listed_shipment_can_be_opened_witness :
  Access.authenticated Sample.env Sample2.two_customers Sample.request "ann@example.com"
  ∧ NoDup (List.map Shipments.shipment_id (Supabase.shipments Sample2.two_customers))
  ∧ ∃ r events,
      fst (Supabase.run (DetailRoute.GET Sample.env Sample.request "S1") Sample2.two_customers)
      = Supabase.json {| DetailRoute.shipment := r; DetailRoute.events := events |}
      ∧ Access.annotated Sample2.two_customers Sample2.acme_shipment
        = Access.annotated Sample2.two_customers r.
Proof.
  assert (Access.authenticated Sample.env Sample2.two_customers Sample.request
            "ann@example.com") as Hauth by (repeat split).
  assert (NoDup (List.map Shipments.shipment_id (Supabase.shipments Sample2.two_customers)))
    as Hnodup by (apply (bool_decide_unpack _); vm_compute; exact I).
  split; [exact Hauth|]. split; [exact Hnodup|].
  apply (listed_shipment_can_be_opened Sample.env Sample2.two_customers Sample.request
           "ann@example.com"
           {| ListRoute.data := [Access.annotated Sample2.two_customers Sample2.acme_shipment];
              ListRoute.email := "ann@example.com" |}
           (Access.annotated Sample2.two_customers Sample2.acme_shipment)
           postgres_ilike_plain Hauth eq_refl Hnodup);
    [vm_compute; reflexivity | left | reflexivity | reflexivity].
Defined.

Lemma opened_shipment_is_selected_by_the_list_witness :
  Access.authenticated Sample.env Sample.member_of_acme Sample.request "ann@example.com"
  ∧ Supabase.status
      (fst (Supabase.run (DetailRoute.GET Sample.env Sample.request "S1")
              Sample.member_of_acme)) = 200
  ∧ ∃ r events,
      fst (Supabase.run (DetailRoute.GET Sample.env Sample.request "S1") Sample.member_of_acme)
      = Supabase.json {| DetailRoute.shipment := r; DetailRoute.events := events |}
      ∧ Shipments.shipment_id r = "S1"%string
      ∧ r ∈ Access.matchedFor Sample.member_of_acme "ann@example.com".
Proof.
  assert (Access.authenticated Sample.env Sample.member_of_acme Sample.request
            "ann@example.com") as Hauth by (repeat split).
  split; [exact Hauth|]. split; [reflexivity|].
  apply (opened_shipment_is_selected_by_the_list Sample.env Sample.member_of_acme
           Sample.request "ann@example.com" "S1" postgres_ilike_plain Hauth eq_refl eq_refl).
Defined.

Lemma search_finds_a_row_by_its_reference_witness :
  SortSpec.row "S2" (Some "1700") ∈ [SortSpec.row "S1" None; SortSpec.row "S2" (Some "1700")]
  ∧ SortSpec.row "S2" (Some "1700")
    ∈ ShipmentsPage.filteredAndSorted SortSpec.decimalTime SortSpec.lexCompare
        [SortSpec.row "S1" None; SortSpec.row "S2" (Some "1700")]
        (ShipmentsPage.getReference (SortSpec.row "S2" (Some "1700")))
        ShipmentsPage.reference ShipmentsPage.asc.
Proof.
  assert (SortSpec.row "S2" (Some "1700")
          ∈ [SortSpec.row "S1" None; SortSpec.row "S2" (Some "1700")]) as Hin
    by (right; left).
  split; [exact Hin|].
  exact (proj1 (search_finds_a_row_by_its_reference SortSpec.decimalTime SortSpec.lexCompare
                  _ _ ShipmentsPage.reference ShipmentsPage.asc Hin)).
Defined.

Lemma search_shows_rows_of_the_list_witness :
  Js.trim "   " = ""%string
  ∧ Permutation
      (ShipmentsPage.filteredAndSorted SortSpec.decimalTime SortSpec.lexCompare
         [SortSpec.row "S1" None; SortSpec.row "S2" (Some "1700")] "   "
         ShipmentsPage.key_eta_updated ShipmentsPage.desc)
      [SortSpec.row "S1" None; SortSpec.row "S2" (Some "1700")].
Proof.
  split; [reflexivity|].
  apply (proj2 (proj2 (search_shows_rows_of_the_list SortSpec.decimalTime SortSpec.lexCompare
                         [SortSpec.row "S1" None; SortSpec.row "S2" (Some "1700")] "   "
                         ShipmentsPage.key_eta_updated ShipmentsPage.desc))).
  reflexivity.
Defined.

Lemma search_ignores_the_case_of_the_query_witness :
  Text.is_ascii "wpl-7" = true
  ∧ ShipmentsPage.filteredAndSorted SortSpec.decimalTime SortSpec.lexCompare
      [SortSpec.row "WPL-7" None; SortSpec.row "S2" (Some "1700")] (Js.toUpperCase "wpl-7")
      ShipmentsPage.reference ShipmentsPage.asc
    = ShipmentsPage.filteredAndSorted SortSpec.decimalTime SortSpec.lexCompare
        [SortSpec.row "WPL-7" None; SortSpec.row "S2" (Some "1700")] "wpl-7"
        ShipmentsPage.reference ShipmentsPage.asc
  ∧ ShipmentsPage.filteredAndSorted SortSpec.decimalTime SortSpec.lexCompare
      [SortSpec.row "WPL-7" None; SortSpec.row "S2" (Some "1700")] "wpl-7"
      ShipmentsPage.reference ShipmentsPage.asc
    = [SortSpec.row "WPL-7" None].
Proof.
  split; [reflexivity|]. split; [|vm_compute; reflexivity].
  apply (search_ignores_the_case_of_the_query SortSpec.decimalTime SortSpec.lexCompare).
  reflexivity.
Defined.

Lemma sort_orders_by_date_witness :
  SortSpec.columnOf ShipmentsPage.key_eta_updated = SortSpec.DateColumn ShipmentsPage.eta_updated
  ∧ StronglySorted
      (CrossPage.dateOrdered SortSpec.decimalTime ShipmentsPage.desc ShipmentsPage.eta_updated)
      (ShipmentsPage.filteredAndSorted SortSpec.decimalTime SortSpec.lexCompare
         [SortSpec.row "S1" None; SortSpec.row "S2" (Some "1700"); SortSpec.row "S4" (Some "1800")]
         "" ShipmentsPage.key_eta_updated ShipmentsPage.desc).
Proof.
  split; [reflexivity|].
  apply (sort_orders_by_date SortSpec.decimalTime SortSpec.lexCompare). reflexivity.
Defined.

Lemma sort_orders_by_text_witness :
  SortSpec.lexicographic SortSpec.lexCompare
  ∧ SortSpec.columnOf ShipmentsPage.reference = SortSpec.TextColumn ShipmentsPage.getReference
  ∧ StronglySorted (CrossPage.textOrdered ShipmentsPage.asc ShipmentsPage.getReference)
      (ShipmentsPage.filteredAndSorted SortSpec.decimalTime SortSpec.lexCompare
         [SortSpec.row "s2" None; SortSpec.row "S1" None; SortSpec.row "S3" None]
         "" ShipmentsPage.reference ShipmentsPage.asc).
Proof.
  split; [exact lexCompare_lexicographic|]. split; [reflexivity|].
  apply (sort_orders_by_text SortSpec.decimalTime SortSpec.lexCompare);
    [exact lexCompare_lexicographic | reflexivity].
Defined.

Lemma inferMilestoneIndex_never_regresses_witness :
  (∀ e, e ∈ [MilestoneSpec.event (Some "ATD")] →
        e ∈ [MilestoneSpec.event (Some "BOOKED"); MilestoneSpec.event (Some "ATD")])
  ∧ DetailPage.inferMilestoneIndex [MilestoneSpec.event (Some "ATD")]
    ≤ DetailPage.inferMilestoneIndex
        [MilestoneSpec.event (Some "BOOKED"); MilestoneSpec.event (Some "ATD")].
Proof.
  assert (∀ e, e ∈ [MilestoneSpec.event (Some "ATD")] →
               e ∈ [MilestoneSpec.event (Some "BOOKED"); MilestoneSpec.event (Some "ATD")])
    as Hsub by (intros e He; right; exact He).
  split; [exact Hsub|].
  apply (inferMilestoneIndex_never_regresses _ _ Hsub).
Defined.

Lemma inferMilestoneIndex_order_and_repetition_witness :
  (∀ e, e ∈ [MilestoneSpec.event (Some "ATD"); MilestoneSpec.event (Some "BOOKED")]
        ↔ e ∈ [MilestoneSpec.event (Some "BOOKED"); MilestoneSpec.event (Some "ATD");
               MilestoneSpec.event (Some "BOOKED")])
  ∧ DetailPage.inferMilestoneIndex
      [MilestoneSpec.event (Some "ATD"); MilestoneSpec.event (Some "BOOKED")]
    = DetailPage.inferMilestoneIndex
        [MilestoneSpec.event (Some "BOOKED"); MilestoneSpec.event (Some "ATD");
         MilestoneSpec.event (Some "BOOKED")].
Proof.
  assert (∀ e, e ∈ [MilestoneSpec.event (Some "ATD"); MilestoneSpec.event (Some "BOOKED")]
               ↔ e ∈ [MilestoneSpec.event (Some "BOOKED"); MilestoneSpec.event (Some "ATD");
                      MilestoneSpec.event (Some "BOOKED")]) as Hsame.
  { intros e. rewrite !elem_of_cons, !elem_of_nil. tauto. }
  split; [exact Hsame|].
  apply (inferMilestoneIndex_order_and_repetition _ _ Hsame).
Defined.

Lemma list_status_agrees_with_milestone_witness :
  MilestoneSpec.ordinalOf (MilestoneSpec.event (Some " atd ")) 4 = true
  ∧ ShipmentsPage.deriveStatus (StatusSpec.shipmentWith (Some " atd ") (Some "Delivered"))
    = ShipmentsPage.InTransit.
Proof.
  split; [reflexivity|].
  apply (list_status_agrees_with_milestone (MilestoneSpec.event (Some " atd ")) 4
           (Some "Delivered")). reflexivity.
Defined.

Lemma callback_needs_a_session_witness :
  AuthCallback.exchangeCodeForSession Sample2.auth "stale" None
  = (AuthCallback.Returned (Some "invalid grant"%string), None)
  ∧ AuthCallback.CallbackHandler Sample2.auth Sample2.no_params (Some "stale") "" None
    = {| AuthCallback.href := "/login"; AuthCallback.cleaned := false;
         AuthCallback.calls := [AuthCallback.ExchangeCodeForSession "stale"];
         AuthCallback.store := None |}.
Proof.
  split; [reflexivity|].
  destruct (callback_needs_a_session Sample2.auth Sample2.no_params (Some "stale") "" None)
    as (_ & _ & _ & Hstale).
  apply (Hstale "stale"%string "invalid grant"%string None); [reflexivity | discriminate | reflexivity].
Defined.

(** ** Examples *)

Example trim_ex : Js.trim "  a b  " = "a b".
Proof. reflexivity. Qed.

Example bearer_ex :
  Supabase.bearerToken {| Supabase.authorization := Some "bearer  abc " |} = "abc"
  ∧ Supabase.bearerToken {| Supabase.authorization := Some "Basic abc" |} = ""
  ∧ Supabase.bearerToken {| Supabase.authorization := None |} = "".
Proof. repeat split. Qed.

Example deriveStatus_ex :
  ShipmentsPage.deriveStatus (StatusSpec.shipmentWith (Some " del ") (Some "Booked"))
  = ShipmentsPage.Delivered
  ∧ ShipmentsPage.deriveStatus (StatusSpec.shipmentWith (Some "ARRIVED") (Some "Customs cleared"))
    = ShipmentsPage.CustomsReleased
  ∧ ShipmentsPage.deriveStatus (StatusSpec.shipmentWith None None) = ShipmentsPage.InTransit.
Proof. repeat split. Qed.

Example ilike_ex :
  Postgres.ilike "ACME" "acme" = true
  ∧ Postgres.ilike "ac%" "ACME" = true
  ∧ Postgres.ilike "ac\_e" "ac_e" = true
  ∧ Postgres.ilike "ac\_e" "acme" = false.
Proof. repeat split. Qed.

Example route_ex :
  ShipmentsPage.getRoute
    {| ShipmentsPage.shipment_id := "S1"; ShipmentsPage.hawb := None; ShipmentsPage.mawb := None;
       ShipmentsPage.po_number := None; ShipmentsPage.customer_reference := None;
       ShipmentsPage.origin := Some "HKG"; ShipmentsPage.destination := None;
       ShipmentsPage.current_status := None; ShipmentsPage.eta_updated := None;
       ShipmentsPage.last_event_time := None; ShipmentsPage.latest_event_code := None |}
  = "HKG→".
Proof. reflexivity. Qed.

Example infer_ex :
  DetailPage.inferMilestoneIndex
    [ {| DetailPage.event_time := None; DetailPage.event_code := Some "atd ";
         DetailPage.notes := None; DetailPage.location := None; DetailPage.source_column := None |};
      {| DetailPage.event_time := None; DetailPage.event_code := Some "CARGO_RECEIVED";
         DetailPage.notes := None; DetailPage.location := None; DetailPage.source_column := None |} ]
  = 4.
Proof. vm_compute. reflexivity. Qed.
